(** * arcor2 server: a shallow embedding of [arcor2/nodes/server.py]

    The server keeps its state in module-level globals ([SCENE], [PROJECT],
    [INTERFACES], the manager queues, the instance registries and the focus
    dictionaries).  Here every global that a function reads or writes is an
    explicit argument or a field of an explicit state record, exceptions are
    values of type [exn], and the collaborators that live outside
    [server.py] come in through interfaces: [Parsers] for the parsing
    methods of the data classes, [Externals] for storage, the type loader,
    the constructors of loaded classes and the robot drivers, [Storage]
    for the stored projects.

    The first part holds the embedding, the second part the properties. *)

From Stdlib Require Import Ascii Sorted.
From stdpp Require Import gmap strings list pretty.

(** ** Exceptions and fallible computations *)

(** The key of a failed dict lookup: the server's dicts are keyed by strings
    (ids, type names) or by integers (request ids). *)
Inductive pykey :=
  | StrKey (s : string)
  | IntKey (z : Z).

Inductive exn :=
  | KeyError (key : pykey)
  | UnboundLocalError (var : string)
  | AttributeError (msg : string)
  | AssertionError
  | TypeError (msg : string)
  | NotImplementedError
  | Arcor2Exception (msg : string)
  | RobotPoseException (msg : string)
  | PersistentStorageException (msg : string)
  | QueueFull.

Inductive result (A : Type) :=
  | Ok (a : A)
  | Raise (e : exn).
Arguments Ok {A} a.
Arguments Raise {A} e.

#[global] Instance result_ret : MRet result := λ A a, Ok a.
#[global] Instance result_bind : MBind result := λ A B f m,
  match m with
  | Ok a => f a
  | Raise e => Raise e
  end.

(** [except Arcor2Exception as e]: the handler also takes the subclasses
    [RobotPoseException] and [PersistentStorageException]; the result is
    [str(e)]. *)
Definition as_arcor2_exception (e : exn) : option string :=
  match e with
  | Arcor2Exception msg | RobotPoseException msg
  | PersistentStorageException msg => Some msg
  | _ => None
  end.

(** [for x in l: st = body(st, x)], stopping at the first exception. *)
Fixpoint for_each {S A : Type} (body : S → A → result S) (l : list A) (st : S)
    : result S :=
  match l with
  | [] => Ok st
  | x :: l' => st' ← body st x; for_each body l' st'
  end.

(** [d[k]] on a Python dict with string keys. *)
Definition getitem {V : Type} (d : gmap string V) (k : string) : result V :=
  match d !! k with
  | Some v => Ok v
  | None => Raise (KeyError (StrKey k))
  end.

(** ** Data model ([arcor2.data.common], [arcor2.data.object_type]) *)

(** Coordinates are Python floats; nothing modelled here computes with them,
    they are only stored, copied and compared, so they are carried as
    integers. *)
Record Position := mkPosition { pos_x : Z; pos_y : Z; pos_z : Z }.
Record Orientation := mkOrientation { ori_x : Z; ori_y : Z; ori_z : Z; ori_w : Z }.
Record Pose := mkPose { position : Position; orientation : Orientation }.

#[global] Instance Position_eq_dec : EqDecision Position.
Proof. solve_decision. Defined.
#[global] Instance Orientation_eq_dec : EqDecision Orientation.
Proof. solve_decision. Defined.
#[global] Instance Pose_eq_dec : EqDecision Pose.
Proof. solve_decision. Defined.

Inductive ActionParameterTypeEnum :=
  | STRING | DOUBLE | INTEGER | STRING_ENUM | INTEGER_ENUM | POSE | JOINTS.

#[global] Instance ActionParameterTypeEnum_eq_dec : EqDecision ActionParameterTypeEnum.
Proof. solve_decision. Defined.

Module SceneObject.
Record t := mk { id : string; type : string; pose : Pose }.
End SceneObject.

Module SceneService.
Record t := mk { type : string; configuration_id : string }.
End SceneService.

Module Scene.
Record t := mk {
  id : string;
  objects : list SceneObject.t;
  services : list SceneService.t }.
End Scene.

Module NamedOrientation.
Record t := mk { id : string; orientation : Orientation }.
End NamedOrientation.

Module RobotJoints.
Record t := mk {
  id : string;
  robot_id : string;
  joints : list (string * Z);
  is_valid : bool }.
End RobotJoints.

Module ActionParameter.
Record t := mk { id : string; type : ActionParameterTypeEnum; value : string }.
End ActionParameter.

Module Action.
Record t := mk {
  id : string;
  type : string;
  parameters : list ActionParameter.t;
  inputs : list string;
  outputs : list string }.
End Action.

Module ActionPoint.
Record t := mk {
  id : string;
  position : Position;
  orientations : list NamedOrientation.t;
  robot_joints : list RobotJoints.t;
  actions : list Action.t }.
End ActionPoint.

Module ProjectObject.
Record t := mk { id : string; action_points : list ActionPoint.t }.
End ProjectObject.

Module Project.
Record t := mk {
  id : string;
  scene_id : string;
  objects : list ProjectObject.t }.
End Project.

(** Catalogue entries: one [ObjectAction] per action of an object or service
    type, with the declared arguments. *)
Module ActionArg.
Record t := mk { name : string; type : ActionParameterTypeEnum }.
End ActionArg.

Module ObjectAction.
Record t := mk { name : string; action_args : list ActionArg.t }.
End ObjectAction.

(** ** Collaborators outside [server.py]

    [Action.parse_type] and [ActionParameter.parse_id] are methods of the data
    classes; both either return the parsed components or raise
    [Arcor2Exception].  Their bodies are not part of the server, so the
    validator takes them as an interface. *)
Class Parsers := {
  parse_type : Action.t → result (string * string);
  parse_id : ActionParameter.t → result (string * string * string) }.

(** ** The validator: [project_problems] *)

Module Validator.

(** The locals of [project_problems] that change while it iterates:
    [action_ids], [problems], and the loop variable [act], which Python
    keeps bound (or leaves unbound) after its [for] statement. *)
Record locals := mkLocals {
  action_ids : gset string;
  act : option ObjectAction.t;
  problems : list string }.

Definition append (st : locals) (msg : string) : locals :=
  mkLocals (action_ids st) (act st) (problems st ++ [msg]).

(** [{obj.id: obj.type for obj in scene.objects}]: later entries win. *)
Definition scene_objects_of (scene : Scene.t) : gmap string string :=
  foldl (λ m o, <[SceneObject.id o := SceneObject.type o]> m) ∅ (Scene.objects scene).

Definition scene_services_of (scene : Scene.t) : gset string :=
  list_to_set (SceneService.type <$> Scene.services scene).

Definition objects_aps_of (project : Project.t) : gmap string (gset string) :=
  foldl (λ m o, <[ProjectObject.id o :=
                   list_to_set (ActionPoint.id <$> ProjectObject.action_points o)]> m)
        ∅ (Project.objects project).

(** [for act in acts: if action_type == act.name: break] followed by the
    [else] clause: returns the value [act] is left with and whether the loop
    was left by [break]. *)
Fixpoint for_act (action_type : string) (acts : list ObjectAction.t)
    (cur : option ObjectAction.t) : option ObjectAction.t * bool :=
  match acts with
  | [] => (cur, false)
  | a :: acts' =>
      if decide (action_type = ObjectAction.name a) then (Some a, true)
      else for_act action_type acts' (Some a)
  end.

Definition action_params_of (action : Action.t) : gmap string ActionParameterTypeEnum :=
  foldl (λ m p, <[ActionParameter.id p := ActionParameter.type p]> m) ∅
        (Action.parameters action).

(** [{param.name: param.type for param in act.action_args
      for act in ACTIONS[os_type]}]: the outer iterable is the function's
    [act]; the inner loop rebinds a comprehension-local [act] and inserts
    the same pair once per catalogue entry. *)
Definition ot_params_of (outer_act : ObjectAction.t) (acts : list ObjectAction.t)
    : gmap string ActionParameterTypeEnum :=
  foldl (λ m p, foldl (λ m' _, <[ActionArg.name p := ActionArg.type p]> m') m acts) ∅
        (ObjectAction.action_args outer_act).

Definition is_pose_or_joints (t : ActionParameterTypeEnum) : bool :=
  match t with POSE | JOINTS => true | _ => false end.

Section with_parsers.
Context `{Parsers}.

(** The body of [for param in action.parameters]: only POSE and JOINTS
    values are looked at.  [objects_aps[p_obj_id]] is evaluated even when
    the object id was just reported as unknown, and then raises. *)
Definition check_param (objects_aps : gmap string (gset string))
    (action : Action.t) (st : locals) (param : ActionParameter.t) : result locals :=
  if is_pose_or_joints (ActionParameter.type param) then
    match parse_id param with
    | Raise e =>
        match as_arcor2_exception e with
        | Some msg => Ok (append st msg)
        | None => Raise e
        end
    | Ok (p_obj_id, p_ap_id, val_id) =>
        let st1 :=
          if decide (p_obj_id ∈ dom objects_aps) then st
          else append st ("Parameter " +:+ ActionParameter.id param +:+ " of action "
                          +:+ Action.id action +:+ " refers to non-existent object id.") in
        aps ← getitem objects_aps p_obj_id;
        if decide (p_ap_id ∈ aps) then Ok st1
        else Ok (append st1 ("Parameter " +:+ ActionParameter.id param +:+ " of action "
                             +:+ Action.id action
                             +:+ " refers to non-existent action point of object id "
                             +:+ p_obj_id +:+ "."))
    end
  else Ok st.

(** The body of [for action in ap.actions].  The [continue] after an
    unresolved target ends the body; an empty catalogue leaves [act] as the
    previous actions left it; the message of the [else] clause looks the
    target up in [scene_objects], which raises for a service. *)
Definition check_action (ACTIONS : gmap string (list ObjectAction.t))
    (scene_objects : gmap string string) (scene_services : gset string)
    (objects_aps : gmap string (gset string))
    (obj : ProjectObject.t) (ap : ActionPoint.t)
    (st : locals) (action : Action.t) : result locals :=
  let st1 :=
    if decide (Action.id action ∈ action_ids st)
    then append st ("Action ID " +:+ Action.id action +:+ " of the "
                    +:+ ProjectObject.id obj +:+ "/" +:+ ActionPoint.id ap
                    +:+ " is not unique.")
    else st in
  '(obj_id, action_type) ← parse_type action;
  if decide (obj_id ∈ dom scene_objects ∪ scene_services) then
    let os_type := default obj_id (scene_objects !! obj_id) in
    acts ← getitem ACTIONS os_type;
    let '(cur, broke) := for_act action_type acts (act st1) in
    let st2 := mkLocals (action_ids st1) cur (problems st1) in
    st3 ← (if broke then Ok st2
           else ty ← getitem scene_objects obj_id;
                Ok (append st2 ("Object type " +:+ ty +:+ " does not have action "
                                +:+ action_type +:+ " used in " +:+ Action.id action
                                +:+ ".")));
    match act st3 with
    | None => Raise (UnboundLocalError "act")
    | Some outer_act =>
        let st4 :=
          if decide (action_params_of action = ot_params_of outer_act acts) then st3
          else append st3 ("Action ID " +:+ Action.id action +:+ " of type "
                           +:+ Action.type action +:+ " has invalid parameters.") in
        for_each (check_param objects_aps action) (Action.parameters action) st4
    end
  else
    Ok (append st1 ("Object ID " +:+ ProjectObject.id obj
                    +:+ " which action is used in " +:+ Action.id action
                    +:+ " does not exist in scene.")).

(** The body of [for joints in ap.robot_joints]. *)
Definition check_joints (ap : ActionPoint.t) (st : locals) (joints : RobotJoints.t)
    : result locals :=
  if RobotJoints.is_valid joints then Ok st
  else Ok (append st ("Action point " +:+ ActionPoint.id ap +:+ " has invalid joints: "
                      +:+ RobotJoints.id joints +:+ " (robot "
                      +:+ RobotJoints.robot_id joints +:+ ").")).

(** The body of [for ap in obj.action_points]. *)
Definition check_ap (ACTIONS : gmap string (list ObjectAction.t))
    (scene_objects : gmap string string) (scene_services : gset string)
    (objects_aps : gmap string (gset string))
    (obj : ProjectObject.t) (st : locals) (ap : ActionPoint.t) : result locals :=
  st1 ← for_each (check_joints ap) (ActionPoint.robot_joints ap) st;
  for_each (check_action ACTIONS scene_objects scene_services objects_aps obj ap)
           (ActionPoint.actions ap) st1.

(** The body of [for obj in project.objects]. *)
Definition check_object (ACTIONS : gmap string (list ObjectAction.t))
    (scene_objects : gmap string string) (scene_services : gset string)
    (objects_aps : gmap string (gset string))
    (st : locals) (obj : ProjectObject.t) : result locals :=
  if decide (ProjectObject.id obj ∈ dom scene_objects) then
    for_each (check_ap ACTIONS scene_objects scene_services objects_aps obj)
             (ProjectObject.action_points obj) st
  else
    Ok (append st ("Object ID " +:+ ProjectObject.id obj +:+ " does not exist in scene.")).

(** The whole run, returning the final locals. *)
Definition run (ACTIONS : gmap string (list ObjectAction.t))
    (scene : Scene.t) (project : Project.t) : result locals :=
  for_each (check_object ACTIONS (scene_objects_of scene) (scene_services_of scene)
                         (objects_aps_of project))
           (Project.objects project) (mkLocals ∅ None []).

Definition project_problems (ACTIONS : gmap string (list ObjectAction.t))
    (scene : Scene.t) (project : Project.t) : result (list string) :=
  st ← run ACTIONS scene project; Ok (problems st).

(** *** What a conforming project is

    The conditions under which the validator is expected to stay silent,
    each as a check that can be run. *)

(** The type whose catalogue an action's target selects: the type of the
    scene object with that id, or the id itself when it is a service type
    of the scene. *)
Definition target_type (scene_objects : gmap string string) (scene_services : gset string)
    (obj_id : string) : option string :=
  match scene_objects !! obj_id with
  | Some ty => Some ty
  | None => if decide (obj_id ∈ scene_services) then Some obj_id else None
  end.

(** The first catalogue entry with the given name. *)
Definition find_action (action_type : string) (acts : list ObjectAction.t)
    : option ObjectAction.t :=
  head (filter (λ a, action_type = ObjectAction.name a) acts).

(** The declared parameters of a catalogue entry, by name. *)
Definition signature_of (a : ObjectAction.t) : gmap string ActionParameterTypeEnum :=
  foldl (λ m p, <[ActionArg.name p := ActionArg.type p]> m) ∅ (ObjectAction.action_args a).

(** The action's target exists, its catalogue has the action, and the
    parameters are the declared ones. *)
Definition action_conforms (ACTIONS : gmap string (list ObjectAction.t))
    (scene_objects : gmap string string) (scene_services : gset string)
    (action : Action.t) : bool :=
  match parse_type action with
  | Ok (obj_id, action_type) =>
      match target_type scene_objects scene_services obj_id with
      | Some os_type =>
          match ACTIONS !! os_type ≫= find_action action_type with
          | Some a => bool_decide (action_params_of action = signature_of a)
          | None => false
          end
      | None => false
      end
  | Raise _ => false
  end.

Definition all_actions (project : Project.t) : list Action.t :=
  o ← Project.objects project;
  ap ← ProjectObject.action_points o;
  ActionPoint.actions ap.

Definition all_joints (project : Project.t) : list RobotJoints.t :=
  o ← Project.objects project;
  ap ← ProjectObject.action_points o;
  ActionPoint.robot_joints ap.

(** The hypotheses of the silence property as the specification words them:
    every project object is in the scene and every action conforms. *)
Definition conforming (ACTIONS : gmap string (list ObjectAction.t))
    (scene : Scene.t) (project : Project.t) : bool :=
  forallb (λ o, bool_decide (ProjectObject.id o ∈ dom (scene_objects_of scene)))
          (Project.objects project)
  && forallb (action_conforms ACTIONS (scene_objects_of scene) (scene_services_of scene))
             (all_actions project).

(** A POSE or JOINTS value names an object of the project and one of its
    action points. *)
Definition value_resolves (objects_aps : gmap string (gset string))
    (param : ActionParameter.t) : bool :=
  if is_pose_or_joints (ActionParameter.type param) then
    match parse_id param with
    | Ok (p_obj_id, p_ap_id, _) =>
        match objects_aps !! p_obj_id with
        | Some aps => bool_decide (p_ap_id ∈ aps)
        | None => false
        end
    | Raise _ => false
    end
  else true.

Definition values_resolve (project : Project.t) : bool :=
  forallb (λ a, forallb (value_resolves (objects_aps_of project)) (Action.parameters a))
          (all_actions project).

Definition joints_valid (project : Project.t) : bool :=
  forallb RobotJoints.is_valid (all_joints project).

End with_parsers.
End Validator.

(** ** The manager bridge

    [MANAGER_RPC_REQUEST_QUEUE] is an unbounded [asyncio.Queue] (first in,
    first out: [put] appends at the tail, [get] takes the head) and
    [MANAGER_RPC_RESPONSES] maps a request id to a [RespQueue(maxsize=1)]. *)

Module Request.
Record t := mk { id : Z; request : string; args : string }.
End Request.

Module Response.
Record t := mk {
  id : Z;
  response : string;
  result : bool;
  messages : list string;
  data : string }.
End Response.

Module Bridge.

Record state := mkState {
  MANAGER_RPC_REQUEST_QUEUE : list Request.t;
  MANAGER_RPC_RESPONSES : gmap Z (list Response.t) }.

(** *** The sender loop of [project_manager_client]

    One pass of the inner [while True] suspends twice: in
    [wait_for(MANAGER_RPC_REQUEST_QUEUE.get(), 1.0)] and in
    [manager_client.send].  A [pass] records what the rest of the program
    does meanwhile: whether the receiver task has finished, the requests
    other tasks put while the sender waits or sends, and whether the send
    raises [ConnectionClosed]. *)
Record pass := mkPass {
  receiver_done : bool;
  put_while_waiting : list Request.t;
  send_closed : bool;
  put_while_sending : list Request.t }.

Inductive control := Continue | Break.

(** Returns the queue after the pass, the request written to the manager (if
    any) and whether the loop goes on. *)
Definition sender_pass (queue : list Request.t) (p : pass)
    : list Request.t * option Request.t * control :=
  if receiver_done p then (queue, None, Break)
  else
    match queue ++ put_while_waiting p with
    | [] => ([], None, Continue)
    | msg :: rest =>
        if send_closed p
        then ((rest ++ put_while_sending p) ++ [msg], None, Break)
        else (rest ++ put_while_sending p, Some msg, Continue)
    end.

(** The inner loop over the passes of one connection; it ends at the first
    [break] (or when the recorded passes end). *)
Fixpoint sender_loop (queue : list Request.t) (passes : list pass)
    : list Request.t * list Request.t :=
  match passes with
  | [] => (queue, [])
  | p :: passes' =>
      match sender_pass queue p with
      | (queue', sent, Break) => (queue', option_list sent)
      | (queue', sent, Continue) =>
          let '(queue'', sents) := sender_loop queue' passes' in
          (queue'', option_list sent ++ sents)
      end
  end.

(** One turn of the outer [while True]: the connection is refused (and the
    client sleeps for a second) or established and served by the sender
    loop. *)
Inductive attempt :=
  | Refused (put_meanwhile : list Request.t)
  | Connected (passes : list pass).

Fixpoint project_manager_client (queue : list Request.t) (attempts : list attempt)
    : list Request.t * list Request.t :=
  match attempts with
  | [] => (queue, [])
  | Refused more :: attempts' => project_manager_client (queue ++ more) attempts'
  | Connected passes :: attempts' =>
      let '(queue', sent) := sender_loop queue passes in
      let '(queue'', sent') := project_manager_client queue' attempts' in
      (queue'', sent ++ sent')
  end.

(** *** [manager_request]

    The coroutine runs without suspension up to [await ... .get()]
    ([put] on an unbounded queue never waits), stays suspended until its slot
    holds a response, and then runs to its end. *)
Definition manager_request_register (st : state) (req : Request.t) : result state :=
  if decide (Request.id req ∈ dom (MANAGER_RPC_RESPONSES st)) then Raise AssertionError
  else Ok (mkState (MANAGER_RPC_REQUEST_QUEUE st ++ [req])
                   (<[Request.id req := []]> (MANAGER_RPC_RESPONSES st))).

(** [None]: the slot is missing or empty, the caller is still suspended. *)
Definition manager_request_collect (st : state) (req : Request.t)
    : option (Response.t * state) :=
  match MANAGER_RPC_RESPONSES st !! Request.id req with
  | Some (resp :: _) =>
      Some (resp, mkState (MANAGER_RPC_REQUEST_QUEUE st)
                          (delete (Request.id req) (MANAGER_RPC_RESPONSES st)))
  | _ => None
  end.

(** The response branch of [handle_manager_incoming_messages]:
    [MANAGER_RPC_RESPONSES[resp.id].put_nowait(resp)]. *)
Definition deliver (st : state) (resp : Response.t) : result state :=
  match MANAGER_RPC_RESPONSES st !! Response.id resp with
  | None => Raise (KeyError (IntKey (Response.id resp)))
  | Some [] =>
      Ok (mkState (MANAGER_RPC_REQUEST_QUEUE st)
                  (<[Response.id resp := [resp]]> (MANAGER_RPC_RESPONSES st)))
  | Some (_ :: _) => Raise QueueFull
  end.

(** What the other tasks can do to the bridge while the call for request id
    [me] is suspended: other callers register and collect (never with the id
    [me], which they did not register), the receiver delivers, and the sender
    takes from or puts into the request queue. *)
Inductive other_step (me : Z) : state → state → Prop :=
  | other_register st req st' :
      manager_request_register st req = Ok st' → other_step me st st'
  | other_collect st req resp st' :
      Request.id req ≠ me →
      manager_request_collect st req = Some (resp, st') → other_step me st st'
  | receiver_delivers st resp st' :
      deliver st resp = Ok st' → other_step me st st'
  | sender_moves st queue' :
      other_step me st (mkState queue' (MANAGER_RPC_RESPONSES st)).

(** Every slot holds at most one response, and only one of its own id. *)
Definition slots_ok (st : state) : Prop :=
  ∀ k slot, MANAGER_RPC_RESPONSES st !! k = Some slot →
    length slot ≤ 1 ∧ Forall (λ r, Response.id r = k) slot.

End Bridge.

(** ** The connection hub: [notify]

    A channel (a [WebSocketServerProtocol]) is identified by a number;
    [INTERFACES] is a set of channels. *)

Module Event.
Record t := mk { event : string; data : string }.
End Event.

Module Hub.

Section with_serializer.
Variable to_json : Event.t → string.

(** The guard of [notify]: [(exclude_ui is None and INTERFACES) or
    (exclude_ui and len(INTERFACES) > 1)]. *)
Definition notify_guard (INTERFACES : gset nat) (exclude_ui : option nat) : bool :=
  match exclude_ui with
  | None => bool_decide (INTERFACES ≠ ∅)
  | Some _ => bool_decide (1 < size INTERFACES)
  end.

(** [[intf.send(message) for intf in INTERFACES if intf != exclude_ui]] *)
Definition sends (INTERFACES : gset nat) (message : string) (exclude_ui : option nat)
    : list (nat * string) :=
  (λ intf, (intf, message)) <$>
    filter (λ intf, Some intf ≠ exclude_ui) (elements INTERFACES).

(** The sends [notify] hands to [asyncio.wait]. *)
Definition notify (INTERFACES : gset nat) (event : Event.t) (exclude_ui : option nat)
    : list (nat * string) :=
  if notify_guard INTERFACES exclude_ui
  then sends INTERFACES (to_json event) exclude_ui
  else [].

(** [asyncio.wait] runs every send to its end, whatever the others do; a
    send that raises leaves its exception in its own task.  [send_ok] says
    which channels accept a frame. *)
Definition delivered (send_ok : nat → bool) (attempted : list (nat * string))
    : list (nat * string) :=
  filter (λ s, send_ok s.1 = true) attempted.

End with_serializer.
End Hub.

(** ** Python dicts whose iteration order is observed

    A [dict] keeps its keys in insertion order; assigning to an existing key
    keeps the key's place.  The instance registries and the per-object focus
    dictionaries are iterated or listed by the server, so they are kept as
    association lists with unique keys. *)

Module odict.
Section odict.
Context {K V : Type} `{EqDecision K}.

Fixpoint get (d : list (K * V)) (k : K) : option V :=
  match d with
  | [] => None
  | (k', v) :: d' => if decide (k = k') then Some v else get d' k
  end.

(** [d[k] = v] *)
Fixpoint set (d : list (K * V)) (k : K) (v : V) : list (K * V) :=
  match d with
  | [] => [(k, v)]
  | (k', v') :: d' => if decide (k = k') then (k, v) :: d' else (k', v') :: set d' k v
  end.

Definition keys (d : list (K * V)) : list K := d.*1.

Definition values (d : list (K * V)) : list V := d.*2.

(** [k in d] *)
Definition mem (d : list (K * V)) (k : K) : bool := bool_decide (k ∈ keys d).

End odict.
End odict.

(** ** Catalogue metadata and live instances *)

Inductive ModelTypeEnum := BOX | CYLINDER | SPHERE | MESH.

#[global] Instance ModelTypeEnum_eq_dec : EqDecision ModelTypeEnum.
Proof. solve_decision. Defined.

(** [focus_points] is an optional list; [None] and the empty list are both
    falsy, and the server only tests its truth and indexes it. *)
Module Mesh.
Record t := mk { id : string; focus_points : list Pose }.
End Mesh.

(** The geometry a type declares: box, cylinder and sphere are carried by
    their ids. *)
Inductive Models :=
  | BoxModel (id : string)
  | CylinderModel (id : string)
  | SphereModel (id : string)
  | MeshModel (m : Mesh.t).

Module ObjectModel.
Record t := mk {
  type : ModelTypeEnum;
  box : option string;
  cylinder : option string;
  sphere : option string;
  mesh : option Mesh.t }.

(** [ObjectModel.model()]: the attribute named by [type]. *)
Definition model (m : t) : option Models :=
  match type m with
  | BOX => BoxModel <$> box m
  | CYLINDER => CylinderModel <$> cylinder m
  | SPHERE => SphereModel <$> sphere m
  | MESH => MeshModel <$> mesh m
  end.
End ObjectModel.

Module ObjectTypeMeta.
Record t := mk {
  type : string;
  base : string;
  abstract : bool;
  needs_services : gset string;
  object_model : option ObjectModel.t;
  description : string;
  built_in : bool }.
End ObjectTypeMeta.

Module ServiceTypeMeta.
Record t := mk { type : string; description : string }.
End ServiceTypeMeta.

Module RobotMeta.
Record t := mk { type : string; features_focus : bool }.
End RobotMeta.

Module RobotArg.
Record t := mk { robot_id : string; end_effector : string }.
Definition as_tuple (r : t) : string * string := (robot_id r, end_effector r).
End RobotArg.

(** An instance of a class derived from [Generic]; [is_robot] is
    [isinstance(inst, Robot)] and [class_name] is [inst.__class__.__name__]. *)
Module Generic.
Record t := mk {
  class_name : string;
  id : string;
  pose : Pose;
  collision_model : option Models;
  is_robot : bool }.
End Generic.

(** An instance of a class derived from [Service]; [is_robot_service] is
    [isinstance(inst, RobotService)]. *)
Module Service.
Record t := mk {
  class_name : string;
  configuration_id : string;
  is_robot_service : bool }.
End Service.

(** A loaded class definition: its name, the type hints of [__init__] in
    order (the name of each annotation and whether it is a subclass of
    [Service]) and whether it derives from [Robot]. *)
Module ObjectClass.
Record t := mk {
  name : string;
  init_hints : list (string * bool);
  is_robot : bool }.
End ObjectClass.

Module ServiceClass.
Record t := mk { name : string; is_robot_service : bool }.
End ServiceClass.

(** ** Collaborators of the server

    Storage, the type loader, the constructors of loaded classes and the
    robot drivers are outside [server.py]; each is a function that returns a
    value or raises. *)
Class Externals := {
  (** [hlp.is_valid_identifier] *)
  is_valid_identifier : string → bool;
  (** [otu.built_in_types_names()] and [otu.get_built_in_type] *)
  built_in_types_names : gset string;
  get_built_in_type : string → result ObjectClass.t;
  (** [storage.get_object_type] followed by [hlp.type_def_from_source] *)
  load_object_type : string → result ObjectClass.t;
  (** [storage.get_service_type] followed by [hlp.type_def_from_source] *)
  load_service_type : string → result ServiceClass.t;
  (** [storage.get_scene] *)
  get_scene : string → result Scene.t;
  (** [cls(srv_args..., id, pose, coll_model)] *)
  new_object : ObjectClass.t → list Service.t → string → Pose → option Models
               → result Generic.t;
  (** [cls_def(configuration_id)] *)
  new_service : ServiceClass.t → string → result Service.t;
  (** [rs.add_collision(obj)] and [rs.remove_collision(obj)] *)
  add_collision : Service.t → Generic.t → result ();
  remove_collision : Service.t → Generic.t → result ();
  (** the drivers' [get_end_effectors_ids], [get_robot_ids] and
      [get_end_effector_pose] *)
  robot_end_effectors_ids : Generic.t → result (list string);
  service_robot_ids : Service.t → result (list string);
  service_end_effectors_ids : Service.t → string → result (list string);
  robot_end_effector_pose : Generic.t → string → result Pose;
  service_end_effector_pose : Service.t → string → string → result Pose }.

(** [str(e)] *)
Definition exn_str (e : exn) : string :=
  match e with
  | KeyError (StrKey k) => "'" +:+ k +:+ "'"
  | KeyError (IntKey k) => pretty k
  | UnboundLocalError v => "local variable '" +:+ v +:+ "' referenced before assignment"
  | AssertionError => ""
  | AttributeError m => m
  | TypeError m | Arcor2Exception m | RobotPoseException m
  | PersistentStorageException m => m
  | NotImplementedError => ""
  | QueueFull => ""
  end.

(** What a handler does to the world besides changing the globals. *)
Inductive effect :=
  | Logged (level : string) (msg : string)
  | Spawned (task : string)
  | DriverCalled (method : string) (target : string).

(** ** The globals of [server.py] *)
Record server := mkServer {
  SCENE : option Scene.t;
  PROJECT : option Project.t;
  OBJECT_TYPES : gmap string ObjectTypeMeta.t;
  SERVICE_TYPES : gmap string ServiceTypeMeta.t;
  ROBOT_META : gmap string RobotMeta.t;
  SCENE_OBJECT_INSTANCES : list (string * Generic.t);
  SERVICES_INSTANCES : list (string * Service.t);
  FOCUS_OBJECT : gmap string (list (Z * Pose));
  FOCUS_OBJECT_ROBOT : gmap string RobotArg.t;
  effects : list effect }.

Definition set_SCENE (v : option Scene.t) (s : server) : server :=
  mkServer v (PROJECT s) (OBJECT_TYPES s) (SERVICE_TYPES s) (ROBOT_META s)
    (SCENE_OBJECT_INSTANCES s) (SERVICES_INSTANCES s) (FOCUS_OBJECT s)
    (FOCUS_OBJECT_ROBOT s) (effects s).

Definition set_SCENE_OBJECT_INSTANCES (v : list (string * Generic.t)) (s : server) : server :=
  mkServer (SCENE s) (PROJECT s) (OBJECT_TYPES s) (SERVICE_TYPES s) (ROBOT_META s)
    v (SERVICES_INSTANCES s) (FOCUS_OBJECT s) (FOCUS_OBJECT_ROBOT s) (effects s).

Definition set_SERVICES_INSTANCES (v : list (string * Service.t)) (s : server) : server :=
  mkServer (SCENE s) (PROJECT s) (OBJECT_TYPES s) (SERVICE_TYPES s) (ROBOT_META s)
    (SCENE_OBJECT_INSTANCES s) v (FOCUS_OBJECT s) (FOCUS_OBJECT_ROBOT s) (effects s).

Definition set_FOCUS_OBJECT (v : gmap string (list (Z * Pose))) (s : server) : server :=
  mkServer (SCENE s) (PROJECT s) (OBJECT_TYPES s) (SERVICE_TYPES s) (ROBOT_META s)
    (SCENE_OBJECT_INSTANCES s) (SERVICES_INSTANCES s) v (FOCUS_OBJECT_ROBOT s) (effects s).

Definition set_FOCUS_OBJECT_ROBOT (v : gmap string RobotArg.t) (s : server) : server :=
  mkServer (SCENE s) (PROJECT s) (OBJECT_TYPES s) (SERVICE_TYPES s) (ROBOT_META s)
    (SCENE_OBJECT_INSTANCES s) (SERVICES_INSTANCES s) (FOCUS_OBJECT s) v (effects s).

Definition set_effects (v : list effect) (s : server) : server :=
  mkServer (SCENE s) (PROJECT s) (OBJECT_TYPES s) (SERVICE_TYPES s) (ROBOT_META s)
    (SCENE_OBJECT_INSTANCES s) (SERVICES_INSTANCES s) (FOCUS_OBJECT s)
    (FOCUS_OBJECT_ROBOT s) v.

(** ** Handler code: state first, then a value or an exception

    An exception does not undo what was assigned before it was raised. *)
Definition M (A : Type) : Type := server → server * result A.

#[global] Instance M_ret : MRet M := λ A a s, (s, Ok a).
#[global] Instance M_bind : MBind M := λ A B f m s,
  match m s with
  | (s', Ok a) => f a s'
  | (s', Raise e) => (s', Raise e)
  end.

Definition get_state : M server := λ s, (s, Ok s).
Definition modify (f : server → server) : M () := λ s, (f s, Ok ()).
Definition raise {A : Type} (e : exn) : M A := λ s, (s, Raise e).
Definition lift {A : Type} (r : result A) : M A := λ s, (s, r).
Definition emit (e : effect) : M () := modify (λ s, set_effects (effects s ++ [e]) s).
Definition log (level msg : string) : M () := emit (Logged level msg).

(** Two states that differ at most in the recorded effects. *)
Definition only_effects (s s' : server) : Prop := ∃ effs, s' = set_effects effs s.

(** [try: body except Arcor2Exception as e: handler(e)] *)
Definition try_except_arcor2 {A : Type} (body : M A) (handler : exn → M A) : M A := λ s,
  match body s with
  | (s', Ok a) => (s', Ok a)
  | (s', Raise e) =>
      match as_arcor2_exception e with
      | Some _ => handler e s'
      | None => (s', Raise e)
      end
  end.

(** [for x in l: body(x)] *)
Fixpoint for_ {A : Type} (body : A → M ()) (l : list A) : M () :=
  match l with
  | [] => mret ()
  | x :: l' => _ ← body x; for_ body l'
  end.

(** What a handler returns: a response payload ([None] is a bare success) or
    the pair [(False, message)]. *)
Inductive rpc_return (R : Type) :=
  | Success (r : R)
  | Failure (msg : string).
Arguments Success {R} r.
Arguments Failure {R} msg.

(** ** The guards *)

Definition scene_needed {R : Type} (coro : M (rpc_return R)) : M (rpc_return R) :=
  s ← get_state;
  match SCENE s with
  | None => mret (Failure "Scene not opened or has invalid id.")
  | Some scene =>
      if decide (Scene.id scene = "")
      then mret (Failure "Scene not opened or has invalid id.")
      else coro
  end.

Definition no_project {R : Type} (coro : M (rpc_return R)) : M (rpc_return R) :=
  s ← get_state;
  match PROJECT s with
  | Some _ => mret (Failure "Not available during project editing.")
  | None => coro
  end.

Definition project_needed {R : Type} (coro : M (rpc_return R)) : M (rpc_return R) :=
  s ← get_state;
  match PROJECT s with
  | None => mret (Failure "Project not opened or has invalid id.")
  | Some project =>
      if decide (Project.id project = "")
      then mret (Failure "Project not opened or has invalid id.")
      else coro
  end.

(** Modelled from the spec: [get_scene_object] of [arcor2.scene_utils], which
    is not part of the server: the first object of the scene with the given
    id, [None] standing for [SceneObjectNotFound]. *)
Definition get_scene_object (scene : Scene.t) (obj_id : string) : option SceneObject.t :=
  head (filter (λ o, SceneObject.id o = obj_id) (Scene.objects scene)).

(** [scene_object.pose = pose] for the object [get_scene_object] returned:
    the object is shared with [SCENE.objects]. *)
Fixpoint set_object_pose (objects : list SceneObject.t) (obj_id : string) (pose : Pose)
    : list SceneObject.t :=
  match objects with
  | [] => []
  | o :: objects' =>
      if decide (SceneObject.id o = obj_id)
      then SceneObject.mk (SceneObject.id o) (SceneObject.type o) pose :: objects'
      else o :: set_object_pose objects' obj_id pose
  end.

(** ** The registry *)

Section with_externals.
Context `{Externals}.

Definition find_robot_service (s : server) : option Service.t :=
  head (filter (λ srv, Service.is_robot_service srv = true)
               (odict.values (SERVICES_INSTANCES s))).

Definition collision (obj : Generic.t) (rs : option Service.t) (add remove : bool) : M () :=
  if negb (xorb add remove) then raise AssertionError
  else
    match Generic.collision_model obj with
    | None => mret ()
    | Some _ =>
        s ← get_state;
        match from_option Some (find_robot_service s) rs with
        | None => mret ()
        | Some r =>
            try_except_arcor2
              (_ ← emit (DriverCalled (if add then "add_collision" else "remove_collision")
                                      (Generic.id obj));
               lift ((if add then add_collision else remove_collision) r obj))
              (λ e, log "error" (exn_str e))
        end
    end.

Definition add_service_to_scene (srv : SceneService.t) : M (bool * string) :=
  s ← get_state;
  if decide (SceneService.type srv ∉ dom (SERVICE_TYPES s))
  then mret (false, "Unknown service type.")
  else if odict.mem (SERVICES_INSTANCES s) (SceneService.type srv)
  then mret (false, "Service already in scene.")
  else
    cls_def ← lift (load_service_type (SceneService.type srv));
    if ServiceClass.is_robot_service cls_def && bool_decide (is_Some (find_robot_service s))
    then mret (false, "Scene might contain only one robot service.")
    else
      made ← try_except_arcor2
                (srv_inst ← lift (new_service cls_def (SceneService.configuration_id srv));
                 mret (Some srv_inst))
                (λ e, _ ← log "error" (exn_str e); mret None);
      match made with
      | None => mret (false, "System error")
      | Some srv_inst =>
          _ ← modify (λ s, set_SERVICES_INSTANCES
                             (odict.set (SERVICES_INSTANCES s) (SceneService.type srv) srv_inst) s);
          _ ← (if Service.is_robot_service srv_inst then
                 _ ← log "info" "RobotService added, adding collision models to all objects.";
                 s' ← get_state;
                 for_ (λ obj_inst, collision obj_inst (Some srv_inst) true false)
                      (odict.values (SCENE_OBJECT_INSTANCES s'))
               else mret ());
          mret (true, "ok")
      end.

(** The loop over [get_type_hints(cls.__init__)]: the leading annotations
    that are services are looked up by name; [inl] names the first one that
    is not in [SERVICES_INSTANCES]. *)
Fixpoint resolve_srv_args (services : list (string * Service.t))
    (hints : list (string * bool)) : string + list Service.t :=
  match hints with
  | [] => inr []
  | (ttype, is_service) :: hints' =>
      if is_service then
        match odict.get services ttype with
        | None => inl ttype
        | Some srv =>
            match resolve_srv_args services hints' with
            | inl missing => inl missing
            | inr srv_args => inr (srv :: srv_args)
            end
        end
      else inr []
  end.

(** The body of the [try] statement of [add_object_to_scene]. *)
Definition create_instance (obj : SceneObject.t) (obj_meta : ObjectTypeMeta.t)
    (add_to_scene : bool) : M (bool * string) :=
  cls ← lift (if decide (SceneObject.type obj ∈ built_in_types_names)
              then get_built_in_type (SceneObject.type obj)
              else load_object_type (SceneObject.type obj));
  let coll_model := ObjectTypeMeta.object_model obj_meta ≫= ObjectModel.model in
  s ← get_state;
  made ← (if decide (ObjectTypeMeta.needs_services obj_meta = ∅) then
            obj_inst ← lift (new_object cls [] (SceneObject.id obj) (SceneObject.pose obj)
                                        coll_model);
            mret (inr obj_inst)
          else
            match resolve_srv_args (SERVICES_INSTANCES s) (ObjectClass.init_hints cls) with
            | inl ttype =>
                mret (inl (false, "Object type " +:+ SceneObject.type obj
                                  +:+ " has invalid typ annotation in the constructor, service "
                                  +:+ ttype +:+ " not available."))
            | inr srv_args =>
                match new_object cls srv_args (SceneObject.id obj) (SceneObject.pose obj)
                                 coll_model with
                | Raise (TypeError e) => mret (inl (false, "System error (" +:+ e +:+ ")."))
                | Raise e => raise e
                | Ok obj_inst => mret (inr obj_inst)
                end
            end);
  match made with
  | inl early => mret early
  | inr obj_inst =>
      _ ← modify (λ s, set_SCENE_OBJECT_INSTANCES
                         (odict.set (SCENE_OBJECT_INSTANCES s) (SceneObject.id obj) obj_inst) s);
      _ ← (if add_to_scene then
             s' ← get_state;
             match SCENE s' with
             | None => raise (AttributeError "objects")
             | Some scene =>
                 modify (set_SCENE (Some (Scene.mk (Scene.id scene)
                                                   (Scene.objects scene ++ [obj])
                                                   (Scene.services scene))))
             end
           else mret ());
      _ ← collision obj_inst None true false;
      mret (true, "ok")
  end.

(** The tests of [add_object_to_scene] on [needs_services], with the message
    of the one that fails: with [srv_obj_ok] the needed services have to be
    known service types and instantiated in the scene; without it a type
    that needs any service is refused. *)
Definition services_refusal (s : server) (obj_meta : ObjectTypeMeta.t) (srv_obj_ok : bool)
    : option string :=
  let needs_services := ObjectTypeMeta.needs_services obj_meta in
  if srv_obj_ok then
    if negb (bool_decide (needs_services ⊆ dom (SERVICE_TYPES s)))
    then Some "Some of required services is not available."
    else if negb (bool_decide (needs_services
                                 ⊆ list_to_set (odict.keys (SERVICES_INSTANCES s))))
    then Some "Some of required services is not in the scene."
    else None
  else if bool_decide (needs_services ≠ ∅)
  then Some "Service(s)-based object."
  else None.

Definition add_object_to_scene (obj : SceneObject.t) (add_to_scene srv_obj_ok : bool)
    : M (bool * string) :=
  s ← get_state;
  match SCENE s with
  | None => raise AssertionError
  | Some _ =>
      match OBJECT_TYPES s !! SceneObject.type obj with
      | None => mret (false, "Unknown object type.")
      | Some obj_meta =>
          match services_refusal s obj_meta srv_obj_ok with
          | Some msg => mret (false, msg)
          | None =>
              if ObjectTypeMeta.abstract obj_meta
              then mret (false, "Cannot instantiate abstract type.")
              else if odict.mem (SCENE_OBJECT_INSTANCES s) (SceneObject.id obj)
                      || odict.mem (SERVICES_INSTANCES s) (SceneObject.id obj)
              then mret (false, "Object/service with that id already exists.")
              else if negb (is_valid_identifier (SceneObject.id obj))
              then mret (false, "Object ID invalid (should be snake_case).")
              else
                _ ← log "debug" ("Creating instance " +:+ SceneObject.id obj +:+ " ("
                                 +:+ SceneObject.type obj +:+ ").");
                try_except_arcor2
                  (create_instance obj obj_meta add_to_scene)
                  (λ e, _ ← log "error" (exn_str e); mret (false, "System error"))
          end
      end
  end.

(** [SCENE.x] on the global: [AttributeError] when [SCENE] is [None]. *)
Definition current_scene : M Scene.t :=
  s ← get_state;
  match SCENE s with
  | None => raise (AttributeError "NoneType")
  | Some scene => mret scene
  end.

(** [res, msg = await call; if not res: await logger.error(msg)] *)
Definition log_unless_ok (call : M (bool * string)) : M () :=
  call ≫= λ r : bool * string,
  if r.1 then mret () else log "error" r.2.

Definition open_scene (scene_id : string) : M () :=
  loaded ← lift (get_scene scene_id);
  _ ← modify (set_SCENE (Some loaded));
  scene ← current_scene;
  _ ← for_ (λ srv, log_unless_ok (add_service_to_scene srv)) (Scene.services scene);
  scene ← current_scene;
  _ ← for_ (λ obj, log_unless_ok (add_object_to_scene obj false true))
           (Scene.objects scene);
  scene ← current_scene;
  s ← get_state;
  if negb (bool_decide (list_to_set (SceneService.type <$> Scene.services scene)
                        =@{gset string} list_to_set (odict.keys (SERVICES_INSTANCES s))))
  then raise AssertionError
  else if negb (bool_decide (list_to_set (SceneObject.id <$> Scene.objects scene)
                             =@{gset string} list_to_set (odict.keys (SCENE_OBJECT_INSTANCES s))))
  then raise AssertionError
  else emit (Spawned "notify_scene_change_to_others").

End with_externals.

(** ** Robot queries *)

Section robots.
Context `{Externals}.

(** A string argument is used when it is given and not empty. *)
Definition given (arg : option string) : option string :=
  match arg with
  | Some "" => None
  | _ => arg
  end.

(** The result is a [Robot] object instance or the scene's [RobotService]. *)
Definition get_robot_instance (robot_id : string) (end_effector_id : option string)
    : M (Generic.t + Service.t) :=
  s ← get_state;
  match odict.get (SCENE_OBJECT_INSTANCES s) robot_id with
  | Some robot_inst =>
      if negb (Generic.is_robot robot_inst) then raise (Arcor2Exception "Not a robot.")
      else
        match given end_effector_id with
        | None => mret (inl robot_inst)
        | Some ee =>
            _ ← emit (DriverCalled "get_end_effectors_ids" robot_id);
            ids ← lift (robot_end_effectors_ids robot_inst);
            if decide (ee ∈ ids) then mret (inl robot_inst)
            else raise (Arcor2Exception "Unknown end effector ID.")
        end
  | None =>
      match find_robot_service s with
      | None => raise (Arcor2Exception "Unknown robot ID.")
      | Some robot_srv_inst =>
          _ ← emit (DriverCalled "get_robot_ids" robot_id);
          robots ← lift (service_robot_ids robot_srv_inst);
          if decide (robot_id ∈ robots) then
            match given end_effector_id with
            | None => mret (inr robot_srv_inst)
            | Some ee =>
                _ ← emit (DriverCalled "get_end_effectors_ids" robot_id);
                ids ← lift (service_end_effectors_ids robot_srv_inst robot_id);
                if decide (ee ∈ ids) then mret (inr robot_srv_inst)
                else raise (Arcor2Exception "Unknown end effector ID.")
            end
          else raise (Arcor2Exception "Unknown robot ID.")
      end
  end.

(** [except NotImplementedError: raise RobotPoseException(msg)] *)
Definition not_implemented_as {A : Type} (msg : string) (r : result A) : result A :=
  match r with
  | Raise NotImplementedError => Raise (RobotPoseException msg)
  | _ => r
  end.

Definition get_end_effector_pose (robot_id end_effector : string) : M Pose :=
  robot_inst ← get_robot_instance robot_id (Some end_effector);
  _ ← emit (DriverCalled "get_end_effector_pose" robot_id);
  match robot_inst with
  | inl robot =>
      lift (not_implemented_as "The robot does not support getting pose."
              (robot_end_effector_pose robot end_effector))
  | inr service =>
      lift (not_implemented_as "The robot does not support getting pose."
              (service_end_effector_pose service robot_id end_effector))
  end.

(** [try: body except RobotPoseException as e: handler(e)] *)
Definition try_except_robot_pose {A : Type} (body : M A) (handler : string → M A) : M A :=
  λ s,
  match body s with
  | (s', Raise (RobotPoseException msg)) => handler msg s'
  | other => other
  end.

(** ** [update_action_object_cb] *)

Definition update_action_object_cb (id : string) (robot : RobotArg.t) : M (rpc_return ()) :=
  scene_needed (no_project (
    s ← get_state;
    match SCENE s with
    | None => raise AssertionError
    | Some scene =>
        if decide (id = RobotArg.robot_id robot)
        then mret (Failure "Robot cannot update its own pose.")
        else
          match get_scene_object scene id with
          | None => mret (Failure "Invalid action object.")
          | Some scene_object =>
              failed ← try_except_robot_pose
                (pose ← get_end_effector_pose (RobotArg.robot_id robot)
                                              (RobotArg.end_effector robot);
                 scene' ← current_scene;
                 _ ← modify (set_SCENE (Some (Scene.mk (Scene.id scene')
                                (set_object_pose (Scene.objects scene')
                                                 (SceneObject.id scene_object) pose)
                                (Scene.services scene'))));
                 mret None)
                (λ msg, mret (Some msg));
              match failed with
              | Some msg => mret (Failure msg)
              | None =>
                  _ ← emit (Spawned "notify_scene_change_to_others");
                  mret (Success ())
              end
          end
    end)).

(** ** Focus calibration *)

Definition get_obj_type_name (object_id : string) : M string :=
  s ← get_state;
  match odict.get (SCENE_OBJECT_INSTANCES s) object_id with
  | None => raise (KeyError (StrKey object_id))
  | Some inst => mret (Generic.class_name inst)
  end.

Definition instance_class_name (inst : Generic.t + Service.t) : string :=
  match inst with
  | inl robot => Generic.class_name robot
  | inr service => Service.class_name service
  end.

Definition focus_object_start_cb (object_id : string) (robot : RobotArg.t)
    : M (rpc_return ()) :=
  scene_needed (no_project (
    s ← get_state;
    if decide (object_id ∈ dom (FOCUS_OBJECT_ROBOT s))
    then mret (Failure "Focusing already started.")
    else if negb (odict.mem (SCENE_OBJECT_INSTANCES s) object_id)
    then mret (Failure "Unknown object.")
    else
      found ← try_except_arcor2
                 (inst ← get_robot_instance (RobotArg.robot_id robot)
                                            (Some (RobotArg.end_effector robot));
                  mret (inr inst))
                 (λ e, mret (inl (exn_str e)));
      match found with
      | inl msg => mret (Failure msg)
      | inr inst =>
          s ← get_state;
          meta ← lift (getitem (ROBOT_META s) (instance_class_name inst));
          if negb (RobotMeta.features_focus meta)
          then mret (Failure "Robot/service does not support focusing.")
          else
            name ← get_obj_type_name object_id;
            obj_type ← lift (getitem (OBJECT_TYPES s) name);
            match ObjectTypeMeta.object_model obj_type with
            | None => mret (Failure "Only available for objects with mesh model.")
            | Some object_model =>
                if decide (ObjectModel.type object_model ≠ MESH)
                then mret (Failure "Only available for objects with mesh model.")
                else
                  match ObjectModel.mesh object_model with
                  | None => raise AssertionError
                  | Some mesh =>
                      match Mesh.focus_points mesh with
                      | [] => mret (Failure "focusPoints not defined for the mesh.")
                      | _ :: _ =>
                          _ ← modify (λ s, set_FOCUS_OBJECT_ROBOT
                                             (<[object_id := robot]> (FOCUS_OBJECT_ROBOT s)) s);
                          _ ← modify (λ s, set_FOCUS_OBJECT
                                             (<[object_id := []]> (FOCUS_OBJECT s)) s);
                          _ ← log "info" ("Start of focusing for " +:+ object_id +:+ ".");
                          mret (Success ())
                      end
                  end
            end
      end)).

(** The response carries [finished_indexes]. *)
Definition focus_object_cb (object_id : string) (point_idx : Z) : M (rpc_return (list Z)) :=
  no_project (
    s ← get_state;
    if negb (odict.mem (SCENE_OBJECT_INSTANCES s) object_id)
    then mret (Failure "Unknown object_id.")
    else
      name ← get_obj_type_name object_id;
      obj_type ← lift (getitem (OBJECT_TYPES s) name);
      match ObjectTypeMeta.object_model obj_type ≫= ObjectModel.mesh with
      | None => raise AssertionError
      | Some mesh =>
          match Mesh.focus_points mesh with
          | [] => raise AssertionError
          | focus_points =>
              if decide (point_idx < 0 ∨ point_idx > Z.of_nat (length focus_points) - 1)%Z
              then mret (Failure "Index out of range.")
              else
                _ ← (if decide (object_id ∈ dom (FOCUS_OBJECT s)) then mret ()
                     else
                       _ ← log "info" ("Start of focusing for " +:+ object_id +:+ ".");
                       modify (λ s, set_FOCUS_OBJECT (<[object_id := []]> (FOCUS_OBJECT s)) s));
                s ← get_state;
                robot ← lift (getitem (FOCUS_OBJECT_ROBOT s) object_id);
                pose ← get_end_effector_pose (RobotArg.as_tuple robot).1
                                             (RobotArg.as_tuple robot).2;
                s ← get_state;
                points ← lift (getitem (FOCUS_OBJECT s) object_id);
                _ ← modify (λ s, set_FOCUS_OBJECT
                                   (<[object_id := odict.set points point_idx pose]>
                                      (FOCUS_OBJECT s)) s);
                mret (Success (odict.keys (odict.set points point_idx pose)))
          end
      end).

Definition clean_up_after_focus (obj_id : string) : M () :=
  _ ← modify (λ s, set_FOCUS_OBJECT (delete obj_id (FOCUS_OBJECT s)) s);
  modify (λ s, set_FOCUS_OBJECT_ROBOT (delete obj_id (FOCUS_OBJECT_ROBOT s)) s).

(** A robot is recorded only for objects that have a point dictionary. *)
Definition sessions_ok (s : server) : Prop :=
  dom (FOCUS_OBJECT_ROBOT s) ⊆ dom (FOCUS_OBJECT s).

End robots.

(** ** The handlers that edit the scene *)

(** [del d[k]] *)
Definition odict_del {K V : Type} `{EqDecision K} (d : list (K * V)) (k : K)
    : list (K * V) :=
  filter (λ kv, kv.1 ≠ k) d.

Definition set_PROJECT (v : option Project.t) (s : server) : server :=
  mkServer (SCENE s) v (OBJECT_TYPES s) (SERVICE_TYPES s) (ROBOT_META s)
    (SCENE_OBJECT_INSTANCES s) (SERVICES_INSTANCES s) (FOCUS_OBJECT s)
    (FOCUS_OBJECT_ROBOT s) (effects s).

Section scene_handlers.
Context `{Externals}.

(** [if not res: return res, msg], then the notification and
    [return None]. *)
Definition answer (r : bool * string) : M (rpc_return ()) :=
  if r.1 then
    _ ← emit (Spawned "notify_scene_change_to_others");
    mret (Success ())
  else mret (Failure r.2).

Definition add_object_to_scene_cb (obj : SceneObject.t) : M (rpc_return ()) :=
  scene_needed (no_project (add_object_to_scene obj true false ≫= answer)).

Definition add_service_to_scene_cb (srv : SceneService.t) : M (rpc_return ()) :=
  scene_needed (no_project (
    s ← get_state;
    match SCENE s with
    | None => raise AssertionError
    | Some _ =>
        add_service_to_scene srv ≫= λ r : bool * string,
        if r.1 then
          scene ← current_scene;
          _ ← modify (set_SCENE (Some (Scene.mk (Scene.id scene) (Scene.objects scene)
                                                (Scene.services scene ++ [srv]))));
          _ ← emit (Spawned "notify_scene_change_to_others");
          mret (Success ())
        else mret (Failure r.2)
    end)).

(** The loop of [remove_from_scene_cb] over [SCENE.objects]: the message for
    the first object whose type needs the service, [KeyError] for an object
    of an unknown type met before one. *)
Fixpoint service_user (object_types : gmap string ObjectTypeMeta.t) (id : string)
    (objects : list SceneObject.t) : result (option string) :=
  match objects with
  | [] => Ok None
  | obj :: objects' =>
      meta ← getitem object_types (SceneObject.type obj);
      if decide (id ∈ ObjectTypeMeta.needs_services meta)
      then Ok (Some ("Object " +:+ SceneObject.id obj +:+ " (" +:+ SceneObject.type obj
                     +:+ ") relies on the service to be removed: " +:+ id +:+ "."))
      else service_user object_types id objects'
  end.

Definition remove_from_scene_cb (id : string) : M (rpc_return ()) :=
  scene_needed (no_project (
    s ← get_state;
    match SCENE s with
    | None => raise AssertionError
    | Some scene =>
        removed ←
          match odict.get (SCENE_OBJECT_INSTANCES s) id with
          | Some obj_inst =>
              _ ← modify (set_SCENE (Some (Scene.mk (Scene.id scene)
                            (filter (λ obj, SceneObject.id obj ≠ id) (Scene.objects scene))
                            (Scene.services scene))));
              _ ← collision obj_inst None false true;
              _ ← modify (λ s, set_SCENE_OBJECT_INSTANCES
                                 (odict_del (SCENE_OBJECT_INSTANCES s) id) s);
              mret None
          | None =>
              if odict.mem (SERVICES_INSTANCES s) id then
                user ← lift (service_user (OBJECT_TYPES s) id (Scene.objects scene));
                match user with
                | Some msg => mret (Some msg)
                | None =>
                    _ ← modify (set_SCENE (Some (Scene.mk (Scene.id scene)
                                  (Scene.objects scene)
                                  (filter (λ srv, SceneService.type srv ≠ id)
                                          (Scene.services scene)))));
                    _ ← modify (λ s, set_SERVICES_INSTANCES
                                       (odict_del (SERVICES_INSTANCES s) id) s);
                    mret None
                end
              else mret (Some "Unknown id.")
          end;
        match removed with
        | Some msg => mret (Failure msg)
        | None =>
            _ ← emit (Spawned ("remove_object_references_from_projects " +:+ id));
            _ ← emit (Spawned "notify_scene_change_to_others");
            mret (Success ())
        end
    end)).

Definition open_scene_cb (scene_id : string) : M (rpc_return ()) :=
  no_project (_ ← open_scene scene_id; mret (Success ())).

End scene_handlers.

(** ** Projects in storage *)

(** [storage.get_projects] (the ids of the items it lists) and
    [storage.get_project]. *)
Class Storage := {
  get_projects : result (list string);
  get_project : string → result Project.t }.

Section projects.
Context `{Externals} `{Storage} `{Parsers}.

Definition open_project (project_id : string) : M () :=
  project ← lift (get_project project_id);
  _ ← modify (set_PROJECT (Some project));
  _ ← open_scene (Project.scene_id project);
  emit (Spawned "notify_project_change_to_others").

Definition open_project_cb (project_id : string) : M (rpc_return ()) :=
  _ ← open_project project_id;
  mret (Success ()).

(** The generator [projects_using_object], as the list of the projects it
    yields when it runs to its end; an exception raised on the way ends the
    loop of its consumer as well.  The [break] after a match on an action
    leaves the loop over the actions of one action point only, so a project
    can be yielded more than once. *)
Fixpoint yields_of_actions (project : Project.t) (obj_id : string)
    (actions : list Action.t) : result (list Project.t) :=
  match actions with
  | [] => Ok []
  | action :: actions' =>
      parsed ← parse_type action;
      if decide (parsed.1 = obj_id) then Ok [project]
      else yields_of_actions project obj_id actions'
  end.

Fixpoint yields_of_action_points (project : Project.t) (obj_id : string)
    (aps : list ActionPoint.t) : result (list Project.t) :=
  match aps with
  | [] => Ok []
  | ap :: aps' =>
      yielded ← yields_of_actions project obj_id (ActionPoint.actions ap);
      yielded' ← yields_of_action_points project obj_id aps';
      Ok (yielded ++ yielded')
  end.

Fixpoint yields_of_objects (project : Project.t) (obj_id : string)
    (objects : list ProjectObject.t) : result (list Project.t) :=
  match objects with
  | [] => Ok []
  | obj :: objects' =>
      if decide (ProjectObject.id obj = obj_id) then Ok [project]
      else
        yielded ← yields_of_action_points project obj_id (ProjectObject.action_points obj);
        yielded' ← yields_of_objects project obj_id objects';
        Ok (yielded ++ yielded')
  end.

Fixpoint yields_of_projects (scene_id obj_id : string) (ids : list string)
    : result (list Project.t) :=
  match ids with
  | [] => Ok []
  | project_id :: ids' =>
      project ← get_project project_id;
      yielded ← (if decide (Project.scene_id project ≠ scene_id) then Ok []
                 else yields_of_objects project obj_id (Project.objects project));
      yielded' ← yields_of_projects scene_id obj_id ids';
      Ok (yielded ++ yielded')
  end.

Definition projects_using_object (scene_id obj_id : string) : result (list Project.t) :=
  id_list ← get_projects;
  yields_of_projects scene_id obj_id id_list.

(** The response carries the set of project ids. *)
Definition scene_object_usage_request_cb (id : string) : M (rpc_return (gset string)) :=
  scene_needed (
    s ← get_state;
    match SCENE s with
    | None => raise AssertionError
    | Some scene =>
        if negb (existsb (λ obj, bool_decide (SceneObject.id obj = id)) (Scene.objects scene)
                 || existsb (λ srv, bool_decide (SceneService.type srv = id))
                            (Scene.services scene))
        then mret (Failure "Unknown ID.")
        else
          projects ← lift (projects_using_object (Scene.id scene) id);
          mret (Success (list_to_set (Project.id <$> projects)))
    end).

End projects.

(** ** Scene changes sent by a user interface *)

(** What [scene_change] sends before it returns: the scene of the server
    back to the interface the change came from ([notify_scene]), or the
    scene to every other interface ([notify_scene_change_to_others]). *)
Inductive sent :=
  | ToInterface (ui : nat) (scene : option Scene.t)
  | ToOthers (ui : nat) (scene : option Scene.t).

Section changes.
Context `{Externals}.

Definition scene_change (ui : nat) (data : option Scene.t) : M (list sent) :=
  s ← get_state;
  match PROJECT s with
  | Some _ =>
      _ ← log "warning" "Scene changes not allowed when editing project.";
      mret []
  | None =>
      refused ←
        match data with
        | Some scene =>
            if negb (forallb (λ srv, odict.mem (SERVICES_INSTANCES s) (SceneService.type srv))
                             (Scene.services scene))
            then
              _ ← log "warning" "Ignoring scene changes: service added.";
              mret true
            else if negb (forallb (λ obj, odict.mem (SCENE_OBJECT_INSTANCES s)
                                                    (SceneObject.id obj))
                                  (Scene.objects scene))
            then
              _ ← log "warning" "Ignoring scene changes: object added.";
              mret true
            else mret false
        | None =>
            _ ← log "info" "Clearing the scene.";
            _ ← match find_robot_service s with
                | Some rs =>
                    for_ (λ obj_inst, collision obj_inst (Some rs) false true)
                         (odict.values (SCENE_OBJECT_INSTANCES s))
                | None => mret ()
                end;
            _ ← modify (set_SCENE_OBJECT_INSTANCES []);
            _ ← modify (set_SERVICES_INSTANCES []);
            mret false
        end;
      if refused : bool then mret [ToInterface ui (SCENE s)]
      else
        _ ← modify (set_SCENE data);
        mret [ToOthers ui data]
  end.

End changes.

(** ** Predicates the properties are stated with *)

(** A pass of the sender loop in which nothing else happens: the receiver
    is alive, no other task puts a request and the send goes through. *)
Definition undisturbed (p : Bridge.pass) : Prop :=
  Bridge.receiver_done p = false ∧ Bridge.put_while_waiting p = []
  ∧ Bridge.send_closed p = false ∧ Bridge.put_while_sending p = [].

(** The requests other tasks put into the queue during a pass: none when the
    loop ends at once because the receiver has finished; otherwise those put
    during the wait and, when a request was taken, those put during the
    send. *)
Definition pass_puts (queue : list Request.t) (p : Bridge.pass) : list Request.t :=
  if Bridge.receiver_done p then []
  else match queue ++ Bridge.put_while_waiting p with
       | [] => []
       | _ :: _ => Bridge.put_while_waiting p ++ Bridge.put_while_sending p
       end.

(** The requests put during the passes that one connection runs, up to the
    pass that ends its loop. *)
Fixpoint loop_puts (queue : list Request.t) (passes : list Bridge.pass)
    : list Request.t :=
  match passes with
  | [] => []
  | p :: passes' =>
      match Bridge.sender_pass queue p with
      | (_, _, Bridge.Break) => pass_puts queue p
      | (queue', _, Bridge.Continue) => pass_puts queue p ++ loop_puts queue' passes'
      end
  end.

(** The requests put while the client runs: during each refused attempt and
    during the passes of each connection. *)
Fixpoint client_puts (queue : list Request.t) (attempts : list Bridge.attempt)
    : list Request.t :=
  match attempts with
  | [] => []
  | Bridge.Refused more :: attempts' => more ++ client_puts (queue ++ more) attempts'
  | Bridge.Connected passes :: attempts' =>
      loop_puts queue passes
      ++ client_puts (Bridge.sender_loop queue passes).1 attempts'
  end.

(** What [@scene_needed] and [@no_project] let through: a scene with an id
    is open and no project is. *)
Definition editable (s : server) : Prop :=
  (∃ scene, SCENE s = Some scene ∧ Scene.id scene ≠ "") ∧ PROJECT s = None.

(** The globals after an instance has been registered for [obj] and [obj]
    has been appended to the scene when [add_to_scene] is set. *)
Definition with_object (obj : SceneObject.t) (obj_inst : Generic.t) (add_to_scene : bool)
    (s : server) : server :=
  let s1 := set_SCENE_OBJECT_INSTANCES
              (odict.set (SCENE_OBJECT_INSTANCES s) (SceneObject.id obj) obj_inst) s in
  if add_to_scene then
    match SCENE s with
    | Some scene => set_SCENE (Some (Scene.mk (Scene.id scene) (Scene.objects scene ++ [obj])
                                              (Scene.services scene))) s1
    | None => s1
    end
  else s1.

(** The robot services among the registered services. *)
Definition robot_services (s : server) : list Service.t :=
  filter (λ srv, Service.is_robot_service srv = true) (odict.values (SERVICES_INSTANCES s)).

(** The registries hold an instance for every object and service of the
    open scene and for nothing else. *)
Definition registry_matches (s : server) : Prop :=
  ∃ scene, SCENE s = Some scene
    ∧ list_to_set (odict.keys (SCENE_OBJECT_INSTANCES s))
      =@{gset string} list_to_set (SceneObject.id <$> Scene.objects scene)
    ∧ list_to_set (odict.keys (SERVICES_INSTANCES s))
      =@{gset string} list_to_set (SceneService.type <$> Scene.services scene).

(** Every object and service that [scene] names has an instance. *)
Definition names_registered (s : server) (scene : Scene.t) : Prop :=
  (∀ obj, obj ∈ Scene.objects scene →
     SceneObject.id obj ∈ odict.keys (SCENE_OBJECT_INSTANCES s))
  ∧ (∀ srv, srv ∈ Scene.services scene →
       SceneService.type srv ∈ odict.keys (SERVICES_INSTANCES s)).

(** Every object and service of the open scene has an instance. *)
Definition scene_within_registry (s : server) : Prop :=
  ∀ scene, SCENE s = Some scene → names_registered s scene.

(** [s'] has the scene, the project and the focus sessions of [s], and an
    instance under every key of the registries of [s]. *)
Definition extends (s s' : server) : Prop :=
  SCENE s' = SCENE s ∧ PROJECT s' = PROJECT s
  ∧ FOCUS_OBJECT s' = FOCUS_OBJECT s ∧ FOCUS_OBJECT_ROBOT s' = FOCUS_OBJECT_ROBOT s
  ∧ odict.keys (SCENE_OBJECT_INSTANCES s) ⊆ odict.keys (SCENE_OBJECT_INSTANCES s')
  ∧ odict.keys (SERVICES_INSTANCES s) ⊆ odict.keys (SERVICES_INSTANCES s').

Section handled.
Context `{Externals}.

(** An instance made by the constructor of a class is a robot service
    exactly when the class derives from [RobotService]. *)
Definition constructors_coherent : Prop :=
  ∀ cls cfg inst, new_service cls cfg = Ok inst →
    Service.is_robot_service inst = ServiceClass.is_robot_service cls.

(** One request answered by a handler of the scene: the handler returned,
    with a response or with a refusal. *)
Inductive handled : server → server → Prop :=
  | handled_open_scene scene_id s s' r :
      open_scene_cb scene_id s = (s', Ok r) → handled s s'
  | handled_add_object obj s s' r :
      add_object_to_scene_cb obj s = (s', Ok r) → handled s s'
  | handled_add_service srv s s' r :
      add_service_to_scene_cb srv s = (s', Ok r) → handled s s'
  | handled_remove id s s' r :
      remove_from_scene_cb id s = (s', Ok r) → handled s s'
  | handled_update_pose id robot s s' r :
      update_action_object_cb id robot s = (s', Ok r) → handled s s'
  | handled_focus_start object_id robot s s' r :
      focus_object_start_cb object_id robot s = (s', Ok r) → handled s s'
  | handled_focus object_id point_idx s s' r :
      focus_object_cb object_id point_idx s = (s', Ok r) → handled s s'.

End handled.

Section uses.
Context `{Parsers}.

(** The project has an object with the id, or an action whose type names
    the id as its target. *)
Definition uses (project : Project.t) (obj_id : string) : Prop :=
  (∃ obj, obj ∈ Project.objects project ∧ ProjectObject.id obj = obj_id)
  ∨ (∃ obj ap action name,
       obj ∈ Project.objects project ∧ ap ∈ ProjectObject.action_points obj
       ∧ action ∈ ActionPoint.actions ap ∧ parse_type action = Ok (obj_id, name)).

End uses.

(** ** Sample data used by the examples below *)

Module Samples.

(** [s.split(sep)] of Python on a one-character separator. *)
Fixpoint split (sep : ascii) (s : string) : list string :=
  match s with
  | EmptyString => [EmptyString]
  | String c s' =>
      if decide (c = sep) then EmptyString :: split sep s'
      else match split sep s' with
           | [] => [String c EmptyString]
           | h :: t => String c h :: t
           end
  end.

(** Modelled from the spec: the bodies of [Action.parse_type] and
    [ActionParameter.parse_id] (declared in [arcor2.data.common], which is
    not part of the server).  The spec says that an action's type string
    encodes the target id and the action name and that a POSE or JOINTS value
    must parse as owner object id, action point id and value id; the
    separators, a slash and a dot, are those of the sample data below. *)
Definition sample_parsers : Parsers := {|
  parse_type a :=
    match split "/"%char (Action.type a) with
    | [obj_id; name] => Ok (obj_id, name)
    | _ => Raise (Arcor2Exception ("Action: " +:+ Action.id a +:+ " has invalid type: "
                                   +:+ Action.type a +:+ "."))
    end;
  parse_id p :=
    match split "."%char (ActionParameter.value p) with
    | [obj_id; ap_id; value_id] => Ok (obj_id, ap_id, value_id)
    | _ => Raise (Arcor2Exception ("Parameter: " +:+ ActionParameter.id p
                                   +:+ " has invalid value: "
                                   +:+ ActionParameter.value p +:+ "."))
    end |}.

Definition origin : Pose := mkPose (mkPosition 0 0 0) (mkOrientation 0 0 0 1).

Definition box_scene : Scene.t :=
  Scene.mk "scene1" [SceneObject.mk "box1" "Box" origin] [].

Definition box_actions : gmap string (list ObjectAction.t) :=
  {[ "Box" := [ObjectAction.mk "pick" [];
               ObjectAction.mk "place" [ActionArg.mk "where" POSE]] ]}.

Definition pick (id : string) : Action.t :=
  Action.mk id "box1/pick" [] [] [].

Definition place (id : string) : Action.t :=
  Action.mk id "box1/place" [ActionParameter.mk "where" POSE "box1.ap1.o1"] [] [].

(** Two actions of one action point share the id [a1]. *)
Definition twin_project : Project.t :=
  Project.mk "project1" "scene1"
    [ProjectObject.mk "box1"
       [ActionPoint.mk "ap1" (mkPosition 0 0 0) [] [] [pick "a1"; pick "a1"]]].

(** No action at all, and one set of joints that is no longer valid. *)
Definition stale_project : Project.t :=
  Project.mk "project1" "scene1"
    [ProjectObject.mk "box1"
       [ActionPoint.mk "ap1" (mkPosition 0 0 0) []
          [RobotJoints.mk "j1" "robot1" [("joint1", 0%Z)] false] []]].

Definition tidy_project : Project.t :=
  Project.mk "project1" "scene1"
    [ProjectObject.mk "box1"
       [ActionPoint.mk "ap1" (mkPosition 0 0 0) []
          [RobotJoints.mk "j1" "robot1" [("joint1", 0%Z)] true]
          [pick "a1"; place "a2"]]].

(** The bridge: two requests, and a pass in which the send fails. *)
Definition run_request : Request.t := Request.mk 1 "runProject" "project1".
Definition stop_request : Request.t := Request.mk 2 "stopProject" "".
Definition run_response : Response.t := Response.mk 1 "runProject" true [] "".

Definition closed_pass : Bridge.pass := Bridge.mkPass false [] true [].
Definition quiet_pass : Bridge.pass := Bridge.mkPass false [] false [].

Definition idle_bridge : Bridge.state := Bridge.mkState [] ∅.

(** The hub: a serializer and an event. *)
Definition sample_to_json (e : Event.t) : string :=
  "{event: " +:+ Event.event e +:+ ", data: " +:+ Event.data e +:+ "}".

Definition scene_changed : Event.t := Event.mk "SceneChanged" "scene1".

(** The registry: a work cell with a box, a gripper that needs the robot
    service, and the robot service. *)
Definition tool_pose : Pose := mkPose (mkPosition 10 20 30) (mkOrientation 0 0 0 1).

Definition box_mesh : Mesh.t := Mesh.mk "box_mesh" [origin; tool_pose].

Definition box_meta : ObjectTypeMeta.t :=
  ObjectTypeMeta.mk "Box" "Generic" false ∅
    (Some (ObjectModel.mk MESH None None None (Some box_mesh))) "A box." false.

Definition gripper_meta : ObjectTypeMeta.t :=
  ObjectTypeMeta.mk "Gripper" "Generic" false {[ "RobotSvc" ]} None "A gripper." false.

Definition cell_scene : Scene.t :=
  Scene.mk "scene1"
    [SceneObject.mk "box1" "Box" origin; SceneObject.mk "gripper1" "Gripper" origin]
    [SceneService.mk "RobotSvc" "cfg1"].

(** A test double for the collaborators: every class loads, every
    constructor and driver call succeeds, and the robot service knows the
    robot [arm1] with the end effector [tool0]. *)
Definition sample_externals : Externals := {|
  is_valid_identifier name := bool_decide (name ≠ "");
  built_in_types_names := {[ "Generic" ]};
  get_built_in_type name := Ok (ObjectClass.mk name [("str", false)] false);
  load_object_type name :=
    Ok (ObjectClass.mk name
          (if decide (name = "Gripper") then [("RobotSvc", true); ("str", false)]
           else [("str", false)])
          false);
  load_service_type name := Ok (ServiceClass.mk name (bool_decide (name = "RobotSvc")));
  get_scene scene_id :=
    if decide (scene_id = "scene1") then Ok cell_scene
    else if decide (scene_id = "scene2") then Ok (Scene.mk "scene2" [] [])
    else Raise (PersistentStorageException "Scene not found.");
  new_object cls srv_args id pose model :=
    Ok (Generic.mk (ObjectClass.name cls) id pose model (ObjectClass.is_robot cls));
  new_service cls configuration_id :=
    Ok (Service.mk (ServiceClass.name cls) configuration_id
                   (ServiceClass.is_robot_service cls));
  add_collision _ _ := Ok ();
  remove_collision _ _ := Ok ();
  robot_end_effectors_ids _ := Ok ["tool0"];
  service_robot_ids _ := Ok ["arm1"];
  service_end_effectors_ids _ _ := Ok ["tool0"];
  robot_end_effector_pose _ _ := Ok tool_pose;
  service_end_effector_pose _ _ _ := Ok tool_pose |}.

(** The server after start-up: the catalogue is loaded, nothing is open. *)
Definition fresh_server : server :=
  mkServer None None
    {[ "Box" := box_meta; "Gripper" := gripper_meta ]}
    {[ "RobotSvc" := ServiceTypeMeta.mk "RobotSvc" "The robot service." ]}
    {[ "RobotSvc" := RobotMeta.mk "RobotSvc" true ]}
    [] [] ∅ ∅ [].

(** A scene with the box only is open; the robot service is not in it. *)
Definition box_only_server : server :=
  mkServer (Some box_scene) None
    {[ "Box" := box_meta; "Gripper" := gripper_meta ]}
    {[ "RobotSvc" := ServiceTypeMeta.mk "RobotSvc" "The robot service." ]}
    {[ "RobotSvc" := RobotMeta.mk "RobotSvc" true ]}
    [("box1", Generic.mk "Box" "box1" origin (Some (MeshModel box_mesh)) false)]
    [] ∅ ∅ [].

(** The server after [scene1] has been opened from the fresh state. *)
Definition cell_server : server :=
  (@open_scene sample_externals "scene1" fresh_server).1.

(** A focus session on [box1] with the robot [arm1] ... *)
Definition focusing_server : server :=
  (@focus_object_start_cb sample_externals "box1" (RobotArg.mk "arm1" "tool0")
     cell_server).1.

(** ... in which the point with index 1 has been captured. *)
Definition point_1_server : server :=
  (@focus_object_cb sample_externals "box1" 1 focusing_server).1.

(** More of the work cell: a second box, the robot service as the scene
    names it, and the robot arm with its end effector. *)
Definition box2 : SceneObject.t := SceneObject.mk "box2" "Box" origin.

Definition robot_service : SceneService.t := SceneService.mk "RobotSvc" "cfg1".

Definition arm : RobotArg.t := RobotArg.mk "arm1" "tool0".

(** Storage holds [tidy_project], which is on [scene1], and a project whose
    scene is not in storage. *)
Definition lost_project : Project.t := Project.mk "project2" "scene9" [].

Definition sample_storage : Storage := {|
  get_projects := Ok ["project1"; "project2"];
  get_project project_id :=
    if decide (project_id = "project1") then Ok tidy_project
    else if decide (project_id = "project2") then Ok lost_project
    else Raise (PersistentStorageException "Project not found.") |}.

(** A cell that is offered two robot service types: the collaborators load
    [RobotSvc2] as a robot service as well, and the catalogue lists it. *)
Definition two_robot_externals : Externals := {|
  is_valid_identifier := @is_valid_identifier sample_externals;
  built_in_types_names := @built_in_types_names sample_externals;
  get_built_in_type := @get_built_in_type sample_externals;
  load_object_type := @load_object_type sample_externals;
  load_service_type name :=
    Ok (ServiceClass.mk name (bool_decide (name = "RobotSvc" ∨ name = "RobotSvc2")));
  get_scene := @get_scene sample_externals;
  new_object := @new_object sample_externals;
  new_service := @new_service sample_externals;
  add_collision := @add_collision sample_externals;
  remove_collision := @remove_collision sample_externals;
  robot_end_effectors_ids := @robot_end_effectors_ids sample_externals;
  service_robot_ids := @service_robot_ids sample_externals;
  service_end_effectors_ids := @service_end_effectors_ids sample_externals;
  robot_end_effector_pose := @robot_end_effector_pose sample_externals;
  service_end_effector_pose := @service_end_effector_pose sample_externals |}.

Definition two_robot_server : server :=
  mkServer (Some box_scene) None
    {[ "Box" := box_meta; "Gripper" := gripper_meta ]}
    {[ "RobotSvc" := ServiceTypeMeta.mk "RobotSvc" "The robot service.";
       "RobotSvc2" := ServiceTypeMeta.mk "RobotSvc2" "Another robot service." ]}
    {[ "RobotSvc" := RobotMeta.mk "RobotSvc" true ]}
    [("box1", Generic.mk "Box" "box1" origin (Some (MeshModel box_mesh)) false)]
    [] ∅ ∅ [].

End Samples.

(** * Properties *)

(** ** The validator *)

Section validator_facts.
Context `{Parsers}.

(** A loop whose body keeps an invariant keeps it, and does not raise. *)
Lemma for_each_invariant {S A : Type} (P : S → Prop) (body : S → A → result S)
    (l : list A) (st : S) :
  P st →
  (∀ st x, x ∈ l → P st → ∃ st', body st x = Ok st' ∧ P st') →
  ∃ st', for_each body l st = Ok st' ∧ P st'.
Proof.
  revert st. induction l as [|x l IH]; intros st HP Hbody; simpl.
  - eauto.
  - destruct (Hbody st x) as (st1 & -> & HP1); [left | done |].
    simpl. apply IH; [done |].
    intros st2 y Hy. apply Hbody. by right.
Qed.

(** The same for loops whose outcome is only known when they return. *)
Lemma for_each_preserves {S A : Type} (P : S → Prop) (body : S → A → result S)
    (l : list A) (st st' : S) :
  P st →
  (∀ st x st', P st → body st x = Ok st' → P st') →
  for_each body l st = Ok st' → P st'.
Proof.
  revert st. induction l as [|x l IH]; intros st HP Hbody; simpl.
  - by intros [= <-].
  - destruct (body st x) as [st1|e] eqn:Hx; simpl; [|done].
    apply IH; eauto.
Qed.

End validator_facts.

Section validator_properties.
Context `{Parsers}.

(** [action_ids] starts empty and nothing ever adds to it. *)
Lemma check_param_action_ids objects_aps action st param st' :
  Validator.check_param objects_aps action st param = Ok st' →
  Validator.action_ids st' = Validator.action_ids st.
Proof.
  unfold Validator.check_param.
  destruct (Validator.is_pose_or_joints _); [|by intros [= <-]].
  destruct (parse_id param) as [[[o a] v]|e].
  - unfold getitem. destruct (objects_aps !! o); simpl; [|done].
    repeat case_decide; by intros [= <-].
  - destruct (as_arcor2_exception e); [|done]. by intros [= <-].
Qed.

Lemma check_action_action_ids ACTIONS scene_objects scene_services objects_aps obj ap
    st action st' :
  Validator.check_action ACTIONS scene_objects scene_services objects_aps obj ap st action
    = Ok st' →
  Validator.action_ids st' = Validator.action_ids st.
Proof.
  unfold Validator.check_action.
  set (st1 := if decide _ then _ else st).
  assert (Validator.action_ids st1 = Validator.action_ids st) as <-
    by (subst st1; by case_decide).
  clearbody st1.
  destruct (parse_type action) as [[obj_id action_type]|e]; simpl; [|done].
  case_decide; [|by intros [= <-]].
  destruct (getitem ACTIONS _) as [acts|e]; simpl; [|done].
  destruct (Validator.for_act _ _ _) as [cur broke].
  set (st2 := Validator.mkLocals _ cur _).
  assert (∀ st3, (if broke then Ok st2
                  else ty ← getitem scene_objects obj_id;
                       Ok (Validator.append st2 ("Object type " +:+ ty
                             +:+ " does not have action " +:+ action_type
                             +:+ " used in " +:+ Action.id action +:+ "."))) = Ok st3 →
                 Validator.action_ids st3 = Validator.action_ids st1) as Hst3.
  { intros st3. destruct broke; [by intros [= <-]|].
    destruct (getitem scene_objects obj_id); simpl; [|done]. by intros [= <-]. }
  destruct (if broke then _ else _) as [st3|e]; simpl; [|done].
  specialize (Hst3 st3 eq_refl).
  destruct (Validator.act st3) as [outer_act|]; [|done].
  intros Hloop. rewrite <- Hst3.
  eapply (for_each_preserves (λ s, Validator.action_ids s = Validator.action_ids st3));
    [| |exact Hloop].
  - by case_decide.
  - intros sa p sb Hsa Hp. rewrite <- Hsa. by eapply check_param_action_ids.
Qed.

Lemma run_action_ids_empty ACTIONS scene project st :
  Validator.run ACTIONS scene project = Ok st → Validator.action_ids st = ∅.
Proof.
  unfold Validator.run.
  apply (for_each_preserves (λ s, Validator.action_ids s = ∅)); [done|].
  intros sa obj sb Hsa. unfold Validator.check_object.
  case_decide; [|by intros [= <-]].
  apply (for_each_preserves (λ s, Validator.action_ids s = ∅)); [done|].
  clear sa Hsa sb. intros sa ap sb Hsa. unfold Validator.check_ap.
  destruct (for_each (Validator.check_joints ap) _ sa) as [s1|e] eqn:Hj; simpl; [|done].
  assert (Validator.action_ids s1 = ∅) as Hs1.
  { revert Hj. apply (for_each_preserves (λ s, Validator.action_ids s = ∅)); [done|].
    intros sc j sd Hsc. unfold Validator.check_joints.
    destruct (RobotJoints.is_valid j); by intros [= <-]. }
  apply (for_each_preserves (λ s, Validator.action_ids s = ∅)); [done|].
  intros sc a sd Hsc Ha. rewrite <- Hsc. by eapply check_action_action_ids.
Qed.

End validator_properties.

(** C1, the defect: [twin_project] has two actions with the id [a1] in one
    action point of an object of the scene, and [project_problems] reports
    nothing: the set of seen ids is never added to, so the test for a second
    occurrence never succeeds. *)
Theorem duplicate_action_id_goes_unreported :
  @Validator.project_problems Samples.sample_parsers
     Samples.box_actions Samples.box_scene Samples.twin_project = Ok []
  ∧ Action.id <$> @Validator.all_actions Samples.twin_project = ["a1"; "a1"].
Proof. split; vm_compute; reflexivity. Qed.

Section validator_silence.
Context `{Parsers}.

Lemma forallb_elem_of {A : Type} (f : A → bool) (l : list A) :
  forallb f l = true ↔ ∀ x, x ∈ l → f x = true.
Proof.
  rewrite forallb_forall. split; intros Hl x Hx; apply Hl; by apply list_elem_of_In.
Qed.

Lemma elem_of_all_actions project o ap a :
  o ∈ Project.objects project → ap ∈ ProjectObject.action_points o →
  a ∈ ActionPoint.actions ap → a ∈ Validator.all_actions project.
Proof.
  intros Ho Hap Ha. unfold Validator.all_actions.
  apply list_elem_of_bind. exists o. split; [|done].
  apply list_elem_of_bind. exists ap. done.
Qed.

Lemma elem_of_all_joints project o ap j :
  o ∈ Project.objects project → ap ∈ ProjectObject.action_points o →
  j ∈ ActionPoint.robot_joints ap → j ∈ Validator.all_joints project.
Proof.
  intros Ho Hap Hj. unfold Validator.all_joints.
  apply list_elem_of_bind. exists o. split; [|done].
  apply list_elem_of_bind. exists ap. done.
Qed.

(** When the catalogue has the action, the loop over it leaves by [break]
    with [act] bound to the first entry of that name. *)
Lemma for_act_found action_type acts a cur :
  Validator.find_action action_type acts = Some a →
  Validator.for_act action_type acts cur = (Some a, true).
Proof.
  unfold Validator.find_action. revert cur.
  induction acts as [|b acts IH]; intros cur; simpl; [done|].
  rewrite filter_cons. case_decide; simpl.
  - by intros [= ->].
  - apply IH.
Qed.

Lemma find_action_nonempty action_type acts a :
  Validator.find_action action_type acts = Some a → acts ≠ [].
Proof. by destruct acts. Qed.

(** Inserting the same pair once per catalogue entry is inserting it once. *)
Lemma repeated_insert {B : Type} (k : string) (v : ActionParameterTypeEnum)
    (acts : list B) (m : gmap string ActionParameterTypeEnum) :
  acts ≠ [] → foldl (λ m' _, <[k:=v]> m') m acts = <[k:=v]> m.
Proof.
  revert m. induction acts as [|b acts IH]; intros m Hne; [done|]. simpl.
  destruct acts as [|c acts]; [done|].
  rewrite IH; [|done]. apply insert_insert_eq.
Qed.

(** The comprehension over a non-empty catalogue yields the signature of the
    outer [act]. *)
Lemma ot_params_signature a acts :
  acts ≠ [] → Validator.ot_params_of a acts = Validator.signature_of a.
Proof.
  intros Hacts. unfold Validator.ot_params_of, Validator.signature_of.
  generalize (∅ : gmap string ActionParameterTypeEnum).
  induction (ObjectAction.action_args a) as [|p args IH]; intros m; simpl; [done|].
  rewrite repeated_insert; [|done]. apply IH.
Qed.

(** A parameter whose value resolves adds no problem. *)
Lemma check_param_silent objects_aps action st param :
  Validator.value_resolves objects_aps param = true →
  Validator.check_param objects_aps action st param = Ok st.
Proof.
  unfold Validator.value_resolves, Validator.check_param.
  destruct (Validator.is_pose_or_joints _); [|done].
  destruct (parse_id param) as [[[o a] v]|e]; [|done].
  unfold getitem. destruct (objects_aps !! o) as [aps|] eqn:Ho; [|done].
  intros Ha%bool_decide_eq_true.
  rewrite decide_True by (apply elem_of_dom; eauto).
  unfold mbind, result_bind. by rewrite decide_True.
Qed.

Lemma check_params_silent objects_aps action st params :
  forallb (Validator.value_resolves objects_aps) params = true →
  for_each (Validator.check_param objects_aps action) params st = Ok st.
Proof.
  induction params as [|p params IH]; simpl; [done|].
  intros [Hp Hps]%andb_true_iff. rewrite check_param_silent by done. simpl. auto.
Qed.

(** A conforming action whose values resolve adds no problem; it only
    rebinds [act]. *)
Lemma check_action_silent ACTIONS scene_objects scene_services objects_aps obj ap
    st action :
  Validator.action_conforms ACTIONS scene_objects scene_services action = true →
  forallb (Validator.value_resolves objects_aps) (Action.parameters action) = true →
  Validator.action_ids st = ∅ →
  ∃ st', Validator.check_action ACTIONS scene_objects scene_services objects_aps obj ap
           st action = Ok st'
         ∧ Validator.problems st' = Validator.problems st
         ∧ Validator.action_ids st' = ∅.
Proof.
  unfold Validator.action_conforms, Validator.check_action, Validator.target_type.
  intros Hconf Hvals Hids. rewrite Hids.
  rewrite decide_False by set_solver.
  destruct (parse_type action) as [[obj_id action_type]|e]; [|done]. simpl.
  assert (∃ os_type, (match scene_objects !! obj_id with
                      | Some ty => Some ty
                      | None => if decide (obj_id ∈ scene_services) then Some obj_id else None
                      end) = Some os_type
                     ∧ obj_id ∈ dom scene_objects ∪ scene_services
                     ∧ default obj_id (scene_objects !! obj_id) = os_type)
    as (os_type & Hty & Hin & Hos).
  { destruct (scene_objects !! obj_id) as [ty|] eqn:Hobj.
    - exists ty. split_and!; [done| |done].
      apply elem_of_union_l, elem_of_dom. eauto.
    - case_decide; [|done]. exists obj_id. split_and!; [done| |done].
      by apply elem_of_union_r. }
  rewrite Hty in Hconf. rewrite decide_True by done. rewrite Hos.
  unfold getitem. destruct (ACTIONS !! os_type) as [acts|]; [|done]. simpl in *.
  destruct (Validator.find_action action_type acts) as [a|] eqn:Hfind; [|done].
  apply bool_decide_eq_true in Hconf.
  rewrite (for_act_found _ _ _ _ Hfind). simpl.
  rewrite ot_params_signature by (by eapply find_action_nonempty).
  rewrite decide_True by done.
  rewrite check_params_silent by done. eauto.
Qed.

(** C2, as amended: when every project object is in the scene, every action
    targets a scene object or service whose catalogue has the action and
    declares exactly the action's parameters, all recorded joints are valid,
    every POSE or JOINTS value names an object of the project and one of its
    action points, and action ids are unique, [project_problems] returns the
    empty list. *)
Theorem conforming_project_has_no_problems ACTIONS scene project :
  Validator.conforming ACTIONS scene project = true →
  Validator.joints_valid project = true →
  Validator.values_resolve project = true →
  NoDup (Action.id <$> Validator.all_actions project) →
  Validator.project_problems ACTIONS scene project = Ok [].
Proof.
  unfold Validator.conforming, Validator.joints_valid, Validator.values_resolve.
  intros [Hobjs Hacts]%andb_true_iff Hjoints Hvals _.
  rewrite forallb_elem_of in Hobjs. rewrite forallb_elem_of in Hacts.
  rewrite forallb_elem_of in Hjoints. rewrite forallb_elem_of in Hvals.
  unfold Validator.project_problems, Validator.run.
  set (P := λ st, Validator.problems st = [] ∧ Validator.action_ids st = ∅).
  destruct (for_each_invariant P
              (Validator.check_object ACTIONS (Validator.scene_objects_of scene)
                 (Validator.scene_services_of scene) (Validator.objects_aps_of project))
              (Project.objects project) (Validator.mkLocals ∅ None []))
    as (st' & -> & Hprob & _); [done| |by simpl; rewrite Hprob].
  intros st o Ho HP. unfold Validator.check_object.
  rewrite decide_True by (eapply bool_decide_eq_true_1, Hobjs, Ho).
  apply for_each_invariant; [done|].
  clear st HP. intros st ap Hap [Hprob Hids]. unfold Validator.check_ap.
  destruct (for_each_invariant (λ s, s = st) (Validator.check_joints ap)
              (ActionPoint.robot_joints ap) st) as (? & -> & ->); [done| |].
  { intros ? j Hj ->. unfold Validator.check_joints.
    rewrite (Hjoints j) by eauto using elem_of_all_joints. eauto. }
  simpl. apply for_each_invariant; [done|].
  clear st Hprob Hids. intros st a Ha [Hprob Hids].
  assert (a ∈ Validator.all_actions project) as Hall by eauto using elem_of_all_actions.
  destruct (check_action_silent ACTIONS (Validator.scene_objects_of scene)
              (Validator.scene_services_of scene) (Validator.objects_aps_of project)
              o ap st a) as (st' & -> & Hprob' & Hids'); [auto..|].
  exists st'. split; [done|]. split; [congruence|done].
Qed.

End validator_silence.

(** C2 at a sample: a project whose two actions conform. *)
Lemma conforming_project_has_no_problems_witness :
  @Validator.conforming Samples.sample_parsers
     Samples.box_actions Samples.box_scene Samples.tidy_project = true
  ∧ @Validator.project_problems Samples.sample_parsers
       Samples.box_actions Samples.box_scene Samples.tidy_project = Ok [].
Proof.
  split; [vm_compute; reflexivity|].
  apply (@conforming_project_has_no_problems Samples.sample_parsers).
  - vm_compute; reflexivity.
  - vm_compute; reflexivity.
  - vm_compute; reflexivity.
  - apply (bool_decide_unpack _). vm_compute. exact I.
Defined.

(** C2 as the specification words it fails: [stale_project] has no action at
    all and its object is in the scene, so every stated condition holds, yet
    the validator reports the joints that are no longer valid. *)
Lemma conforming_project_with_stale_joints :
  @Validator.conforming Samples.sample_parsers
     Samples.box_actions Samples.box_scene Samples.stale_project = true
  ∧ @Validator.project_problems Samples.sample_parsers
       Samples.box_actions Samples.box_scene Samples.stale_project
     = Ok ["Action point ap1 has invalid joints: j1 (robot robot1)."]
  ∧ @Validator.project_problems Samples.sample_parsers
       Samples.box_actions Samples.box_scene Samples.stale_project ≠ Ok [].
Proof. split_and!; [vm_compute; reflexivity..|]. vm_compute. discriminate. Qed.

(** ** The manager bridge *)

(** C3 as the specification words it fails: with [stop_request] waiting
    behind [run_request], a failed send of [run_request] leaves the queue as
    [stop_request; run_request]: the request is behind the other one, not in
    front of it. *)
Lemma failed_send_goes_behind_waiting_requests :
  Bridge.sender_pass [Samples.run_request; Samples.stop_request] Samples.closed_pass
    = ([Samples.stop_request; Samples.run_request], None, Bridge.Break)
  ∧ ¬ ∃ rest,
      (Bridge.sender_pass [Samples.run_request; Samples.stop_request]
                          Samples.closed_pass).1.1
      = Samples.run_request :: rest.
Proof.
  split; [reflexivity|]. intros [rest Hrest]. vm_compute in Hrest. discriminate.
Qed.

(** C3, as amended: when the send of a dequeued request fails, the request is
    put back at the tail of the outbound queue, behind every request that
    was waiting or arrived meanwhile; nothing is written, the sender loop
    ends, and the next connection starts from that queue, which holds the
    request. *)
Theorem failed_send_requeues_at_the_tail queue p msg rest :
  Bridge.receiver_done p = false →
  Bridge.send_closed p = true →
  queue ++ Bridge.put_while_waiting p = msg :: rest →
  let queue' := (rest ++ Bridge.put_while_sending p) ++ [msg] in
  Bridge.sender_pass queue p = (queue', None, Bridge.Break)
  ∧ (∀ passes, Bridge.sender_loop queue (p :: passes) = (queue', []))
  ∧ (∀ passes attempts,
       Bridge.project_manager_client queue (Bridge.Connected (p :: passes) :: attempts)
       = Bridge.project_manager_client queue' attempts)
  ∧ msg ∈ queue' ∧ last queue' = Some msg.
Proof.
  intros Hdone Hclosed Hqueue queue'.
  assert (Bridge.sender_pass queue p = (queue', None, Bridge.Break)) as Hpass.
  { unfold Bridge.sender_pass. by rewrite Hdone, Hqueue, Hclosed. }
  assert (∀ passes, Bridge.sender_loop queue (p :: passes) = (queue', [])) as Hloop.
  { intros passes. simpl. by rewrite Hpass. }
  split_and!; [done|done| | |].
  - intros passes attempts. cbn [Bridge.project_manager_client].
    rewrite Hloop. by destruct (Bridge.project_manager_client queue' attempts).
  - subst queue'. set_solver.
  - subst queue'. apply last_snoc.
Qed.

Lemma failed_send_requeues_at_the_tail_witness :
  Bridge.sender_pass [Samples.run_request; Samples.stop_request] Samples.closed_pass
    = ([Samples.stop_request; Samples.run_request], None, Bridge.Break)
  ∧ Bridge.project_manager_client [Samples.run_request; Samples.stop_request]
      [Bridge.Connected [Samples.closed_pass];
       Bridge.Connected [Samples.quiet_pass; Samples.quiet_pass]]
    = ([], [Samples.stop_request; Samples.run_request]).
Proof.
  destruct (failed_send_requeues_at_the_tail
              [Samples.run_request; Samples.stop_request] Samples.closed_pass
              Samples.run_request [Samples.stop_request] eq_refl eq_refl eq_refl)
    as (Hpass & _ & Hclient & _).
  split; [exact Hpass|]. rewrite Hclient. reflexivity.
Defined.

Section correlation.
Implicit Types (st : Bridge.state) (req : Request.t) (resp : Response.t).

(** Registering an id that still has a slot fails the assertion. *)
Lemma register_pending_id_fails st req :
  Request.id req ∈ dom (Bridge.MANAGER_RPC_RESPONSES st) →
  Bridge.manager_request_register st req = Raise AssertionError.
Proof. intros Hin. unfold Bridge.manager_request_register. by rewrite decide_True. Qed.

Lemma register_fresh_id st req :
  Request.id req ∉ dom (Bridge.MANAGER_RPC_RESPONSES st) →
  Bridge.manager_request_register st req
  = Ok (Bridge.mkState (Bridge.MANAGER_RPC_REQUEST_QUEUE st ++ [req])
                       (<[Request.id req := []]> (Bridge.MANAGER_RPC_RESPONSES st))).
Proof. intros Hin. unfold Bridge.manager_request_register. by rewrite decide_False. Qed.

Lemma register_inv st req st' :
  Bridge.manager_request_register st req = Ok st' →
  (Request.id req ∉ dom (Bridge.MANAGER_RPC_RESPONSES st))
  ∧ st' = Bridge.mkState (Bridge.MANAGER_RPC_REQUEST_QUEUE st ++ [req])
                         (<[Request.id req := []]> (Bridge.MANAGER_RPC_RESPONSES st)).
Proof.
  unfold Bridge.manager_request_register. case_decide; [done|]. by intros [= <-].
Qed.

Lemma collect_inv st req resp st' :
  Bridge.manager_request_collect st req = Some (resp, st') →
  (∃ more, Bridge.MANAGER_RPC_RESPONSES st !! Request.id req = Some (resp :: more))
  ∧ st' = Bridge.mkState (Bridge.MANAGER_RPC_REQUEST_QUEUE st)
                         (delete (Request.id req) (Bridge.MANAGER_RPC_RESPONSES st)).
Proof.
  unfold Bridge.manager_request_collect.
  destruct (Bridge.MANAGER_RPC_RESPONSES st !! Request.id req) as [[|r more]|]; [done| |done].
  intros [= -> <-]. eauto.
Qed.

Lemma deliver_inv st resp st' :
  Bridge.deliver st resp = Ok st' →
  Bridge.MANAGER_RPC_RESPONSES st !! Response.id resp = Some []
  ∧ st' = Bridge.mkState (Bridge.MANAGER_RPC_REQUEST_QUEUE st)
                         (<[Response.id resp := [resp]]> (Bridge.MANAGER_RPC_RESPONSES st)).
Proof.
  unfold Bridge.deliver.
  destruct (Bridge.MANAGER_RPC_RESPONSES st !! Response.id resp) as [[|r more]|]; [|done..].
  by intros [= <-].
Qed.

(** The other tasks keep every slot well formed and leave the slot of the
    suspended call in place. *)
Lemma other_step_keeps_slot me st st' :
  Bridge.other_step me st st' →
  Bridge.slots_ok st → me ∈ dom (Bridge.MANAGER_RPC_RESPONSES st) →
  Bridge.slots_ok st' ∧ me ∈ dom (Bridge.MANAGER_RPC_RESPONSES st').
Proof.
  unfold Bridge.slots_ok.
  intros [s req s' Hreg|s req resp s' Hne Hcol|s resp s' Hdel|s queue'] Hok Hme.
  - apply register_inv in Hreg as [Hfresh ->]. simpl. split.
    + intros k slot. rewrite lookup_insert. case_decide.
      * intros [= <-]. simpl. split; [lia|constructor].
      * apply Hok.
    + rewrite dom_insert_L. by apply elem_of_union_r.
  - apply collect_inv in Hcol as [_ ->]. simpl. split.
    + intros k slot. rewrite lookup_delete. case_decide; [done|]. apply Hok.
    + rewrite dom_delete_L. apply elem_of_difference. split; [done|].
      intros Heq%elem_of_singleton. by apply Hne.
  - apply deliver_inv in Hdel as [Hslot ->]. simpl. split.
    + intros k slot. rewrite lookup_insert. case_decide.
      * intros [= <-]. simpl. split; [lia|]. subst k. by repeat constructor.
      * apply Hok.
    + rewrite dom_insert_L. by apply elem_of_union_r.
  - simpl. done.
Qed.

Lemma other_steps_keep_slot me st st' :
  rtc (Bridge.other_step me) st st' →
  Bridge.slots_ok st → me ∈ dom (Bridge.MANAGER_RPC_RESPONSES st) →
  Bridge.slots_ok st' ∧ me ∈ dom (Bridge.MANAGER_RPC_RESPONSES st').
Proof.
  induction 1 as [|s1 s2 s3 Hstep _ IH]; [done|].
  intros Hok Hme. destruct (other_step_keeps_slot _ _ _ Hstep Hok Hme). auto.
Qed.

(** C4: a call of [manager_request] whose id has no slot registers an empty
    slot under the id and puts the request at the tail of the outbound
    queue; while the call is suspended a second call with the same id fails
    the assertion, whatever the other tasks do; and when the call returns,
    the response it returns carries the request's id and the id has no slot
    any more.  A call whose id already has a slot fails the assertion at
    once. *)
Theorem manager_request_correlation st req st1 st2 resp st3 :
  Bridge.slots_ok st →
  Bridge.manager_request_register st req = Ok st1 →
  rtc (Bridge.other_step (Request.id req)) st1 st2 →
  Bridge.manager_request_collect st2 req = Some (resp, st3) →
  (Request.id req ∉ dom (Bridge.MANAGER_RPC_RESPONSES st))
  ∧ Bridge.MANAGER_RPC_RESPONSES st1
    = <[Request.id req := []]> (Bridge.MANAGER_RPC_RESPONSES st)
  ∧ Bridge.MANAGER_RPC_REQUEST_QUEUE st1 = Bridge.MANAGER_RPC_REQUEST_QUEUE st ++ [req]
  ∧ (∀ req', Request.id req' = Request.id req →
       Bridge.manager_request_register st1 req' = Raise AssertionError
       ∧ Bridge.manager_request_register st2 req' = Raise AssertionError)
  ∧ Response.id resp = Request.id req
  ∧ (Request.id req ∉ dom (Bridge.MANAGER_RPC_RESPONSES st3))
  ∧ Bridge.slots_ok st3.
Proof.
  intros Hok Hreg Hsteps Hcol.
  apply register_inv in Hreg as [Hfresh ->]. simpl in *.
  assert (Bridge.slots_ok
            (Bridge.mkState (Bridge.MANAGER_RPC_REQUEST_QUEUE st ++ [req])
               (<[Request.id req := []]> (Bridge.MANAGER_RPC_RESPONSES st)))) as Hok1.
  { intros k slot. simpl. rewrite lookup_insert. case_decide.
    - intros [= <-]. simpl. split; [lia|constructor].
    - apply Hok. }
  destruct (other_steps_keep_slot _ _ _ Hsteps Hok1) as [Hok2 Hme2].
  { simpl. rewrite dom_insert_L. set_solver. }
  apply collect_inv in Hcol as [[more Hslot] ->]. simpl.
  split_and!; [done|done|done| | | |].
  - intros req' Hid. split; apply register_pending_id_fails; rewrite Hid; [|done].
    simpl. rewrite dom_insert_L. set_solver.
  - destruct (Hok2 _ _ Hslot) as [_ Hids]. by inversion Hids.
  - rewrite dom_delete_L. intros [_ Hnot]%elem_of_difference.
    apply Hnot. by apply elem_of_singleton.
  - intros k slot. simpl. rewrite lookup_delete. case_decide; [done|]. apply Hok2.
Qed.

End correlation.

(** C4 at a sample: the call for [run_request] on an idle bridge, answered by
    the receiver while the sender has taken the request from the queue. *)
Lemma manager_request_correlation_witness :
  Bridge.manager_request_register Samples.idle_bridge Samples.run_request
    = Ok (Bridge.mkState [Samples.run_request] {[ 1%Z := [] ]})
  ∧ Bridge.manager_request_register
      (Bridge.mkState [] {[ 1%Z := [Samples.run_response] ]}) Samples.run_request
    = Raise AssertionError
  ∧ Bridge.manager_request_collect
      (Bridge.mkState [] {[ 1%Z := [Samples.run_response] ]}) Samples.run_request
    = Some (Samples.run_response, Samples.idle_bridge)
  ∧ Response.id Samples.run_response = Request.id Samples.run_request
  ∧ (Request.id Samples.run_request
     ∉ dom (Bridge.MANAGER_RPC_RESPONSES Samples.idle_bridge)).
Proof.
  assert (Bridge.slots_ok Samples.idle_bridge) as Hok by (intros k slot; done).
  assert (Bridge.manager_request_register Samples.idle_bridge Samples.run_request
          = Ok (Bridge.mkState [Samples.run_request] (<[1%Z := []]> ∅))) as Hreg
    by reflexivity.
  assert (rtc (Bridge.other_step 1)
              (Bridge.mkState [Samples.run_request] (<[1%Z := []]> ∅))
              (Bridge.mkState [] (<[1%Z := [Samples.run_response]]> (<[1%Z := []]> ∅))))
    as Hsteps.
  { eapply rtc_l; [apply (Bridge.sender_moves _ _ [])|].
    eapply rtc_l; [|apply rtc_refl].
    apply (Bridge.receiver_delivers _ _ Samples.run_response). reflexivity. }
  assert (Bridge.manager_request_collect
            (Bridge.mkState [] (<[1%Z := [Samples.run_response]]> (<[1%Z := []]> ∅)))
            Samples.run_request
          = Some (Samples.run_response,
                  Bridge.mkState [] (delete 1%Z (<[1%Z := [Samples.run_response]]>
                                                   (<[1%Z := []]> ∅))))) as Hcol
    by reflexivity.
  destruct (manager_request_correlation _ _ _ _ _ _ Hok Hreg Hsteps Hcol)
    as (_ & _ & _ & Hagain & Hid & _ & _).
  split_and!; [reflexivity| |reflexivity|exact Hid|set_solver].
  destruct (Hagain Samples.run_request eq_refl) as [_ Hst2].
  revert Hst2. by rewrite insert_insert_eq, insert_empty.
Defined.

(** ** The connection hub *)

Section hub.
Variable to_json : Event.t → string.

Lemma elem_of_sends INTERFACES message exclude_ui intf frame :
  (intf, frame) ∈ Hub.sends INTERFACES message exclude_ui
  ↔ intf ∈ INTERFACES ∧ Some intf ≠ exclude_ui ∧ frame = message.
Proof.
  unfold Hub.sends. rewrite list_elem_of_fmap. split.
  - intros (c & [= -> ->] & [Hne Hin%elem_of_elements]%list_elem_of_filter). done.
  - intros (Hin & Hne & ->). exists intf. split; [done|].
    apply list_elem_of_filter. split; [done|]. by apply elem_of_elements.
Qed.

(** Two different registered channels make more than one. *)
Lemma two_channels (INTERFACES : gset nat) (a b : nat) :
  a ∈ INTERFACES → b ∈ INTERFACES → a ≠ b → 1 < size INTERFACES.
Proof.
  intros Ha Hb Hne.
  assert (size ({[a]} ∪ {[b]} : gset nat) ≤ size INTERFACES) as Hle.
  { apply subseteq_size.
    intros c [->%elem_of_singleton| ->%elem_of_singleton]%elem_of_union; done. }
  rewrite size_union, !size_singleton in Hle; [lia|].
  intros c ->%elem_of_singleton Hb'%elem_of_singleton. done.
Qed.

(** [notify] never sends to a channel that is not registered or that is the
    excluded one, and it sends nothing but the serialized event. *)
Lemma notify_only_to_others INTERFACES event exclude_ui intf frame :
  (intf, frame) ∈ Hub.notify to_json INTERFACES event exclude_ui →
  intf ∈ INTERFACES ∧ Some intf ≠ exclude_ui ∧ frame = to_json event.
Proof.
  unfold Hub.notify. destruct (Hub.notify_guard _ _).
  - apply elem_of_sends.
  - by intros ?%elem_of_nil.
Qed.

(** C9, as amended: when no channel is excluded, or the excluded channel is
    itself registered, or more than one channel is registered, [notify]
    sends the serialized event to every registered channel other than the
    excluded one and to no other; a channel that accepts the frame receives
    it whatever happens to the sends to the other channels. *)
Theorem notify_reaches_every_other_channel INTERFACES event exclude_ui send_ok intf :
  (∀ c, exclude_ui = Some c → c ∈ INTERFACES ∨ 1 < size INTERFACES) →
  intf ∈ INTERFACES → Some intf ≠ exclude_ui →
  (intf, to_json event) ∈ Hub.notify to_json INTERFACES event exclude_ui
  ∧ (send_ok intf = true →
     (intf, to_json event)
       ∈ Hub.delivered send_ok (Hub.notify to_json INTERFACES event exclude_ui))
  ∧ (∀ c frame, (c, frame) ∈ Hub.notify to_json INTERFACES event exclude_ui →
       c ∈ INTERFACES ∧ Some c ≠ exclude_ui ∧ frame = to_json event).
Proof.
  intros Hexcl Hin Hne.
  assert (Hub.notify_guard INTERFACES exclude_ui = true) as Hguard.
  { unfold Hub.notify_guard. destruct exclude_ui as [c|]; apply bool_decide_eq_true.
    - destruct (Hexcl c eq_refl) as [Hc|]; [|done].
      apply (two_channels _ intf c); [done..|congruence].
    - set_solver. }
  assert ((intf, to_json event) ∈ Hub.notify to_json INTERFACES event exclude_ui) as Hsent.
  { unfold Hub.notify. rewrite Hguard. by apply elem_of_sends. }
  split_and!; [done| |].
  - intros Hok. unfold Hub.delivered. apply list_elem_of_filter. done.
  - intros c frame. apply notify_only_to_others.
Qed.

End hub.

Lemma notify_reaches_every_other_channel_witness :
  (1, Samples.sample_to_json Samples.scene_changed)
    ∈ Hub.notify Samples.sample_to_json {[1; 2; 3]} Samples.scene_changed (Some 2)
  ∧ (1, Samples.sample_to_json Samples.scene_changed)
      ∈ Hub.delivered (λ c, bool_decide (c ≠ 3))
          (Hub.notify Samples.sample_to_json {[1; 2; 3]} Samples.scene_changed (Some 2)).
Proof.
  destruct (notify_reaches_every_other_channel Samples.sample_to_json
              {[1; 2; 3]} Samples.scene_changed (Some 2) (λ c, bool_decide (c ≠ 3)) 1)
    as (Hsent & Hgot & _).
  - intros c [= <-]. left. set_solver.
  - set_solver.
  - discriminate.
  - split; [exact Hsent|]. apply Hgot. reflexivity.
Defined.

(** C9 as the specification words it fails: channel [1] is the only
    registered channel and channel [2] is excluded; channel [1] differs from
    the excluded channel and yet nothing is sent. *)
Lemma lone_channel_is_skipped_when_another_is_excluded :
  1 ∈ ({[1]} : gset nat) ∧ Some 1 ≠ Some 2
  ∧ Hub.notify Samples.sample_to_json {[1]} Samples.scene_changed (Some 2) = [].
Proof. split_and!; [set_solver|discriminate|reflexivity]. Qed.

(** ** The registry *)

Section registry.
Context `{Externals}.

(** C6, as amended: an object whose type needs a service that is not among
    the service instances of the open scene is refused, and the call leaves
    every global as it was: no instance is registered, the scene is not
    appended to and nothing is logged.  Called with [srv_obj_ok] (re-opening
    a scene) the message says that a required service is not available
    (unknown service type) or not in the scene; called without it the
    message is the one for every type that needs services. *)
Theorem add_object_without_its_service_is_refused
    (s : server) (scene : Scene.t) (obj : SceneObject.t) (obj_meta : ObjectTypeMeta.t)
    (add_to_scene srv_obj_ok : bool) :
  SCENE s = Some scene →
  OBJECT_TYPES s !! SceneObject.type obj = Some obj_meta →
  ¬ (ObjectTypeMeta.needs_services obj_meta
       ⊆ list_to_set (odict.keys (SERVICES_INSTANCES s))) →
  add_object_to_scene obj add_to_scene srv_obj_ok s
  = (s, Ok (false,
            if srv_obj_ok then
              if decide (ObjectTypeMeta.needs_services obj_meta ⊆ dom (SERVICE_TYPES s))
              then "Some of required services is not in the scene."
              else "Some of required services is not available."
            else "Service(s)-based object.")).
Proof.
  intros Hscene Hmeta Hneeds. unfold add_object_to_scene.
  unfold mbind, M_bind, get_state. rewrite Hscene, Hmeta.
  unfold services_refusal. destruct srv_obj_ok; simpl.
  - case_decide as Hknown.
    + rewrite (bool_decide_eq_true_2 _ Hknown). simpl.
      by rewrite (bool_decide_eq_false_2 _ Hneeds).
    + by rewrite (bool_decide_eq_false_2 _ Hknown).
  - rewrite bool_decide_eq_true_2; [done|].
    intros Hempty. apply Hneeds. rewrite Hempty. set_solver.
Qed.

Lemma current_scene_inv (s s' : server) (scene : Scene.t) :
  current_scene s = (s', Ok scene) → s' = s ∧ SCENE s = Some scene.
Proof.
  unfold current_scene, mbind, M_bind, get_state.
  destruct (SCENE s) as [sc|]; [|done]. by intros [= <- <-].
Qed.

(** C5: when [open_scene] returns, the ids of the registered object instances
    are the ids of the objects of the scene now open, and the registered
    service types are the types of its services. *)
Theorem open_scene_registers_the_scene (scene_id : string) (s s' : server) :
  open_scene scene_id s = (s', Ok ()) →
  ∃ scene, SCENE s' = Some scene
    ∧ list_to_set (odict.keys (SCENE_OBJECT_INSTANCES s'))
      =@{gset string} list_to_set (SceneObject.id <$> Scene.objects scene)
    ∧ list_to_set (odict.keys (SERVICES_INSTANCES s'))
      =@{gset string} list_to_set (SceneService.type <$> Scene.services scene).
Proof.
  unfold open_scene.
  unfold mbind at 1, M_bind at 1.
  destruct (lift (get_scene scene_id) s) as [s1 [loaded|e]]; [|done].
  unfold mbind at 1, M_bind at 1.
  destruct (modify (set_SCENE (Some loaded)) s1) as [s2 [[]|e]]; [|done].
  unfold mbind at 1, M_bind at 1.
  destruct (current_scene s2) as [s3 [scene3|e]]; [|done].
  unfold mbind at 1, M_bind at 1.
  match goal with
  | |- context [for_ ?f ?l ?s] => destruct (for_ f l s) as [s4 [[]|e]]; [|done]
  end.
  unfold mbind at 1, M_bind at 1.
  destruct (current_scene s4) as [s5 [scene5|e]]; [|done].
  unfold mbind at 1, M_bind at 1.
  match goal with
  | |- context [for_ ?f ?l ?s] => destruct (for_ f l s) as [s6 [[]|e]]; [|done]
  end.
  unfold mbind at 1, M_bind at 1.
  destruct (current_scene s6) as [s7 [scene|e]] eqn:Hscene; [|done].
  apply current_scene_inv in Hscene as [-> Hscene].
  unfold mbind at 1, M_bind at 1. unfold get_state.
  destruct (bool_decide (list_to_set (SceneService.type <$> Scene.services scene)
                         =@{gset string} _)) eqn:Hservices; [|done].
  destruct (bool_decide (list_to_set (SceneObject.id <$> Scene.objects scene)
                         =@{gset string} _)) eqn:Hobjects; [|done].
  apply bool_decide_eq_true_1 in Hservices, Hobjects.
  simpl. unfold emit, modify. intros [= <-]. exists scene. simpl. done.
Qed.

End registry.

Lemma open_scene_registers_the_scene_witness :
  @open_scene Samples.sample_externals "scene1" Samples.fresh_server
    = (Samples.cell_server, Ok ())
  ∧ SCENE Samples.cell_server = Some Samples.cell_scene
  ∧ odict.keys (SCENE_OBJECT_INSTANCES Samples.cell_server) = ["box1"; "gripper1"]
  ∧ odict.keys (SERVICES_INSTANCES Samples.cell_server) = ["RobotSvc"].
Proof.
  assert (@open_scene Samples.sample_externals "scene1" Samples.fresh_server
          = (Samples.cell_server, Ok ())) as Hopen by (vm_compute; reflexivity).
  destruct (@open_scene_registers_the_scene Samples.sample_externals
              "scene1" Samples.fresh_server Samples.cell_server Hopen)
    as (scene & Hscene & _ & _).
  split_and!; [exact Hopen|vm_compute; reflexivity..].
Defined.

(** [open_scene] adds to the registries and never empties them: opening the
    empty [scene2] over the instances of [scene1] fails the assertion. *)
Lemma open_scene_over_another_scene_fails :
  (@open_scene Samples.sample_externals "scene2" Samples.cell_server).2
  = Raise AssertionError.
Proof. vm_compute. reflexivity. Qed.

Lemma add_object_without_its_service_is_refused_witness :
  @add_object_to_scene Samples.sample_externals
     (SceneObject.mk "gripper1" "Gripper" Samples.origin) true false
     Samples.box_only_server
  = (Samples.box_only_server, Ok (false, "Service(s)-based object."))
  ∧ @add_object_to_scene Samples.sample_externals
       (SceneObject.mk "gripper1" "Gripper" Samples.origin) false true
       Samples.box_only_server
    = (Samples.box_only_server,
       Ok (false, "Some of required services is not in the scene.")).
Proof.
  assert (¬ (ObjectTypeMeta.needs_services Samples.gripper_meta
               ⊆ list_to_set (odict.keys (SERVICES_INSTANCES Samples.box_only_server))))
    as Hneeds by (simpl; set_solver).
  split.
  - exact (@add_object_without_its_service_is_refused Samples.sample_externals
             Samples.box_only_server Samples.box_scene
             (SceneObject.mk "gripper1" "Gripper" Samples.origin) Samples.gripper_meta
             true false eq_refl eq_refl Hneeds).
  - exact (@add_object_without_its_service_is_refused Samples.sample_externals
             Samples.box_only_server Samples.box_scene
             (SceneObject.mk "gripper1" "Gripper" Samples.origin) Samples.gripper_meta
             false true eq_refl eq_refl Hneeds).
Defined.

(** C6 as the specification words it fails: called the way the handler of
    the request calls it, [add_object_to_scene] refuses the gripper with the
    message for every type that needs services, which says nothing about a
    service being unavailable: the answer is the same in the cell whose
    scene holds no service and in the cell whose scene holds the robot
    service the gripper needs. *)
Lemma service_based_object_is_refused_whatever_the_scene_holds :
  ¬ (ObjectTypeMeta.needs_services Samples.gripper_meta
       ⊆ list_to_set (odict.keys (SERVICES_INSTANCES Samples.box_only_server)))
  ∧ @add_object_to_scene Samples.sample_externals
      (SceneObject.mk "gripper2" "Gripper" Samples.origin) true false
      Samples.box_only_server
    = (Samples.box_only_server, Ok (false, "Service(s)-based object."))
  ∧ ObjectTypeMeta.needs_services Samples.gripper_meta
      ⊆ list_to_set (odict.keys (SERVICES_INSTANCES Samples.cell_server))
  ∧ @add_object_to_scene Samples.sample_externals
      (SceneObject.mk "gripper2" "Gripper" Samples.origin) true false
      Samples.cell_server
    = (Samples.cell_server, Ok (false, "Service(s)-based object.")).
Proof.
  split_and!.
  - simpl. set_solver.
  - vm_compute. reflexivity.
  - intros k Hk. simpl in Hk. apply elem_of_singleton in Hk as ->.
    apply elem_of_list_to_set. vm_compute. left.
  - vm_compute. reflexivity.
Qed.

(** ** Robot queries and [update_action_object_cb] *)

Section handlers.
Context `{Externals}.

Lemma only_effects_refl (s : server) : only_effects s s.
Proof. exists (effects s). by destruct s. Qed.

Lemma only_effects_trans (s1 s2 s3 : server) :
  only_effects s1 s2 → only_effects s2 s3 → only_effects s1 s3.
Proof. intros [e1 ->] [e2 ->]. by exists e2. Qed.

Lemma emit_only_effects (e : effect) (s : server) : only_effects s (emit e s).1.
Proof. by eexists. Qed.

Lemma get_robot_instance_only_effects robot_id end_effector_id s s' r :
  get_robot_instance robot_id end_effector_id s = (s', r) → only_effects s s'.
Proof.
  unfold get_robot_instance, mbind, M_bind, get_state, raise, lift, emit, modify.
  repeat match goal with
         | |- context [match ?x with _ => _ end] => destruct x
         end;
    intros [= <- _]; first [apply only_effects_refl | by eexists].
Qed.

Lemma get_end_effector_pose_only_effects robot_id end_effector s s' r :
  get_end_effector_pose robot_id end_effector s = (s', r) → only_effects s s'.
Proof.
  unfold get_end_effector_pose. unfold mbind at 1, M_bind at 1.
  destruct (get_robot_instance _ _ s) as [s1 [inst|e]] eqn:Hinst.
  - apply get_robot_instance_only_effects in Hinst as [e1 ->].
    unfold mbind, M_bind, emit, modify, lift.
    destruct inst; simpl; intros [= <- _]; by eexists.
  - apply get_robot_instance_only_effects in Hinst. by intros [= <- _].
Qed.

(** C10, as amended: when the target object is the robot that would measure,
    the handler fails without querying any robot and leaves every global,
    the scene included, as it was; the message is the handler's own when a
    scene with a non-empty id is open and no project is open, and the
    guard's otherwise. *)
Theorem robot_cannot_update_its_own_pose (id : string) (robot : RobotArg.t) (s : server) :
  id = RobotArg.robot_id robot →
  update_action_object_cb id robot s
  = (s, Ok (Failure
              match SCENE s with
              | None => "Scene not opened or has invalid id."
              | Some scene =>
                  if decide (Scene.id scene = "")
                  then "Scene not opened or has invalid id."
                  else match PROJECT s with
                       | Some _ => "Not available during project editing."
                       | None => "Robot cannot update its own pose."
                       end
              end)).
Proof.
  intros Hid. unfold update_action_object_cb, scene_needed, no_project.
  unfold mbind, M_bind, get_state.
  destruct (SCENE s) as [scene|] eqn:Hscene; [|done].
  case_decide; [done|].
  destruct (PROJECT s); [done|].
  rewrite Hscene. by rewrite decide_True.
Qed.

End handlers.

Lemma robot_cannot_update_its_own_pose_witness :
  @update_action_object_cb Samples.sample_externals "arm1" (RobotArg.mk "arm1" "tool0")
     Samples.cell_server
  = (Samples.cell_server, Ok (Failure "Robot cannot update its own pose.")).
Proof.
  exact (@robot_cannot_update_its_own_pose Samples.sample_externals
           "arm1" (RobotArg.mk "arm1" "tool0") Samples.cell_server eq_refl).
Defined.

(** C10 as it is worded fails: with no scene open the guard answers,
    not the handler. *)
Lemma own_pose_request_without_scene :
  @update_action_object_cb Samples.sample_externals "arm1" (RobotArg.mk "arm1" "tool0")
     Samples.fresh_server
  = (Samples.fresh_server, Ok (Failure "Scene not opened or has invalid id."))
  ∧ @update_action_object_cb Samples.sample_externals "arm1" (RobotArg.mk "arm1" "tool0")
       Samples.fresh_server
    ≠ (Samples.fresh_server, Ok (Failure "Robot cannot update its own pose.")).
Proof. split; [reflexivity|]. vm_compute. discriminate. Qed.

(** ** Focus calibration *)

Section focus.
Context `{Externals}.

(** Assigning to a key keeps the order of the keys and appends a new key. *)
Lemma odict_keys_set {V : Type} (d : list (Z * V)) (k : Z) (v : V) :
  odict.keys (odict.set d k v)
  = if decide (k ∈ odict.keys d) then odict.keys d else odict.keys d ++ [k].
Proof.
  unfold odict.keys. induction d as [|[k' v'] d IH].
  - destruct (decide (k ∈ [].*1)) as [Hin|_]; [|done]. by apply elem_of_nil in Hin.
  - cbn [odict.set]. destruct (decide (k = k')) as [->|Hne].
    + destruct (decide (k' ∈ ((k', v') :: d).*1)) as [_|Hnin]; [done|].
      destruct Hnin. left.
    + rewrite fmap_cons, IH. cbn [fst].
      destruct (decide (k ∈ d.*1)) as [Hin|Hnin];
        destruct (decide (k ∈ ((k', v') :: d).*1)) as [Hin'|Hnin']; try done.
      * destruct Hnin'. rewrite fmap_cons. by right.
      * rewrite fmap_cons in Hin'. by apply elem_of_cons in Hin' as [?|?].
Qed.

Lemma odict_mem_get {V : Type} (d : list (string * V)) (k : string) (v : V) :
  odict.get d k = Some v → odict.mem d k = true.
Proof.
  unfold odict.mem, odict.keys. intros Hget. apply bool_decide_eq_true_2.
  induction d as [|[k' v'] d IH]; [done|]. simpl in Hget. rewrite fmap_cons.
  destruct (decide (k = k')) as [->|Hne]; [left|right; auto].
Qed.

Lemma get_obj_type_name_inv (object_id : string) (s s' : server) (r : result string) :
  get_obj_type_name object_id s = (s', r) →
  s' = s ∧ r = match odict.get (SCENE_OBJECT_INSTANCES s) object_id with
               | Some inst => Ok (Generic.class_name inst)
               | None => Raise (KeyError (StrKey object_id))
               end.
Proof.
  unfold get_obj_type_name, mbind, M_bind, get_state.
  destruct (odict.get _ _); by intros [= <- <-].
Qed.

(** C8, as amended: a capture that succeeds on an object with a session
    returns the indices captured so far, each once, in the order in which
    they were first captured: the indices of the session as they stood, with
    the new index appended when it was not among them. *)
Theorem capture_lists_indices_in_capture_order
    (object_id : string) (point_idx : Z) (s s' : server)
    (points : list (Z * Pose)) (idxs : list Z) :
  FOCUS_OBJECT s !! object_id = Some points →
  focus_object_cb object_id point_idx s = (s', Ok (Success idxs)) →
  idxs = (if decide (point_idx ∈ odict.keys points) then odict.keys points
          else odict.keys points ++ [point_idx])
  ∧ list_to_set idxs =@{gset Z} {[point_idx]} ∪ list_to_set (odict.keys points)
  ∧ (NoDup (odict.keys points) → NoDup idxs)
  ∧ ∃ pose, FOCUS_OBJECT s' !! object_id = Some (odict.set points point_idx pose)
            ∧ idxs = odict.keys (odict.set points point_idx pose).
Proof.
  intros Hpoints.
  unfold focus_object_cb, no_project.
  unfold mbind at 1, M_bind at 1, get_state at 1.
  destruct (PROJECT s); [done|].
  unfold mbind at 1, M_bind at 1, get_state at 1.
  destruct (odict.mem _ _); simpl; [|done].
  unfold mbind at 1, M_bind at 1.
  destruct (get_obj_type_name object_id s) as [s1 [name|e]] eqn:Hname; [|done].
  apply get_obj_type_name_inv in Hname as [-> _].
  unfold mbind at 1, M_bind at 1, lift at 1.
  destruct (getitem (OBJECT_TYPES s) name) as [obj_type|e]; [|done].
  destruct (_ ≫= ObjectModel.mesh) as [mesh|]; [|done].
  destruct (Mesh.focus_points mesh) as [|fp fps]; [done|].
  case_decide; [done|].
  rewrite decide_True by (apply elem_of_dom; eauto).
  unfold mbind at 1, M_bind at 1. simpl.
  unfold mbind at 1, M_bind at 1, get_state at 1.
  unfold mbind at 1, M_bind at 1, lift at 1.
  destruct (getitem (FOCUS_OBJECT_ROBOT s) object_id) as [robot|e]; [|done].
  unfold mbind at 1, M_bind at 1.
  destruct (get_end_effector_pose _ _ s) as [s2 [pose|e]] eqn:Hpose; [|done].
  apply get_end_effector_pose_only_effects in Hpose as [effs ->].
  unfold mbind, M_bind, get_state, lift, modify, getitem. simpl.
  rewrite Hpoints. simpl. intros [= <- <-]. simpl.
  rewrite lookup_insert_eq, odict_keys_set.
  split_and!; [done| | |].
  - case_decide as Hin.
    + apply (elem_of_list_to_set (C := gset Z)) in Hin.
      apply set_eq. intros k. rewrite elem_of_union, elem_of_singleton.
      split; [auto|]. by intros [->|?].
    + rewrite list_to_set_app_L. simpl. rewrite (right_id_L ∅ (∪)). apply (comm_L (∪)).
  - intros Hnodup. case_decide; [done|].
    apply NoDup_app. split_and!; [done| |apply NoDup_singleton].
    intros k Hk ->%list_elem_of_singleton. done.
  - exists pose. by rewrite odict_keys_set.
Qed.

(** Whatever the session state, a capture for an object without a recorded
    robot raises [KeyError] once the object and the index have passed the
    checks. *)
Lemma capture_without_recorded_robot_raises
    (object_id : string) (point_idx : Z) (s : server)
    (inst : Generic.t) (obj_type : ObjectTypeMeta.t) (mesh : Mesh.t) :
  PROJECT s = None →
  odict.get (SCENE_OBJECT_INSTANCES s) object_id = Some inst →
  OBJECT_TYPES s !! Generic.class_name inst = Some obj_type →
  ObjectTypeMeta.object_model obj_type ≫= ObjectModel.mesh = Some mesh →
  (0 ≤ point_idx < Z.of_nat (length (Mesh.focus_points mesh)))%Z →
  FOCUS_OBJECT_ROBOT s !! object_id = None →
  (focus_object_cb object_id point_idx s).2 = Raise (KeyError (StrKey object_id)).
Proof.
  intros Hproject Hinst Htype Hmesh Hidx Hrobot.
  unfold focus_object_cb, no_project.
  unfold mbind at 1, M_bind at 1, get_state at 1. rewrite Hproject.
  unfold mbind at 1, M_bind at 1, get_state at 1.
  rewrite (odict_mem_get _ _ _ Hinst). simpl.
  unfold mbind at 1, M_bind at 1.
  destruct (get_obj_type_name object_id s) as [s1 r] eqn:Hname.
  apply get_obj_type_name_inv in Hname as [-> ->]. rewrite Hinst.
  unfold mbind at 1, M_bind at 1, lift at 1, getitem at 1. rewrite Htype, Hmesh.
  destruct (Mesh.focus_points mesh) as [|fp fps] eqn:Hfps; [simpl in Hidx; lia|].
  rewrite decide_False by (simpl in Hidx; lia).
  unfold mbind at 1, M_bind at 1.
  destruct (decide (object_id ∈ dom (FOCUS_OBJECT s))).
  - simpl. unfold mbind at 1, M_bind at 1, get_state at 1.
    unfold mbind at 1, M_bind at 1, lift at 1, getitem at 1. by rewrite Hrobot.
  - simpl. unfold mbind at 1, M_bind at 1, get_state at 1.
    unfold mbind at 1, M_bind at 1, lift at 1, getitem at 1. simpl. by rewrite Hrobot.
Qed.

(** A capture never records a robot, and it never drops a point
    dictionary. *)
Lemma focus_object_cb_dicts (object_id : string) (point_idx : Z) (s s' : server)
    (r : result (rpc_return (list Z))) :
  focus_object_cb object_id point_idx s = (s', r) →
  FOCUS_OBJECT_ROBOT s' = FOCUS_OBJECT_ROBOT s
  ∧ dom (FOCUS_OBJECT s) ⊆ dom (FOCUS_OBJECT s').
Proof.
  unfold focus_object_cb, no_project.
  unfold mbind at 1, M_bind at 1, get_state at 1.
  destruct (PROJECT s); [by intros [= <- _]|].
  unfold mbind at 1, M_bind at 1, get_state at 1.
  destruct (odict.mem _ _); simpl; [|by intros [= <- _]].
  unfold mbind at 1, M_bind at 1.
  destruct (get_obj_type_name object_id s) as [s1 r1] eqn:Hname.
  apply get_obj_type_name_inv in Hname as [-> ->].
  destruct (odict.get _ _) as [inst|]; [|by intros [= <- _]].
  unfold mbind at 1, M_bind at 1, lift at 1.
  destruct (getitem (OBJECT_TYPES s) _) as [obj_type|e]; [|by intros [= <- _]].
  destruct (_ ≫= ObjectModel.mesh) as [mesh|]; [|by intros [= <- _]].
  destruct (Mesh.focus_points mesh) as [|fp fps]; [by intros [= <- _]|].
  case_decide; [by intros [= <- _]|].
  unfold mbind at 1, M_bind at 1.
  set (s0 := if decide (object_id ∈ dom (FOCUS_OBJECT s)) then s
             else set_FOCUS_OBJECT (<[object_id:=[]]> (FOCUS_OBJECT s))
                    (set_effects (effects s ++ [Logged "info" ("Start of focusing for "
                                                  +:+ object_id +:+ ".")]) s)).
  assert ((if decide (object_id ∈ dom (FOCUS_OBJECT s)) then mret ()
           else _ ← log "info" ("Start of focusing for " +:+ object_id +:+ ".");
                modify (λ s0, set_FOCUS_OBJECT (<[object_id:=[]]> (FOCUS_OBJECT s0)) s0)) s
          = (s0, Ok ())) as ->.
  { subst s0. by case_decide. }
  assert (FOCUS_OBJECT_ROBOT s0 = FOCUS_OBJECT_ROBOT s
          ∧ dom (FOCUS_OBJECT s) ⊆ dom (FOCUS_OBJECT s0)) as [Hrobots Hdom].
  { subst s0. case_decide; simpl; [done|]. split; [done|].
    rewrite dom_insert_L. apply union_subseteq_r. }
  clearbody s0.
  unfold mbind at 1, M_bind at 1, get_state at 1.
  unfold mbind at 1, M_bind at 1, lift at 1.
  destruct (getitem (FOCUS_OBJECT_ROBOT s0) object_id) as [robot|e];
    [|by intros [= <- _]].
  unfold mbind at 1, M_bind at 1.
  destruct (get_end_effector_pose _ _ s0) as [s2 rp] eqn:Hpose.
  apply get_end_effector_pose_only_effects in Hpose as [effs ->].
  destruct rp as [pose|e]; [|by intros [= <- _]].
  unfold mbind, M_bind, get_state, lift, modify. simpl.
  destruct (getitem (FOCUS_OBJECT s0) object_id); intros [= <- _]; simpl; [|done].
  split; [done|]. rewrite dom_insert_L. etrans; [exact Hdom|apply union_subseteq_r].
Qed.

(** The three operations on sessions keep [sessions_ok]: the explicit start
    records the robot and the point dictionary together, a capture records
    no robot, and the clean-up removes both. *)
Lemma focus_object_start_cb_sessions (object_id : string) (robot : RobotArg.t)
    (s s' : server) (r : result (rpc_return ())) :
  focus_object_start_cb object_id robot s = (s', r) →
  sessions_ok s → sessions_ok s'.
Proof.
  unfold sessions_ok, focus_object_start_cb, scene_needed, no_project.
  unfold mbind at 1, M_bind at 1, get_state at 1.
  destruct (SCENE s) as [scene|]; [|by intros [= <- _]].
  case_decide; [by intros [= <- _]|].
  unfold mbind at 1, M_bind at 1, get_state at 1.
  destruct (PROJECT s); [by intros [= <- _]|].
  unfold mbind at 1, M_bind at 1, get_state at 1.
  case_decide; [by intros [= <- _]|].
  destruct (odict.mem _ _); simpl; [|by intros [= <- _]].
  unfold mbind at 1, M_bind at 1.
  match goal with
  | |- context [try_except_arcor2 ?b ?h s] =>
      destruct (try_except_arcor2 b h s) as [s1 found] eqn:Hfound
  end.
  assert (only_effects s s1) as [effs ->].
  { revert Hfound. unfold try_except_arcor2.
    unfold mbind at 1, M_bind at 1.
    destruct (get_robot_instance _ _ s) as [s2 ri] eqn:Hinst.
    apply get_robot_instance_only_effects in Hinst.
    destruct ri as [inst|e]; simpl; [by intros [= <- _]|].
    destruct (as_arcor2_exception e); by intros [= <- _]. }
  destruct found as [[msg|inst]|e]; [by intros [= <- _]| |by intros [= <- _]].
  unfold mbind at 1, M_bind at 1, get_state at 1.
  unfold mbind at 1, M_bind at 1, lift at 1.
  destruct (getitem _ _) as [meta|e]; [|by intros [= <- _]].
  destruct (RobotMeta.features_focus meta); simpl; [|by intros [= <- _]].
  unfold mbind at 1, M_bind at 1.
  destruct (get_obj_type_name _ _) as [s2 rn] eqn:Hname.
  apply get_obj_type_name_inv in Hname as [-> ->].
  destruct (odict.get _ _); [|by intros [= <- _]].
  unfold mbind at 1, M_bind at 1, lift at 1.
  destruct (getitem _ _) as [obj_type|e]; [|by intros [= <- _]].
  destruct (ObjectTypeMeta.object_model obj_type) as [object_model|];
    [|by intros [= <- _]].
  case_decide; [by intros [= <- _]|].
  destruct (ObjectModel.mesh object_model) as [mesh|]; [|by intros [= <- _]].
  destruct (Mesh.focus_points mesh); [by intros [= <- _]|].
  unfold mbind, M_bind, modify, log, emit, modify. simpl.
  intros [= <- _] Hok. simpl. rewrite !dom_insert_L.
  by apply union_mono_l.
Qed.

Lemma focus_object_cb_sessions (object_id : string) (point_idx : Z) (s s' : server)
    (r : result (rpc_return (list Z))) :
  focus_object_cb object_id point_idx s = (s', r) →
  sessions_ok s → sessions_ok s'.
Proof.
  unfold sessions_ok. intros [-> Hdom]%focus_object_cb_dicts Hok. by etrans.
Qed.

Lemma clean_up_after_focus_sessions (obj_id : string) (s : server) :
  sessions_ok s → sessions_ok (clean_up_after_focus obj_id s).1.
Proof.
  unfold sessions_ok. simpl. intros Hok. rewrite !dom_delete_L.
  intros k [Hk Hne]%elem_of_difference. apply elem_of_difference. auto.
Qed.

(** So in every state these operations lead to, an object without a point
    dictionary has no recorded robot, and, with no project open (the guard
    of the handler answers otherwise), the implicit start raises. *)
Lemma implicit_start_always_raises
    (object_id : string) (point_idx : Z) (s : server)
    (inst : Generic.t) (obj_type : ObjectTypeMeta.t) (mesh : Mesh.t) :
  sessions_ok s →
  object_id ∉ dom (FOCUS_OBJECT s) →
  PROJECT s = None →
  odict.get (SCENE_OBJECT_INSTANCES s) object_id = Some inst →
  OBJECT_TYPES s !! Generic.class_name inst = Some obj_type →
  ObjectTypeMeta.object_model obj_type ≫= ObjectModel.mesh = Some mesh →
  (0 ≤ point_idx < Z.of_nat (length (Mesh.focus_points mesh)))%Z →
  (focus_object_cb object_id point_idx s).2 = Raise (KeyError (StrKey object_id)).
Proof.
  intros Hok Hnone. intros. eapply capture_without_recorded_robot_raises; eauto.
  apply not_elem_of_dom. intros Hin. apply Hnone, Hok, Hin.
Qed.

End focus.

Lemma capture_lists_indices_in_capture_order_witness :
  FOCUS_OBJECT Samples.point_1_server !! "box1" = Some [(1%Z, Samples.tool_pose)]
  ∧ (@focus_object_cb Samples.sample_externals "box1" 0 Samples.point_1_server).2
    = Ok (Success [1%Z; 0%Z])
  ∧ list_to_set [1%Z; 0%Z] =@{gset Z} {[0%Z]} ∪ list_to_set [1%Z]
  ∧ NoDup [1%Z; 0%Z]
  ∧ ∃ pose,
      FOCUS_OBJECT
        (@focus_object_cb Samples.sample_externals "box1" 0 Samples.point_1_server).1
      !! "box1" = Some [(1%Z, Samples.tool_pose); (0%Z, pose)].
Proof.
  assert (FOCUS_OBJECT Samples.point_1_server !! "box1"
          = Some [(1%Z, Samples.tool_pose)]) as Hsession by (vm_compute; reflexivity).
  assert (@focus_object_cb Samples.sample_externals "box1" 0 Samples.point_1_server
          = ((@focus_object_cb Samples.sample_externals "box1" 0
                Samples.point_1_server).1, Ok (Success [1%Z; 0%Z]))) as Hrun
    by (vm_compute; reflexivity).
  destruct (@capture_lists_indices_in_capture_order Samples.sample_externals
              "box1" 0%Z Samples.point_1_server _ [(1%Z, Samples.tool_pose)] [1%Z; 0%Z]
              Hsession Hrun) as (_ & Hset & Hnodup & pose & Hafter & _).
  split_and!.
  - exact Hsession.
  - vm_compute. reflexivity.
  - exact Hset.
  - apply Hnodup. apply NoDup_singleton.
  - exists pose. exact Hafter.
Defined.

(** C8 as the specification words it fails: point 1 is captured before point
    0, and the second capture returns the indices as [1; 0], which is not in
    ascending order. *)
Lemma indices_come_back_in_capture_order :
  (@focus_object_cb Samples.sample_externals "box1" 0 Samples.point_1_server).2
    = Ok (Success [1%Z; 0%Z])
  ∧ ¬ Sorted Z.le [1%Z; 0%Z].
Proof.
  split; [vm_compute; reflexivity|].
  intros Hsorted. inversion Hsorted as [|? ? _ Hhd]; subst.
  inversion Hhd as [|? ? Hle]; subst. lia.
Qed.

(** C7, the defect: [box1] is a registered object whose mesh has two focus
    points and no session exists for it; capturing point 0 creates the empty
    point dictionary and then raises [KeyError]: no robot was recorded for
    the object, and the handler reads [FOCUS_OBJECT_ROBOT] all the same. *)
Theorem implicit_focus_start_raises_key_error :
  odict.mem (SCENE_OBJECT_INSTANCES Samples.cell_server) "box1" = true
  ∧ FOCUS_OBJECT Samples.cell_server !! "box1" = None
  ∧ FOCUS_OBJECT_ROBOT Samples.cell_server !! "box1" = None
  ∧ (@focus_object_cb Samples.sample_externals "box1" 0 Samples.cell_server).2
    = Raise (KeyError (StrKey "box1"))
  ∧ FOCUS_OBJECT
      (@focus_object_cb Samples.sample_externals "box1" 0 Samples.cell_server).1
    !! "box1" = Some [].
Proof. split_and!; vm_compute; reflexivity. Qed.

(** The general facts at the samples. *)
Lemma run_action_ids_empty_witness :
  match @Validator.run Samples.sample_parsers
          Samples.box_actions Samples.box_scene Samples.twin_project with
  | Ok st => Validator.action_ids st = ∅ ∧ Validator.problems st = []
  | Raise _ => False
  end.
Proof.
  destruct (@Validator.run Samples.sample_parsers
              Samples.box_actions Samples.box_scene Samples.twin_project)
    as [st|e] eqn:Hrun.
  - split; [exact (@run_action_ids_empty Samples.sample_parsers _ _ _ _ Hrun)|].
    vm_compute in Hrun. by injection Hrun as <-.
  - vm_compute in Hrun. discriminate.
Defined.

Lemma implicit_start_always_raises_witness :
  (@focus_object_cb Samples.sample_externals "box1" 1 Samples.cell_server).2
  = Raise (KeyError (StrKey "box1")).
Proof.
  apply (@implicit_start_always_raises Samples.sample_externals "box1" 1%Z
           Samples.cell_server
           (Generic.mk "Box" "box1" Samples.origin (Some (MeshModel Samples.box_mesh)) false)
           Samples.box_meta Samples.box_mesh).
  - intros k Hk. vm_compute in Hk. discriminate.
  - intros Hk. vm_compute in Hk. discriminate.
  - reflexivity.
  - vm_compute. reflexivity.
  - vm_compute. reflexivity.
  - reflexivity.
  - simpl. lia.
Defined.

(** * Further properties of the handlers *)

(** ** What a returned list of problems implies *)

Section validator_returns.
Context `{Parsers}.

Lemma for_each_ok_elem {S A : Type} (body : S → A → result S) (l : list A) (st st' : S) x :
  for_each body l st = Ok st' → x ∈ l → ∃ s1 s2, body s1 x = Ok s2.
Proof.
  revert st. induction l as [|y l IH]; intros st Hrun Hx; [by apply elem_of_nil in Hx|].
  simpl in Hrun. destruct (body st y) as [st1|e] eqn:Hy; [|done]. simpl in Hrun.
  apply elem_of_cons in Hx as [->|Hx]; eauto.
Qed.

Lemma for_act_not_found action_type acts cur :
  Validator.find_action action_type acts = None →
  (Validator.for_act action_type acts cur).2 = false.
Proof.
  unfold Validator.find_action. revert cur.
  induction acts as [|b acts IH]; intros cur; simpl; [done|].
  rewrite filter_cons. case_decide; simpl; [done|]. apply IH.
Qed.

Lemma check_param_ok_inv objects_aps action st param st' :
  Validator.check_param objects_aps action st param = Ok st' →
  Validator.is_pose_or_joints (ActionParameter.type param) = true →
  ∀ o a v, parse_id param = Ok (o, a, v) → o ∈ dom objects_aps.
Proof.
  unfold Validator.check_param. intros Hrun Hty o a v Hparse.
  rewrite Hty, Hparse in Hrun.
  unfold getitem in Hrun. destruct (objects_aps !! o) eqn:Ho; [|done].
  apply elem_of_dom. eauto.
Qed.

Lemma check_action_ok_inv ACTIONS scene_objects scene_services objects_aps obj ap
    st action st' :
  Validator.check_action ACTIONS scene_objects scene_services objects_aps obj ap st action
    = Ok st' →
  ∃ obj_id action_type,
    parse_type action = Ok (obj_id, action_type)
    ∧ (obj_id ∈ dom scene_objects ∪ scene_services →
       ∃ acts, ACTIONS !! default obj_id (scene_objects !! obj_id) = Some acts
         ∧ (obj_id ∉ dom scene_objects →
            is_Some (Validator.find_action action_type acts))
         ∧ ∀ p o a v, p ∈ Action.parameters action →
             Validator.is_pose_or_joints (ActionParameter.type p) = true →
             parse_id p = Ok (o, a, v) → o ∈ dom objects_aps).
Proof.
  unfold Validator.check_action.
  set (st1 := if decide _ then _ else st). clearbody st1.
  destruct (parse_type action) as [[obj_id action_type]|e]; simpl; [|done].
  intros Hrun. exists obj_id, action_type. split; [done|]. intros Hin.
  rewrite decide_True in Hrun by done.
  destruct (getitem ACTIONS _) as [acts|e] eqn:Hget; simpl in Hrun; [|done].
  exists acts. split.
  { unfold getitem in Hget. destruct (ACTIONS !! _); by simplify_eq. }
  destruct (Validator.for_act action_type acts (Validator.act st1)) as [cur broke] eqn:Hfor.
  split.
  - intros Hnot.
    destruct (Validator.find_action action_type acts) eqn:Hfind; [eauto|].
    apply (for_act_not_found _ _ (Validator.act st1)) in Hfind.
    rewrite Hfor in Hfind. simpl in Hfind. subst broke.
    unfold getitem in Hrun.
    apply not_elem_of_dom in Hnot. rewrite Hnot in Hrun. done.
  - destruct (if broke then _ else _) as [st3|e]; simpl in Hrun; [|done].
    destruct (Validator.act st3); [|done].
    intros p o a v Hp Hty Hparse.
    destruct (for_each_ok_elem _ _ _ _ p Hrun Hp) as (s1 & s2 & Hbody).
    by eapply check_param_ok_inv.
Qed.

(** When [project_problems] returns a list at all, every lookup it made has
    succeeded: each action of an object that is in the scene has a type
    that parses; when the target is an object or a service of the scene, the
    catalogue has an entry under the key the validator used (the type of a
    scene object, the id itself for a service), an action aimed at a service
    is in that entry, and every POSE or JOINTS value that parses names an
    object of the project. *)
Theorem returned_problems_passed_every_lookup ACTIONS scene project problems
    o ap action :
  Validator.project_problems ACTIONS scene project = Ok problems →
  o ∈ Project.objects project →
  ProjectObject.id o ∈ dom (Validator.scene_objects_of scene) →
  ap ∈ ProjectObject.action_points o →
  action ∈ ActionPoint.actions ap →
  ∃ obj_id action_type,
    parse_type action = Ok (obj_id, action_type)
    ∧ (obj_id ∈ dom (Validator.scene_objects_of scene) ∪ Validator.scene_services_of scene →
       ∃ acts, ACTIONS !! default obj_id (Validator.scene_objects_of scene !! obj_id)
               = Some acts
         ∧ (obj_id ∉ dom (Validator.scene_objects_of scene) →
            is_Some (Validator.find_action action_type acts))
         ∧ ∀ p o' a' v', p ∈ Action.parameters action →
             Validator.is_pose_or_joints (ActionParameter.type p) = true →
             parse_id p = Ok (o', a', v') → o' ∈ dom (Validator.objects_aps_of project)).
Proof.
  unfold Validator.project_problems, Validator.run.
  destruct (for_each _ _ _) as [st|e] eqn:Hrun; [|done]. intros _ Ho Hscene Hap Haction.
  destruct (for_each_ok_elem _ _ _ _ o Hrun Ho) as (s1 & s2 & Hobj).
  unfold Validator.check_object in Hobj. rewrite decide_True in Hobj by done.
  destruct (for_each_ok_elem _ _ _ _ ap Hobj Hap) as (s3 & s4 & Hcheck).
  unfold Validator.check_ap in Hcheck.
  destruct (for_each (Validator.check_joints ap) _ s3) as [s5|e]; simpl in Hcheck; [|done].
  destruct (for_each_ok_elem _ _ _ _ action Hcheck Haction) as (s6 & s7 & Hact).
  by eapply check_action_ok_inv.
Qed.

Lemma missing_objects_loop ACTIONS scene_objects scene_services objects_aps objs st :
  (∀ o, o ∈ objs → ProjectObject.id o ∉ dom scene_objects) →
  for_each (Validator.check_object ACTIONS scene_objects scene_services objects_aps) objs st
  = Ok (Validator.mkLocals (Validator.action_ids st) (Validator.act st)
          (Validator.problems st
           ++ ((λ o, "Object ID " +:+ ProjectObject.id o +:+ " does not exist in scene.")
                 <$> objs))).
Proof.
  revert st. induction objs as [|o objs IH]; intros st Hmissing.
  - simpl. rewrite app_nil_r. by destruct st.
  - cbn [for_each].
    assert (Validator.check_object ACTIONS scene_objects scene_services objects_aps st o
            = Ok (Validator.append st ("Object ID " +:+ ProjectObject.id o
                                       +:+ " does not exist in scene."))) as ->.
    { unfold Validator.check_object. by rewrite decide_False by (apply Hmissing; left). }
    unfold mbind at 1, result_bind at 1.
    rewrite IH by (intros ??; apply Hmissing; by right).
    simpl. by rewrite <- app_assoc.
Qed.

(** When no object of the project is in the scene, the problems are one
    message for each object, in the order of the project; nothing an
    object holds is parsed or looked up. *)
Theorem objects_missing_from_scene_are_listed ACTIONS scene project :
  (∀ o, o ∈ Project.objects project →
        ProjectObject.id o ∉ dom (Validator.scene_objects_of scene)) →
  Validator.project_problems ACTIONS scene project
  = Ok ((λ o, "Object ID " +:+ ProjectObject.id o +:+ " does not exist in scene.")
          <$> Project.objects project).
Proof.
  intros Hmissing. unfold Validator.project_problems, Validator.run.
  by rewrite missing_objects_loop.
Qed.

End validator_returns.

Lemma returned_problems_passed_every_lookup_witness :
  @Validator.project_problems Samples.sample_parsers
     Samples.box_actions Samples.box_scene Samples.tidy_project = Ok []
  ∧ ∃ acts, Samples.box_actions !! "Box" = Some acts
            ∧ ∀ p o a v, p ∈ Action.parameters (Samples.place "a2") →
                @parse_id Samples.sample_parsers p = Ok (o, a, v) → o = "box1".
Proof.
  assert (@Validator.project_problems Samples.sample_parsers
            Samples.box_actions Samples.box_scene Samples.tidy_project = Ok []) as Hrun
    by (vm_compute; reflexivity).
  split; [exact Hrun|].
  destruct (@returned_problems_passed_every_lookup Samples.sample_parsers
              Samples.box_actions Samples.box_scene Samples.tidy_project []
              (ProjectObject.mk "box1"
                 [ActionPoint.mk "ap1" (mkPosition 0 0 0) []
                    [RobotJoints.mk "j1" "robot1" [("joint1", 0%Z)] true]
                    [Samples.pick "a1"; Samples.place "a2"]])
              (ActionPoint.mk "ap1" (mkPosition 0 0 0) []
                 [RobotJoints.mk "j1" "robot1" [("joint1", 0%Z)] true]
                 [Samples.pick "a1"; Samples.place "a2"])
              (Samples.place "a2") Hrun)
    as (obj_id & action_type & Hparse & Hrest).
  - left.
  - apply elem_of_dom. exists "Box". vm_compute. reflexivity.
  - left.
  - right. left.
  - vm_compute in Hparse. injection Hparse as <- <-.
    destruct Hrest as (acts & Hacts & _ & Hparams).
    { apply elem_of_union_l, elem_of_dom. exists "Box". vm_compute. reflexivity. }
    exists acts. split.
    { rewrite <- Hacts. vm_compute. reflexivity. }
    intros p o a v Hp Hid.
    assert (o ∈ dom (Validator.objects_aps_of Samples.tidy_project)) as Ho.
    { eapply Hparams; [exact Hp| |exact Hid].
      apply list_elem_of_singleton in Hp as ->. reflexivity. }
    apply elem_of_dom in Ho as [aps Ho].
    destruct (decide (o = "box1")) as [->|Hne]; [done|].
    unfold Validator.objects_aps_of in Ho. simpl in Ho.
    rewrite lookup_insert_ne in Ho by done. done.
Defined.

Lemma objects_missing_from_scene_are_listed_witness :
  @Validator.project_problems Samples.sample_parsers
     Samples.box_actions (Scene.mk "scene2" [] []) Samples.tidy_project
  = Ok ["Object ID box1 does not exist in scene."].
Proof.
  apply (@objects_missing_from_scene_are_listed Samples.sample_parsers
           Samples.box_actions (Scene.mk "scene2" [] []) Samples.tidy_project).
  intros o _ Hin. vm_compute in Hin. discriminate.
Defined.

(** ** The sender and the response slots *)

Section bridge_facts.

Lemma sender_pass_conserves queue p queue' sent ctl :
  Bridge.sender_pass queue p = (queue', sent, ctl) →
  option_list sent ++ queue' ≡ₚ queue ++ pass_puts queue p.
Proof.
  unfold Bridge.sender_pass, pass_puts. destruct (Bridge.receiver_done p).
  { intros [= <- <- <-]. simpl. by rewrite app_nil_r. }
  destruct (queue ++ Bridge.put_while_waiting p) as [|msg rest] eqn:Hq.
  { apply app_eq_nil in Hq as [-> _]. by intros [= <- <- <-]. }
  rewrite (assoc_L (++)), Hq.
  destruct (Bridge.send_closed p); intros [= <- <- <-]; simpl; [|done].
  by rewrite <- Permutation_cons_append.
Qed.

Lemma sender_loop_conserves queue passes queue' sent :
  Bridge.sender_loop queue passes = (queue', sent) →
  sent ++ queue' ≡ₚ queue ++ loop_puts queue passes.
Proof.
  revert queue queue' sent. induction passes as [|p passes IH]; intros queue queue' sent.
  { simpl. intros [= <- <-]. by rewrite app_nil_r. }
  simpl. destruct (Bridge.sender_pass queue p) as [[q1 s1] ctl] eqn:Hpass.
  apply sender_pass_conserves in Hpass. destruct ctl.
  - destruct (Bridge.sender_loop q1 passes) as [q2 s2] eqn:Hrest.
    intros [= <- <-]. apply IH in Hrest.
    rewrite (assoc_L (++) queue), <- Hpass, <- !(assoc_L (++)).
    by rewrite <- Hrest.
  - by intros [= <- <-].
Qed.

(** The client neither loses nor duplicates a request: whatever the
    connections do, the requests written to the manager together with the
    requests left in the queue are the requests that were in the queue
    together with those put meanwhile, each as often as it was put. *)
Theorem requests_are_written_or_kept queue attempts queue' sent :
  Bridge.project_manager_client queue attempts = (queue', sent) →
  sent ++ queue' ≡ₚ queue ++ client_puts queue attempts.
Proof.
  revert queue queue' sent.
  induction attempts as [|[more|passes] attempts IH]; intros queue queue' sent.
  - simpl. intros [= <- <-]. by rewrite app_nil_r.
  - simpl. intros Hrun%IH. by rewrite Hrun, (assoc_L (++)).
  - simpl. destruct (Bridge.sender_loop queue passes) as [q1 s1] eqn:Hloop.
    destruct (Bridge.project_manager_client q1 attempts) as [q2 s2] eqn:Hrest.
    intros [= <- <-]. apply sender_loop_conserves in Hloop. apply IH in Hrest.
    simpl. rewrite (assoc_L (++) queue), <- Hloop, <- !(assoc_L (++)).
    by rewrite <- Hrest.
Qed.

(** Left alone, the sender writes the queue in its order, one request for
    each pass. *)
Theorem undisturbed_sender_writes_in_queue_order queue passes :
  Forall undisturbed passes →
  Bridge.sender_loop queue passes
  = (drop (length passes) queue, take (length passes) queue).
Proof.
  revert queue. induction passes as [|p passes IH]; intros queue Hq.
  { simpl. by rewrite drop_0. }
  apply Forall_cons in Hq as [(Hdone & Hwait & Hclosed & Hsend) Hq].
  simpl. unfold Bridge.sender_pass. rewrite Hdone, Hwait, app_nil_r.
  destruct queue as [|msg rest].
  - rewrite IH by done. by rewrite drop_nil, take_nil.
  - rewrite Hclosed, Hsend, app_nil_r. rewrite IH by done. done.
Qed.

(** A request with a fresh id that is registered, answered and collected
    returns the response delivered for it and leaves the slots as they were
    before, the request having gone to the end of the queue; between delivery
    and collection a second response for the id finds the slot full. *)
Theorem answered_request_restores_the_slots (st : Bridge.state) (req : Request.t)
    (resp : Response.t) :
  Request.id req ∉ dom (Bridge.MANAGER_RPC_RESPONSES st) →
  Response.id resp = Request.id req →
  ∃ st1 st2,
    Bridge.manager_request_register st req = Ok st1
    ∧ Bridge.deliver st1 resp = Ok st2
    ∧ Bridge.manager_request_collect st2 req
      = Some (resp, Bridge.mkState (Bridge.MANAGER_RPC_REQUEST_QUEUE st ++ [req])
                                   (Bridge.MANAGER_RPC_RESPONSES st))
    ∧ (∀ resp', Response.id resp' = Request.id req → Bridge.deliver st2 resp' = Raise QueueFull).
Proof.
  intros Hfresh Hid.
  set (queue := Bridge.MANAGER_RPC_REQUEST_QUEUE st ++ [req]).
  set (slots := Bridge.MANAGER_RPC_RESPONSES st).
  exists (Bridge.mkState queue (<[Request.id req := []]> slots)),
         (Bridge.mkState queue (<[Request.id req := [resp]]>
                                  (<[Request.id req := []]> slots))).
  unfold Bridge.manager_request_register, Bridge.deliver, Bridge.manager_request_collect.
  cbn [Bridge.MANAGER_RPC_RESPONSES Bridge.MANAGER_RPC_REQUEST_QUEUE].
  rewrite !Hid. fold slots.
  rewrite decide_False by done. rewrite !lookup_insert_eq.
  split_and!; [done|done| |].
  - do 3 f_equal. rewrite delete_insert_eq, delete_insert_eq. apply delete_id.
    by apply not_elem_of_dom.
  - intros resp' ->. by rewrite lookup_insert_eq.
Qed.

End bridge_facts.

Lemma requests_are_written_or_kept_witness :
  Bridge.project_manager_client [Samples.run_request]
    [Bridge.Refused [Samples.stop_request];
     Bridge.Connected [Bridge.mkPass false [Request.mk 3 "pauseProject" ""] true
                                     [Request.mk 4 "resumeProject" ""]];
     Bridge.Connected [Samples.quiet_pass; Samples.quiet_pass]]
  = ([Request.mk 4 "resumeProject" ""; Samples.run_request],
     [Samples.stop_request; Request.mk 3 "pauseProject" ""])
  ∧ [Samples.stop_request; Request.mk 3 "pauseProject" ""]
    ++ [Request.mk 4 "resumeProject" ""; Samples.run_request]
    ≡ₚ [Samples.run_request]
       ++ [Samples.stop_request; Request.mk 3 "pauseProject" "";
           Request.mk 4 "resumeProject" ""].
Proof.
  assert (Bridge.project_manager_client [Samples.run_request]
            [Bridge.Refused [Samples.stop_request];
             Bridge.Connected [Bridge.mkPass false [Request.mk 3 "pauseProject" ""] true
                                             [Request.mk 4 "resumeProject" ""]];
             Bridge.Connected [Samples.quiet_pass; Samples.quiet_pass]]
          = ([Request.mk 4 "resumeProject" ""; Samples.run_request],
             [Samples.stop_request; Request.mk 3 "pauseProject" ""])) as Hrun
    by (vm_compute; reflexivity).
  split; [exact Hrun|].
  exact (requests_are_written_or_kept _ _ _ _ Hrun).
Defined.

Lemma undisturbed_sender_writes_in_queue_order_witness :
  Bridge.sender_loop [Samples.run_request; Samples.stop_request]
    [Samples.quiet_pass; Samples.quiet_pass; Samples.quiet_pass]
  = ([], [Samples.run_request; Samples.stop_request]).
Proof.
  apply (undisturbed_sender_writes_in_queue_order
           [Samples.run_request; Samples.stop_request]
           [Samples.quiet_pass; Samples.quiet_pass; Samples.quiet_pass]).
  repeat constructor.
Defined.

Lemma answered_request_restores_the_slots_witness :
  ∃ st1 st2,
    Bridge.manager_request_register Samples.idle_bridge Samples.run_request = Ok st1
    ∧ Bridge.deliver st1 Samples.run_response = Ok st2
    ∧ Bridge.manager_request_collect st2 Samples.run_request
      = Some (Samples.run_response, Bridge.mkState [Samples.run_request] ∅).
Proof.
  destruct (answered_request_restores_the_slots Samples.idle_bridge Samples.run_request
              Samples.run_response)
    as (st1 & st2 & Hregister & Hdeliver & Hcollect & _).
  - intros Hin. vm_compute in Hin. discriminate.
  - reflexivity.
  - exists st1, st2. split_and!; [exact Hregister|exact Hdeliver|exact Hcollect].
Defined.

(** ** The handlers that edit the scene *)

Section scene_edits.
Context `{Externals}.

Lemma collision_inv obj rs add remove s s' r :
  collision obj rs add remove s = (s', r) →
  only_effects s s' ∧ ∀ e, r = Raise e → as_arcor2_exception e = None.
Proof.
  unfold collision. destruct (negb (xorb add remove)).
  { intros [= <- <-]. split; [apply only_effects_refl|]. by intros e [= <-]. }
  destruct (Generic.collision_model obj).
  2:{ intros [= <- <-]. split; [apply only_effects_refl|done]. }
  unfold mbind at 1, M_bind at 1, get_state at 1.
  destruct (from_option Some (find_robot_service s) rs).
  2:{ intros [= <- <-]. split; [apply only_effects_refl|done]. }
  unfold try_except_arcor2, mbind, M_bind, emit, modify, lift, log, emit, modify.
  destruct ((if add then add_collision else remove_collision) t obj) as [[]|e].
  - intros [= <- <-]. split; [by eexists|done].
  - destruct (as_arcor2_exception e) eqn:He; intros [= <- <-].
    + split; [by eexists|done].
    + split; [by eexists|]. by intros ? [= <-].
Qed.

Lemma create_instance_inv obj obj_meta add_to_scene s s' r :
  SCENE s ≠ None →
  create_instance obj obj_meta add_to_scene s = (s', r) →
  match r with
  | Ok (true, msg) =>
      msg = "ok"
      ∧ ∃ cls srv_args obj_inst,
          new_object cls srv_args (SceneObject.id obj) (SceneObject.pose obj)
            (ObjectTypeMeta.object_model obj_meta ≫= ObjectModel.model) = Ok obj_inst
          ∧ only_effects (with_object obj obj_inst add_to_scene s) s'
  | Ok (false, _) => s' = s
  | Raise e =>
      (as_arcor2_exception e ≠ None → s' = s)
      ∧ (s' = s ∨ ∃ obj_inst, only_effects (with_object obj obj_inst add_to_scene s) s')
  end.
Proof.
  intros Hscene. unfold create_instance.
  unfold mbind at 1, M_bind at 1, lift at 1.
  destruct (if decide _ then _ else _) as [cls|e]; [|intros [= <- <-]; eauto].
  unfold mbind at 1, M_bind at 1, get_state at 1.
  unfold mbind at 1, M_bind at 1.
  match goal with
  | |- context [(?m s)] =>
      match type of m with M (_ + _) => destruct (m s) as [s1 made] eqn:Hmade end
  end.
  assert (s1 = s ∧ match made with
                   | Ok (inr obj_inst) =>
                       ∃ srv_args, new_object cls srv_args (SceneObject.id obj)
                         (SceneObject.pose obj)
                         (ObjectTypeMeta.object_model obj_meta ≫= ObjectModel.model)
                         = Ok obj_inst
                   | Ok (inl (b, _)) => b = false
                   | Raise _ => True
                   end) as [-> Hinst].
  { revert Hmade. case_decide.
    - unfold mbind, M_bind, lift.
      destruct (new_object _ _ _ _ _) eqn:Hnew; intros [= <- <-]; eauto.
    - destruct (resolve_srv_args _ _); [by intros [= <- <-]|].
      destruct (new_object _ _ _ _ _) as [|[]] eqn:Hnew; intros [= <- <-]; eauto. }
  destruct made as [[[b msg]|obj_inst]|e];
    [intros [= <- <-]; by subst| |intros [= <- <-]; eauto].
  destruct Hinst as [srv_args Hnew].
  unfold mbind at 1, M_bind at 1, modify at 1.
  unfold mbind at 1, M_bind at 1.
  set (s1 := set_SCENE_OBJECT_INSTANCES _ s).
  match goal with
  | |- context [(?m s1)] =>
      match type of m with M () => destruct (m s1) as [s2 rr] eqn:Happend end
  end.
  assert (s2 = with_object obj obj_inst add_to_scene s ∧ rr = Ok ()) as [-> ->].
  { revert Happend. unfold with_object. fold s1. destruct add_to_scene.
    - unfold mbind, M_bind, get_state. simpl.
      destruct (SCENE s); [|done]. by intros [= <- <-].
    - by intros [= <- <-]. }
  unfold mbind at 1, M_bind at 1.
  destruct (collision _ _ _ _ _) as [s3 rc] eqn:Hcoll.
  apply collision_inv in Hcoll as [Heff Hexn].
  destruct rc as [[]|e]; intros [= <- <-].
  - split; [done|]. eauto 10.
  - split; [|eauto]. intros Harc. by rewrite (Hexn e) in Harc.
Qed.

Lemma add_object_to_scene_inv obj add_to_scene srv_obj_ok s s' r :
  add_object_to_scene obj add_to_scene srv_obj_ok s = (s', r) →
  match r with
  | Ok (true, msg) =>
      msg = "ok"
      ∧ ∃ obj_meta cls srv_args obj_inst,
          OBJECT_TYPES s !! SceneObject.type obj = Some obj_meta
          ∧ services_refusal s obj_meta srv_obj_ok = None
          ∧ ObjectTypeMeta.abstract obj_meta = false
          ∧ odict.mem (SCENE_OBJECT_INSTANCES s) (SceneObject.id obj) = false
          ∧ odict.mem (SERVICES_INSTANCES s) (SceneObject.id obj) = false
          ∧ is_valid_identifier (SceneObject.id obj) = true
          ∧ new_object cls srv_args (SceneObject.id obj) (SceneObject.pose obj)
              (ObjectTypeMeta.object_model obj_meta ≫= ObjectModel.model) = Ok obj_inst
          ∧ only_effects (with_object obj obj_inst add_to_scene s) s'
  | Ok (false, _) => only_effects s s'
  | Raise _ =>
      only_effects s s'
      ∨ (odict.mem (SCENE_OBJECT_INSTANCES s) (SceneObject.id obj) = false
         ∧ ∃ obj_inst, only_effects (with_object obj obj_inst add_to_scene s) s')
  end.
Proof.
  unfold add_object_to_scene.
  unfold mbind at 1, M_bind at 1, get_state at 1.
  destruct (SCENE s) as [scene|] eqn:Hscene;
    [|intros [= <- <-]; left; apply only_effects_refl].
  destruct (OBJECT_TYPES s !! _) as [obj_meta|] eqn:Hmeta;
    [|intros [= <- <-]; apply only_effects_refl].
  destruct (services_refusal _ _ _) eqn:Hrefusal;
    [intros [= <- <-]; apply only_effects_refl|].
  destruct (ObjectTypeMeta.abstract obj_meta) eqn:Habstract;
    [intros [= <- <-]; apply only_effects_refl|].
  destruct (odict.mem (SCENE_OBJECT_INSTANCES s) _) eqn:Hobj;
    [intros [= <- <-]; apply only_effects_refl|].
  destruct (odict.mem (SERVICES_INSTANCES s) _) eqn:Hsrv;
    [intros [= <- <-]; apply only_effects_refl|].
  destruct (is_valid_identifier _) eqn:Hvalid;
    [|intros [= <- <-]; apply only_effects_refl].
  cbn [orb negb].
  unfold mbind at 1, M_bind at 1, log at 1, emit at 1, modify at 1.
  set (s0 := set_effects _ s).
  unfold try_except_arcor2.
  destruct (create_instance obj obj_meta add_to_scene s0) as [s1 rc] eqn:Hcreate.
  apply create_instance_inv in Hcreate; [|subst s0; simpl; by rewrite Hscene].
  destruct rc as [[[] msg]|e].
  - intros [= <- <-]. destruct Hcreate as (-> & cls & srv_args & obj_inst & Hnew & Heff).
    split; [done|]. exists obj_meta, cls, srv_args, obj_inst. split_and!; try done.
    destruct Heff as [effs ->]. exists effs. subst s0. unfold with_object. simpl.
    rewrite Hscene. by destruct add_to_scene.
  - intros [= <- <-]. subst s1 s0. by eexists.
  - destruct Hcreate as [Harc Hstate]. destruct (as_arcor2_exception e) eqn:He.
    + rewrite Harc by done. unfold mbind, M_bind, log, emit, modify.
      intros [= <- <-]. subst s0. by eexists.
    + intros [= <- <-]. destruct Hstate as [->|[obj_inst [effs ->]]].
      * left. subst s0. by eexists.
      * right. split; [done|]. exists obj_inst, effs. subst s0. unfold with_object. simpl.
        rewrite Hscene. by destruct add_to_scene.
Qed.

Lemma odict_set_new {K V : Type} `{EqDecision K} (d : list (K * V)) (k : K) (v : V) :
  odict.mem d k = false → odict.set d k v = d ++ [(k, v)].
Proof.
  unfold odict.mem, odict.keys. intros Hmem%bool_decide_eq_false.
  induction d as [|[k' v'] d IH]; [done|].
  rewrite fmap_cons in Hmem. apply not_elem_of_cons in Hmem as [Hne Hmem].
  cbn [odict.set]. rewrite decide_False by done. simpl. by rewrite IH.
Qed.

Lemma for_collision_inv rs objs s s' r :
  for_ (λ obj_inst, collision obj_inst rs true false) objs s = (s', r) →
  only_effects s s'.
Proof.
  revert s. induction objs as [|o objs IH]; intros s; simpl.
  { intros [= <- <-]. apply only_effects_refl. }
  unfold mbind at 1, M_bind at 1.
  destruct (collision o rs true false s) as [s1 rc] eqn:Hc.
  apply collision_inv in Hc as [Heff _].
  destruct rc; [|by intros [= <- <-]].
  intros Hrest%IH. by eapply only_effects_trans.
Qed.

Lemma add_service_to_scene_inv srv s s' r :
  add_service_to_scene srv s = (s', r) →
  (only_effects s s' ∧ ∀ msg, r ≠ Ok (true, msg))
  ∨ (∃ cls_def srv_inst,
       SceneService.type srv ∈ dom (SERVICE_TYPES s)
       ∧ odict.mem (SERVICES_INSTANCES s) (SceneService.type srv) = false
       ∧ load_service_type (SceneService.type srv) = Ok cls_def
       ∧ (ServiceClass.is_robot_service cls_def = true → find_robot_service s = None)
       ∧ new_service cls_def (SceneService.configuration_id srv) = Ok srv_inst
       ∧ only_effects (set_SERVICES_INSTANCES
                         (odict.set (SERVICES_INSTANCES s) (SceneService.type srv) srv_inst) s)
                      s'
       ∧ ∀ b msg, r = Ok (b, msg) → b = true ∧ msg = "ok").
Proof.
  unfold add_service_to_scene.
  unfold mbind at 1, M_bind at 1, get_state at 1.
  case_decide as Hknown.
  { intros [= <- <-]. left. split; [apply only_effects_refl|done]. }
  destruct (odict.mem _ _) eqn:Hmem.
  { intros [= <- <-]. left. split; [apply only_effects_refl|done]. }
  unfold mbind at 1, M_bind at 1, lift at 1.
  destruct (load_service_type _) as [cls_def|e] eqn:Hload.
  2:{ intros [= <- <-]. left. split; [apply only_effects_refl|done]. }
  destruct (ServiceClass.is_robot_service cls_def && _) eqn:Hrobot.
  { intros [= <- <-]. left. split; [apply only_effects_refl|done]. }
  unfold mbind at 1, M_bind at 1.
  unfold try_except_arcor2 at 1.
  unfold mbind at 1, M_bind at 1, lift at 1.
  destruct (new_service _ _) as [srv_inst|e] eqn:Hnew.
  2:{ destruct (as_arcor2_exception e).
      - unfold mbind, M_bind, log, emit, modify. cbn. intros [= <- <-]. left.
        split; [by eexists|done].
      - intros [= <- <-]. left. split; [apply only_effects_refl|done]. }
  cbn [mret M_ret].
  unfold mbind at 1, M_bind at 1, modify at 1.
  set (s1 := set_SERVICES_INSTANCES _ s).
  unfold mbind at 1, M_bind at 1.
  match goal with
  | |- context [(?m s1)] =>
      match type of m with M () => destruct (m s1) as [s2 rr] eqn:Hcoll end
  end.
  assert (only_effects s1 s2) as Heff.
  { revert Hcoll. destruct (Service.is_robot_service srv_inst).
    - unfold mbind at 1, M_bind at 1, log at 1, emit at 1, modify at 1.
      unfold mbind at 1, M_bind at 1, get_state at 1.
      intros [effs ->]%for_collision_inv. by eexists.
    - intros [= <- <-]. apply only_effects_refl. }
  intros Hrest. right. exists cls_def, srv_inst. split_and!; try done.
  - intros Hr. rewrite Hr in Hrobot. simpl in Hrobot.
    apply bool_decide_eq_false in Hrobot.
    destruct (find_robot_service s); [|done]. destruct Hrobot. eauto.
  - destruct rr; unfold mret, M_ret in Hrest; simplify_eq; exact Heff.
  - intros b msg ->. destruct rr; unfold mret, M_ret in Hrest; by simplify_eq.
Qed.

Lemma find_robot_service_none s :
  find_robot_service s = None ↔ robot_services s = [].
Proof.
  unfold find_robot_service, robot_services. by destruct (filter _ _).
Qed.

Lemma registry_matches_only_effects s s' :
  only_effects s s' → registry_matches s → registry_matches s'.
Proof. by intros [effs ->]. Qed.

Lemma odict_mem_false {V : Type} (d : list (string * V)) (k : string) :
  odict.mem d k = false ↔ k ∉ odict.keys d.
Proof. unfold odict.mem. apply bool_decide_eq_false. Qed.

Lemma odict_mem_true {V : Type} (d : list (string * V)) (k : string) :
  odict.mem d k = true ↔ k ∈ odict.keys d.
Proof. unfold odict.mem. apply bool_decide_eq_true. Qed.

Lemma odict_get_mem {V : Type} (d : list (string * V)) (k : string) :
  is_Some (odict.get d k) ↔ k ∈ odict.keys d.
Proof.
  unfold odict.keys. induction d as [|[k' v'] d IH]; simpl.
  - split; [by intros [? ?]|by intros ?%elem_of_nil].
  - rewrite elem_of_cons. case_decide as Hk.
    + split; [auto|eauto].
    + rewrite IH. split; [auto|]. by intros [?|?].
Qed.

Lemma odict_keys_del {V : Type} (d : list (string * V)) (k : string) :
  odict.keys (odict_del d k) = filter (λ k', k' ≠ k) (odict.keys d).
Proof.
  unfold odict.keys, odict_del. induction d as [|[k' v'] d IH]; [done|].
  rewrite fmap_cons, !filter_cons. cbn [fst].
  case_decide; [rewrite fmap_cons|]; by rewrite IH.
Qed.

Lemma odict_del_set_new {V : Type} (d : list (string * V)) (k : string) (v : V) :
  odict.mem d k = false → odict_del (odict.set d k v) k = d.
Proof.
  intros Hmem. rewrite odict_set_new by done. unfold odict_del.
  rewrite filter_app, filter_cons, filter_nil. simpl.
  rewrite decide_False by (by intros ?). rewrite app_nil_r.
  apply odict_mem_false in Hmem. unfold odict.keys in Hmem.
  induction d as [|[k' v'] d IH]; [done|].
  rewrite fmap_cons in Hmem. apply not_elem_of_cons in Hmem as [Hne Hmem].
  rewrite filter_cons. simpl. rewrite decide_True by done. by rewrite IH.
Qed.

Lemma list_to_set_filter_ne (l : list string) (k : string) :
  list_to_set (filter (λ k', k' ≠ k) l) =@{gset string} list_to_set l ∖ {[k]}.
Proof.
  apply set_eq. intros x.
  rewrite elem_of_difference, !elem_of_list_to_set, list_elem_of_filter, elem_of_singleton.
  split; intros [? ?]; done.
Qed.

Lemma filter_ids (objects : list SceneObject.t) (id : string) :
  SceneObject.id <$> filter (λ obj, SceneObject.id obj ≠ id) objects
  = filter (λ k', k' ≠ id) (SceneObject.id <$> objects).
Proof.
  induction objects as [|o objects IH]; [done|].
  rewrite fmap_cons, !filter_cons. case_decide; [rewrite fmap_cons|]; by rewrite IH.
Qed.

Lemma filter_types (services : list SceneService.t) (id : string) :
  SceneService.type <$> filter (λ srv, SceneService.type srv ≠ id) services
  = filter (λ k', k' ≠ id) (SceneService.type <$> services).
Proof.
  induction services as [|o services IH]; [done|].
  rewrite fmap_cons, !filter_cons. case_decide; [rewrite fmap_cons|]; by rewrite IH.
Qed.

(** What the two guards let through. *)
Lemma guards_inv {R : Type} (coro : M (rpc_return R)) s s' r :
  scene_needed (no_project coro) s = (s', r) →
  (¬ editable s ∧ s' = s ∧ ∃ msg, r = Ok (Failure msg))
  ∨ (editable s ∧ coro s = (s', r)).
Proof.
  unfold scene_needed, no_project, editable.
  unfold mbind at 1, M_bind at 1, get_state at 1.
  destruct (SCENE s) as [scene|] eqn:Hscene.
  2:{ intros [= <- <-]. left. split_and!; eauto. by intros [(? & ? & _) _]. }
  case_decide.
  { intros [= <- <-]. left. split_and!; eauto. intros [(? & ? & ?) _]. by simplify_eq. }
  unfold mbind at 1, M_bind at 1, get_state at 1.
  destruct (PROJECT s) eqn:Hproject.
  { intros [= <- <-]. left. split_and!; eauto. by intros [_ ?]. }
  intros Hcoro. right. eauto.
Qed.

(** What [remove_from_scene_cb] leaves behind when it returns. *)
Lemma remove_from_scene_cb_inv id s s' r :
  remove_from_scene_cb id s = (s', Ok r) →
  (∃ msg, r = Failure msg ∧ s' = s
          ∧ (editable s → id ∉ odict.keys (SCENE_OBJECT_INSTANCES s)))
  ∨ (∃ scene, r = Success () ∧ SCENE s = Some scene ∧ editable s
       ∧ ((id ∈ odict.keys (SCENE_OBJECT_INSTANCES s)
           ∧ only_effects
               (set_SCENE_OBJECT_INSTANCES (odict_del (SCENE_OBJECT_INSTANCES s) id)
                  (set_SCENE (Some (Scene.mk (Scene.id scene)
                                (filter (λ obj, SceneObject.id obj ≠ id) (Scene.objects scene))
                                (Scene.services scene))) s)) s')
          ∨ ((id ∉ odict.keys (SCENE_OBJECT_INSTANCES s))
             ∧ id ∈ odict.keys (SERVICES_INSTANCES s)
             ∧ service_user (OBJECT_TYPES s) id (Scene.objects scene) = Ok None
             ∧ only_effects
                 (set_SERVICES_INSTANCES (odict_del (SERVICES_INSTANCES s) id)
                    (set_SCENE (Some (Scene.mk (Scene.id scene) (Scene.objects scene)
                                  (filter (λ srv, SceneService.type srv ≠ id)
                                          (Scene.services scene)))) s)) s'))).
Proof.
  unfold remove_from_scene_cb.
  intros [(Hno & -> & msg & [= ->])|(Hedit & Hrun)]%guards_inv.
  { left. exists msg. split_and!; [done..|]. by intros ?. }
  destruct Hedit as [[scene [Hscene Hid]] Hproject].
  assert (editable s) as Hedit by (split; eauto).
  revert Hrun. unfold mbind at 1, M_bind at 1, get_state at 1. rewrite Hscene.
  unfold mbind at 1, M_bind at 1.
  destruct (odict.get (SCENE_OBJECT_INSTANCES s) id) as [obj_inst|] eqn:Hget.
  - unfold mbind at 1, M_bind at 1, modify at 1.
    unfold mbind at 1, M_bind at 1.
    destruct (collision _ _ _ _ _) as [s1 rc] eqn:Hcoll.
    apply collision_inv in Hcoll as [[effs ->] _].
    destruct rc as [[]|e]; [|by intros [= <- <-]].
    unfold mbind, M_bind, modify, emit, modify. cbn. intros [= <- <-].
    right. exists scene. split_and!; [done..|]. left. split.
    + apply odict_get_mem. eauto.
    + by eexists.
  - assert (id ∉ odict.keys (SCENE_OBJECT_INSTANCES s)) as Hnotin.
    { intros Hin%odict_get_mem. rewrite Hget in Hin. by destruct Hin. }
    destruct (odict.mem (SERVICES_INSTANCES s) id) eqn:Hmem.
    2:{ cbn. intros [= <- <-]. left. eauto. }
    unfold mbind at 1, M_bind at 1, lift at 1.
    destruct (service_user _ _ _) as [[msg|]|e] eqn:Huser; [| |by intros [= <- <-]].
    { cbn. intros [= <- <-]. left. eauto. }
    unfold mbind, M_bind, modify, emit, modify. cbn. intros [= <- <-].
    right. exists scene. split_and!; [done..|]. right. split_and!; [done| |done|by eexists].
    by apply odict_mem_true.
Qed.


(** When [add_object_to_scene] answers [(False, msg)], whatever the reason,
    the scene and both registries are as they were: at most the log has
    grown. *)
Theorem refused_object_changes_nothing obj add_to_scene srv_obj_ok s s' msg :
  add_object_to_scene obj add_to_scene srv_obj_ok s = (s', Ok (false, msg)) →
  SCENE s' = SCENE s
  ∧ SCENE_OBJECT_INSTANCES s' = SCENE_OBJECT_INSTANCES s
  ∧ SERVICES_INSTANCES s' = SERVICES_INSTANCES s
  ∧ only_effects s s'.
Proof. intros [effs ->]%add_object_to_scene_inv. split_and!; [done..|by eexists]. Qed.


(** Once a service has been added, a second service of the same type is
    refused, whatever its configuration, and changes nothing. *)
Theorem same_service_type_is_added_once srv srv' s s' msg :
  add_service_to_scene srv s = (s', Ok (true, msg)) →
  SceneService.type srv' = SceneService.type srv →
  msg = "ok"
  ∧ odict.keys (SERVICES_INSTANCES s')
    = odict.keys (SERVICES_INSTANCES s) ++ [SceneService.type srv]
  ∧ add_service_to_scene srv' s' = (s', Ok (false, "Service already in scene.")).
Proof.
  intros Hadd%add_service_to_scene_inv Htype.
  destruct Hadd as [[_ Hno]|(cls & inst & Hknown & Hmem & _ & _ & _ & [effs ->] & Hok)].
  { by destruct (Hno msg). }
  destruct (Hok _ _ eq_refl) as [_ ->]. split; [done|].
  simpl. rewrite odict_set_new by done. split.
  { unfold odict.keys. by rewrite fmap_app. }
  unfold add_service_to_scene. unfold mbind, M_bind, get_state. simpl.
  rewrite Htype. rewrite decide_False by (by intros Hn).
  assert (odict.mem (SERVICES_INSTANCES s ++ [(SceneService.type srv, inst)])
                    (SceneService.type srv) = true) as ->; [|done].
  apply odict_mem_true. unfold odict.keys. rewrite fmap_app.
  apply elem_of_app. right. left.
Qed.

(** [add_service_to_scene] keeps the number of registered robot services
    at one at most, whatever its outcome. *)
Theorem at_most_one_robot_service srv s s' r :
  constructors_coherent →
  length (robot_services s) ≤ 1 →
  add_service_to_scene srv s = (s', r) →
  length (robot_services s') ≤ 1.
Proof.
  intros Hcoh Hone Hadd%add_service_to_scene_inv.
  destruct Hadd as [[[effs ->] _]|(cls & inst & _ & Hmem & _ & Hnone & Hnew & [effs ->] & _)];
    [exact Hone|].
  rewrite find_robot_service_none in Hnone.
  unfold robot_services, odict.values in *. simpl. rewrite odict_set_new by done.
  rewrite fmap_app, filter_app, length_app. simpl.
  rewrite filter_cons, filter_nil.
  case_decide as Hrobot; simpl; [|lia].
  rewrite (Hcoh _ _ _ Hnew) in Hrobot. rewrite (Hnone Hrobot). simpl. lia.
Qed.

Lemma registry_matches_with_object obj obj_inst s :
  SceneObject.id obj ∉ odict.keys (SCENE_OBJECT_INSTANCES s) →
  registry_matches s → registry_matches (with_object obj obj_inst true s).
Proof.
  intros Hnew%odict_mem_false (scene & Hscene & Hobjs & Hsrvs).
  unfold with_object. rewrite Hscene, odict_set_new by done.
  eexists. split; [done|]. simpl. split; [|done].
  unfold odict.keys in *. rewrite !fmap_app, !list_to_set_app_L. by rewrite Hobjs.
Qed.

Lemma add_object_to_scene_cb_inv obj s s' r :
  add_object_to_scene_cb obj s = (s', Ok r) →
  (only_effects s s' ∧ ∃ msg, r = Failure msg)
  ∨ (r = Success () ∧ editable s
     ∧ (SceneObject.id obj ∉ odict.keys (SCENE_OBJECT_INSTANCES s))
     ∧ ∃ obj_inst, only_effects (with_object obj obj_inst true s) s').
Proof.
  unfold add_object_to_scene_cb.
  intros [(_ & -> & msg & [= ->])|(Hedit & Hrun)]%guards_inv.
  { left. split; [apply only_effects_refl|eauto]. }
  revert Hrun. unfold mbind at 1, M_bind at 1.
  destruct (add_object_to_scene obj true false s) as [s1 [[[] msg]|e]] eqn:Hadd;
    [| |done].
  - apply add_object_to_scene_inv in Hadd
      as (_ & _ & _ & _ & obj_inst & _ & _ & _ & Hnew%odict_mem_false & _ & _ & _ & Heff).
    unfold answer, mbind, M_bind, emit, modify. simpl. intros [= <- <-].
    right. split_and!; [done..|]. exists obj_inst.
    destruct Heff as [effs ->]. by eexists.
  - apply add_object_to_scene_inv in Hadd. simpl. intros [= <- <-]. eauto.
Qed.

Lemma add_service_to_scene_cb_inv srv s s' r :
  add_service_to_scene_cb srv s = (s', Ok r) →
  (only_effects s s' ∧ ∃ msg, r = Failure msg)
  ∨ (r = Success () ∧ editable s
     ∧ (SceneService.type srv ∉ odict.keys (SERVICES_INSTANCES s))
     ∧ ∃ scene srv_inst, SCENE s = Some scene
         ∧ only_effects
             (set_SCENE (Some (Scene.mk (Scene.id scene) (Scene.objects scene)
                                        (Scene.services scene ++ [srv])))
                (set_SERVICES_INSTANCES
                   (SERVICES_INSTANCES s ++ [(SceneService.type srv, srv_inst)]) s)) s').
Proof.
  unfold add_service_to_scene_cb.
  intros [(_ & -> & msg & [= ->])|(Hedit & Hrun)]%guards_inv.
  { left. split; [apply only_effects_refl|eauto]. }
  destruct Hedit as [[scene [Hscene Hid]] Hproject].
  assert (editable s) as Hedit by (split; eauto).
  revert Hrun. unfold mbind at 1, M_bind at 1, get_state at 1. rewrite Hscene.
  unfold mbind at 1, M_bind at 1.
  destruct (add_service_to_scene srv s) as [s1 [[b msg]|e]] eqn:Hadd; [|done].
  apply add_service_to_scene_inv in Hadd
    as [[Heff Hno]|(cls & inst & _ & Hmem & _ & _ & _ & [effs ->] & Hok)].
  - destruct b; [by destruct (Hno msg)|]. simpl. intros [= <- <-]. eauto.
  - destruct (Hok _ _ eq_refl) as [-> ->]. simpl.
    unfold mbind, M_bind, current_scene, get_state, mbind, M_bind, modify, emit, modify.
    simpl. rewrite Hscene. simpl. intros [= <- <-].
    right. split_and!; [done..| |].
    + by apply odict_mem_false.
    + exists scene, inst. split; [done|]. rewrite odict_set_new by done. by eexists.
Qed.

Lemma get_scene_object_id scene obj_id o :
  get_scene_object scene obj_id = Some o →
  SceneObject.id o = obj_id ∧ o ∈ Scene.objects scene.
Proof.
  unfold get_scene_object. intros Hhead%head_Some_elem_of.
  apply list_elem_of_filter in Hhead as [? ?]. done.
Qed.

Lemma set_object_pose_ids objects obj_id pose :
  SceneObject.id <$> set_object_pose objects obj_id pose = SceneObject.id <$> objects.
Proof.
  induction objects as [|o objects IH]; [done|]. simpl.
  case_decide; [done|]. by rewrite fmap_cons, IH.
Qed.

Lemma update_action_object_cb_inv id robot s s' r :
  update_action_object_cb id robot s = (s', Ok r) →
  (only_effects s s' ∧ ∃ msg, r = Failure msg)
  ∨ (r = Success () ∧ id ≠ RobotArg.robot_id robot
     ∧ ∃ scene pose s1,
         SCENE s = Some scene ∧ PROJECT s = None
         ∧ id ∈ SceneObject.id <$> Scene.objects scene
         ∧ get_end_effector_pose (RobotArg.robot_id robot) (RobotArg.end_effector robot) s
           = (s1, Ok pose)
         ∧ only_effects
             (set_SCENE (Some (Scene.mk (Scene.id scene)
                                 (set_object_pose (Scene.objects scene) id pose)
                                 (Scene.services scene))) s) s').
Proof.
  unfold update_action_object_cb.
  intros [(_ & -> & msg & [= ->])|([[scene [Hscene _]] Hproject] & Hrun)]%guards_inv.
  { left. split; [apply only_effects_refl|eauto]. }
  revert Hrun. unfold mbind at 1, M_bind at 1, get_state at 1. rewrite Hscene.
  case_decide as Hown.
  { intros [= <- <-]. left. split; [apply only_effects_refl|eauto]. }
  destruct (get_scene_object scene id) as [scene_object|] eqn:Hobj.
  2:{ intros [= <- <-]. left. split; [apply only_effects_refl|eauto]. }
  apply get_scene_object_id in Hobj as [Hid Hin]. rewrite Hid.
  unfold mbind at 1, M_bind at 1. unfold try_except_robot_pose.
  unfold mbind at 1, M_bind at 1.
  destruct (get_end_effector_pose _ _ s) as [s1 [pose|e]] eqn:Hpose.
  - apply get_end_effector_pose_only_effects in Hpose as Heff. destruct Heff as [effs ->].
    unfold mbind, M_bind, current_scene, get_state, mbind, M_bind, modify, emit, modify.
    simpl. rewrite Hscene. simpl. intros [= <- <-].
    right. split_and!; [done..|]. exists scene, pose, (set_effects effs s).
    split_and!; try done.
    + apply list_elem_of_fmap. exists scene_object. done.
    + by eexists.
  - apply get_end_effector_pose_only_effects in Hpose.
    destruct e; try done. simpl. intros [= <- <-]. left. eauto.
Qed.

Lemma focus_object_start_cb_inv object_id robot s s' r :
  focus_object_start_cb object_id robot s = (s', Ok r) →
  (only_effects s s' ∧ ∃ msg, r = Failure msg)
  ∨ (r = Success ()
     ∧ (object_id ∉ dom (FOCUS_OBJECT_ROBOT s))
     ∧ object_id ∈ odict.keys (SCENE_OBJECT_INSTANCES s)
     ∧ only_effects
         (set_FOCUS_OBJECT (<[object_id := []]> (FOCUS_OBJECT s))
            (set_FOCUS_OBJECT_ROBOT (<[object_id := robot]> (FOCUS_OBJECT_ROBOT s)) s)) s').
Proof.
  unfold focus_object_start_cb.
  intros [(_ & -> & msg & [= ->])|(_ & Hrun)]%guards_inv.
  { left. split; [apply only_effects_refl|eauto]. }
  revert Hrun. unfold mbind at 1, M_bind at 1, get_state at 1.
  case_decide as Hstarted.
  { intros [= <- <-]. left. split; [apply only_effects_refl|eauto]. }
  destruct (odict.mem _ _) eqn:Hmem; simpl.
  2:{ intros [= <- <-]. left. split; [apply only_effects_refl|eauto]. }
  unfold mbind at 1, M_bind at 1.
  match goal with
  | |- context [try_except_arcor2 ?b ?h s] =>
      destruct (try_except_arcor2 b h s) as [s1 found] eqn:Hfound
  end.
  assert (only_effects s s1) as [effs ->].
  { revert Hfound. unfold try_except_arcor2.
    unfold mbind at 1, M_bind at 1.
    destruct (get_robot_instance _ _ s) as [s2 ri] eqn:Hinst.
    apply get_robot_instance_only_effects in Hinst.
    destruct ri as [inst|e]; simpl; [by intros [= <- _]|].
    destruct (as_arcor2_exception e); by intros [= <- _]. }
  destruct found as [[msg|inst]|e]; [|  |done].
  { intros [= <- <-]. left. split; [by eexists|eauto]. }
  unfold mbind at 1, M_bind at 1, get_state at 1.
  unfold mbind at 1, M_bind at 1, lift at 1.
  destruct (getitem _ _) as [meta|e]; [|done].
  destruct (RobotMeta.features_focus meta); simpl.
  2:{ intros [= <- <-]. left. split; [by eexists|eauto]. }
  unfold mbind at 1, M_bind at 1.
  destruct (get_obj_type_name _ _) as [s2 rn] eqn:Hname.
  apply get_obj_type_name_inv in Hname as [-> ->].
  destruct (odict.get _ _); [|done].
  unfold mbind at 1, M_bind at 1, lift at 1.
  destruct (getitem _ _) as [obj_type|e]; [|done].
  destruct (ObjectTypeMeta.object_model obj_type) as [object_model|].
  2:{ intros [= <- <-]. left. split; [by eexists|eauto]. }
  case_decide.
  { intros [= <- <-]. left. split; [by eexists|eauto]. }
  destruct (ObjectModel.mesh object_model) as [mesh|]; [|done].
  destruct (Mesh.focus_points mesh).
  { intros [= <- <-]. left. split; [by eexists|eauto]. }
  unfold mbind, M_bind, modify, log, emit, modify. simpl.
  intros [= <- <-]. right. split_and!; [done..| |].
  - by apply odict_mem_true.
  - by eexists.
Qed.

(** What a capture leaves behind when it returns. *)
Lemma focus_object_cb_inv object_id point_idx s s' r :
  focus_object_cb object_id point_idx s = (s', Ok r) →
  (only_effects s s' ∧ ∃ msg, r = Failure msg)
  ∨ (∃ robot points pose,
       FOCUS_OBJECT_ROBOT s !! object_id = Some robot
       ∧ points = default [] (FOCUS_OBJECT s !! object_id)
       ∧ r = Success (odict.keys (odict.set points point_idx pose))
       ∧ only_effects
           (set_FOCUS_OBJECT (<[object_id := odict.set points point_idx pose]>
                                (FOCUS_OBJECT s)) s) s').
Proof.
  unfold focus_object_cb, no_project.
  unfold mbind at 1, M_bind at 1, get_state at 1.
  destruct (PROJECT s).
  { intros [= <- <-]. left. split; [apply only_effects_refl|eauto]. }
  unfold mbind at 1, M_bind at 1, get_state at 1.
  destruct (odict.mem _ _); simpl.
  2:{ intros [= <- <-]. left. split; [apply only_effects_refl|eauto]. }
  unfold mbind at 1, M_bind at 1.
  destruct (get_obj_type_name object_id s) as [s1 r1] eqn:Hname.
  apply get_obj_type_name_inv in Hname as [-> ->].
  destruct (odict.get _ _) as [inst|]; [|done].
  unfold mbind at 1, M_bind at 1, lift at 1.
  destruct (getitem (OBJECT_TYPES s) _) as [obj_type|e]; [|done].
  destruct (_ ≫= ObjectModel.mesh) as [mesh|]; [|done].
  destruct (Mesh.focus_points mesh) as [|fp fps]; [done|].
  case_decide.
  { intros [= <- <-]. left. split; [apply only_effects_refl|eauto]. }
  unfold mbind at 1, M_bind at 1.
  set (s0 := if decide (object_id ∈ dom (FOCUS_OBJECT s)) then s
             else set_FOCUS_OBJECT (<[object_id:=[]]> (FOCUS_OBJECT s))
                    (set_effects (effects s ++ [Logged "info" ("Start of focusing for "
                                                  +:+ object_id +:+ ".")]) s)).
  assert ((if decide (object_id ∈ dom (FOCUS_OBJECT s)) then mret ()
           else _ ← log "info" ("Start of focusing for " +:+ object_id +:+ ".");
                modify (λ s0, set_FOCUS_OBJECT (<[object_id:=[]]> (FOCUS_OBJECT s0)) s0)) s
          = (s0, Ok ())) as ->.
  { subst s0. by case_decide. }
  unfold mbind at 1, M_bind at 1, get_state at 1.
  unfold mbind at 1, M_bind at 1, lift at 1.
  destruct (getitem (FOCUS_OBJECT_ROBOT s0) object_id) as [robot|e] eqn:Hrobot; [|done].
  assert (FOCUS_OBJECT_ROBOT s !! object_id = Some robot) as Hrobot'.
  { revert Hrobot. subst s0. unfold getitem. case_decide; simpl.
    - destruct (_ !! _); by intros [= <-].
    - destruct (_ !! _); by intros [= <-]. }
  unfold mbind at 1, M_bind at 1.
  destruct (get_end_effector_pose _ _ s0) as [s2 rp] eqn:Hpose.
  apply get_end_effector_pose_only_effects in Hpose as [effs ->].
  destruct rp as [pose|e]; [|done].
  unfold mbind at 1, M_bind at 1, get_state at 1.
  unfold mbind at 1, M_bind at 1, lift at 1.
  assert (getitem (FOCUS_OBJECT (set_effects effs s0)) object_id
          = Ok (default [] (FOCUS_OBJECT s !! object_id))) as ->.
  { subst s0. unfold getitem. case_decide as Hin; simpl.
    - apply elem_of_dom in Hin as [pts ->]. done.
    - rewrite lookup_insert_eq. by apply not_elem_of_dom in Hin as ->. }
  unfold mbind, M_bind, modify. simpl. intros [= <- <-].
  right. exists robot, (default [] (FOCUS_OBJECT s !! object_id)), pose.
  split_and!; [done..|].
  subst s0. case_decide; simpl; [by eexists|].
  rewrite insert_insert_eq. by eexists.
Qed.

Lemma extends_refl s : extends s s.
Proof. by unfold extends. Qed.

Lemma extends_trans s1 s2 s3 : extends s1 s2 → extends s2 s3 → extends s1 s3.
Proof.
  unfold extends. intros (-> & -> & -> & -> & ? & ?) (-> & -> & -> & -> & ? & ?).
  split_and!; try done; by etrans.
Qed.

Lemma only_effects_extends s s' : only_effects s s' → extends s s'.
Proof. by intros [effs ->]. Qed.

Lemma odict_keys_set_new {V : Type} (d : list (string * V)) (k : string) (v : V) :
  odict.mem d k = false → odict.keys (odict.set d k v) = odict.keys d ++ [k].
Proof. intros Hmem. rewrite odict_set_new by done. unfold odict.keys. by rewrite fmap_app. Qed.

Lemma for_extends {A : Type} (body : A → M ()) (l : list A) s s' :
  (∀ x s s', body x s = (s', Ok ()) → extends s s') →
  for_ body l s = (s', Ok ()) → extends s s'.
Proof.
  intros Hbody. revert s. induction l as [|x l IH]; intros s; simpl.
  { intros [= <-]. apply extends_refl. }
  unfold mbind at 1, M_bind at 1.
  destruct (body x s) as [s1 [[]|e]] eqn:Hx; [|done].
  intros Hrest. eapply extends_trans; eauto.
Qed.

Lemma log_unless_ok_extends (call : M (bool * string)) s s' :
  (∀ s1 r, call s = (s1, Ok r) → extends s s1) →
  log_unless_ok call s = (s', Ok ()) → extends s s'.
Proof.
  intros Hcall. unfold log_unless_ok, mbind, M_bind.
  destruct (call s) as [s1 [[[] msg]|e]] eqn:Hc; [| |done]; simpl.
  - intros [= <-]. eauto.
  - unfold log, emit, modify. intros [= <-].
    eapply extends_trans; [eauto|]. apply only_effects_extends. by eexists.
Qed.

Lemma add_service_to_scene_extends srv s s' r :
  add_service_to_scene srv s = (s', r) → extends s s'.
Proof.
  intros [[Heff _]|(cls & inst & _ & Hmem & _ & _ & _ & [effs ->] & _)]%add_service_to_scene_inv.
  { by apply only_effects_extends. }
  unfold extends. simpl. split_and!; try done.
  rewrite odict_keys_set_new by done. by apply sublist_subseteq, sublist_inserts_r.
Qed.

Lemma add_object_to_scene_extends obj srv_obj_ok s s' r :
  add_object_to_scene obj false srv_obj_ok s = (s', Ok r) → extends s s'.
Proof.
  intros Hadd%add_object_to_scene_inv. destruct r as [[] msg].
  - destruct Hadd as (_ & _ & _ & _ & inst & _ & _ & _ & Hmem & _ & _ & _ & [effs ->]).
    unfold extends, with_object. simpl. split_and!; try done.
    rewrite odict_keys_set_new by done. by apply sublist_subseteq, sublist_inserts_r.
  - by apply only_effects_extends.
Qed.

(** What [open_scene] leaves behind when it returns. *)
Lemma open_scene_inv scene_id s s' :
  open_scene scene_id s = (s', Ok ()) →
  ∃ loaded, get_scene scene_id = Ok loaded
    ∧ extends (set_SCENE (Some loaded) s) s'
    ∧ registry_matches s'.
Proof.
  unfold open_scene.
  unfold mbind at 1, M_bind at 1, lift at 1.
  destruct (get_scene scene_id) as [loaded|e] eqn:Hload; [|done].
  unfold mbind at 1, M_bind at 1, modify at 1.
  set (s2 := set_SCENE (Some loaded) s).
  unfold mbind at 1, M_bind at 1.
  destruct (current_scene s2) as [s3 [scene3|e]] eqn:Hscene3; [|done].
  apply current_scene_inv in Hscene3 as [-> _].
  unfold mbind at 1, M_bind at 1.
  match goal with
  | |- context [for_ ?f ?l ?s] => destruct (for_ f l s) as [s4 [[]|e]] eqn:Hservices; [|done]
  end.
  apply for_extends in Hservices.
  2:{ intros srv s0 s0'. apply log_unless_ok_extends. intros ? ?.
      apply add_service_to_scene_extends. }
  unfold mbind at 1, M_bind at 1.
  destruct (current_scene s4) as [s5 [scene5|e]] eqn:Hscene5; [|done].
  apply current_scene_inv in Hscene5 as [-> _].
  unfold mbind at 1, M_bind at 1.
  match goal with
  | |- context [for_ ?f ?l ?s] => destruct (for_ f l s) as [s6 [[]|e]] eqn:Hobjects; [|done]
  end.
  apply for_extends in Hobjects.
  2:{ intros obj s0 s0'. apply log_unless_ok_extends. intros ? ?.
      apply add_object_to_scene_extends. }
  unfold mbind at 1, M_bind at 1.
  destruct (current_scene s6) as [s7 [scene|e]] eqn:Hscene; [|done].
  apply current_scene_inv in Hscene as [-> Hscene].
  unfold mbind at 1, M_bind at 1. unfold get_state.
  destruct (bool_decide (list_to_set (SceneService.type <$> Scene.services scene)
                         =@{gset string} _)) eqn:Hsrv; [|done].
  destruct (bool_decide (list_to_set (SceneObject.id <$> Scene.objects scene)
                         =@{gset string} _)) eqn:Hobj; [|done].
  apply bool_decide_eq_true_1 in Hsrv, Hobj.
  simpl. unfold emit, modify. intros [= <-]. exists loaded. split_and!; [done| |].
  - eapply extends_trans; [exact Hservices|]. eapply extends_trans; [exact Hobjects|].
    apply only_effects_extends. by eexists.
  - exists scene. simpl. done.
Qed.

Lemma open_scene_cb_inv scene_id s s' r :
  open_scene_cb scene_id s = (s', Ok r) →
  (s' = s ∧ ∃ msg, r = Failure msg)
  ∨ (r = Success () ∧ PROJECT s = None ∧ open_scene scene_id s = (s', Ok ())).
Proof.
  unfold open_scene_cb, no_project.
  unfold mbind at 1, M_bind at 1, get_state at 1.
  destruct (PROJECT s); [intros [= <- <-]; eauto|].
  unfold mbind, M_bind.
  destruct (open_scene scene_id s) as [s1 [[]|e]]; [|done].
  intros [= <- <-]. eauto.
Qed.

Lemma registry_matches_set_pose scene id pose s :
  SCENE s = Some scene →
  registry_matches s →
  registry_matches (set_SCENE (Some (Scene.mk (Scene.id scene)
                                 (set_object_pose (Scene.objects scene) id pose)
                                 (Scene.services scene))) s).
Proof.
  intros Hscene (scene' & Hscene' & Hobjs & Hsrvs). simplify_eq.
  eexists. split; [done|]. simpl. by rewrite set_object_pose_ids.
Qed.

Lemma registry_matches_remove id s s' r :
  remove_from_scene_cb id s = (s', Ok r) → registry_matches s → registry_matches s'.
Proof.
  intros [(msg & _ & -> & _)|(scene & _ & Hscene & _ & Hbranch)]%remove_from_scene_cb_inv;
    [done|].
  intros (scene' & Hscene' & Hobjs & Hsrvs). simplify_eq.
  destruct Hbranch as [[_ Heff]|(_ & _ & _ & Heff)];
    (eapply registry_matches_only_effects; [exact Heff|]);
    eexists; (split; [done|]); simpl.
  - split; [|done].
    by rewrite odict_keys_del, filter_ids, !list_to_set_filter_ne, Hobjs.
  - split; [done|].
    by rewrite odict_keys_del, filter_types, !list_to_set_filter_ne, Hsrvs.
Qed.

Lemma handled_registry s s' :
  handled s s' → registry_matches s → registry_matches s'.
Proof.
  intros Hstep Hinv.
  destruct Hstep as [scene_id s s' r Hrun|obj s s' r Hrun|srv s s' r Hrun|id s s' r Hrun
                     |id robot s s' r Hrun|object_id robot s s' r Hrun
                     |object_id point_idx s s' r Hrun].
  - apply open_scene_cb_inv in Hrun as [[-> _]|(_ & _ & (? & _ & _ & ?)%open_scene_inv)];
      done.
  - apply add_object_to_scene_cb_inv in Hrun
      as [[Heff _]|(_ & _ & Hnew & inst & Heff)];
      (eapply registry_matches_only_effects; [exact Heff|]); [done|].
    by apply registry_matches_with_object.
  - apply add_service_to_scene_cb_inv in Hrun
      as [[Heff _]|(_ & _ & Hnew & scene & inst & Hscene & Heff)];
      (eapply registry_matches_only_effects; [exact Heff|]); [done|].
    destruct Hinv as (scene' & Hscene' & Hobjs & Hsrvs). simplify_eq.
    eexists. split; [done|]. simpl. split; [done|].
    unfold odict.keys in *. rewrite !fmap_app, !list_to_set_app_L. by rewrite Hsrvs.
  - by eapply registry_matches_remove.
  - apply update_action_object_cb_inv in Hrun
      as [[Heff _]|(_ & _ & scene & pose & s1 & Hscene & _ & _ & _ & Heff)];
      (eapply registry_matches_only_effects; [exact Heff|]); [done|].
    by apply registry_matches_set_pose.
  - apply focus_object_start_cb_inv in Hrun as [[Heff _]|(_ & _ & _ & Heff)];
      (eapply registry_matches_only_effects; [exact Heff|]); done.
  - apply focus_object_cb_inv in Hrun as [[Heff _]|(? & ? & ? & _ & _ & _ & Heff)];
      (eapply registry_matches_only_effects; [exact Heff|]); done.
Qed.

Lemma handled_sessions s s' :
  handled s s' → sessions_ok s → sessions_ok s'.
Proof.
  intros Hstep Hinv.
  assert (∀ s0 s', FOCUS_OBJECT s0 = FOCUS_OBJECT s →
                   FOCUS_OBJECT_ROBOT s0 = FOCUS_OBJECT_ROBOT s →
                   only_effects s0 s' → sessions_ok s') as Hsame.
  { intros ? ? Hf Hr [effs ->]. unfold sessions_ok in *. simpl. by rewrite Hf, Hr. }
  destruct Hstep as [scene_id s s' r Hrun|obj s s' r Hrun|srv s s' r Hrun|id s s' r Hrun
                     |id robot s s' r Hrun|object_id robot s s' r Hrun
                     |object_id point_idx s s' r Hrun].
  - apply open_scene_cb_inv in Hrun
      as [[-> _]|(_ & _ & (? & _ & (_ & _ & Hf & Hr & _) & _)%open_scene_inv)]; [done|].
    unfold sessions_ok in *. by rewrite Hf, Hr.
  - apply add_object_to_scene_cb_inv in Hrun as [[Heff _]|(_ & _ & _ & inst & Heff)];
      (eapply Hsame; [| |exact Heff]); try done;
      unfold with_object; by destruct (SCENE s).
  - apply add_service_to_scene_cb_inv in Hrun
      as [[Heff _]|(_ & _ & _ & scene & inst & _ & Heff)];
      (eapply Hsame; [| |exact Heff]); done.
  - apply remove_from_scene_cb_inv in Hrun
      as [(msg & _ & -> & _)|(scene & _ & _ & _ & [[_ Heff]|(_ & _ & _ & Heff)])]; [done|..];
      (eapply Hsame; [| |exact Heff]); done.
  - apply update_action_object_cb_inv in Hrun
      as [[Heff _]|(_ & _ & scene & pose & s1 & _ & _ & _ & _ & Heff)];
      (eapply Hsame; [| |exact Heff]); done.
  - by eapply focus_object_start_cb_sessions.
  - by eapply focus_object_cb_sessions.
Qed.

(** While the handlers of the scene return, the registries keep holding an
    instance for every object and service of the scene and for nothing
    else. *)
Theorem handlers_keep_the_registry s s' :
  rtc handled s s' → registry_matches s → registry_matches s'.
Proof. induction 1 as [|s1 s2 s3 Hstep _ IH]; [done|]. intros. by eapply IH, handled_registry. Qed.

(** Whatever the handlers of the scene are asked and answer, a robot stays
    recorded only for objects that have a point dictionary. *)
Theorem handlers_keep_the_sessions s s' :
  rtc handled s s' → sessions_ok s → sessions_ok s'.
Proof. induction 1 as [|s1 s2 s3 Hstep _ IH]; [done|]. intros. by eapply IH, handled_sessions. Qed.

Lemma odict_get_del_ne {V : Type} (d : list (string * V)) (k k' : string) :
  k ≠ k' → odict.get (odict_del d k') k = odict.get d k.
Proof.
  intros Hne. unfold odict_del. induction d as [|[k0 v0] d IH]; [done|].
  rewrite filter_cons. simpl.
  destruct (decide (k0 ≠ k')) as [Hk0|Hk0]; simpl;
    destruct (decide (k = k0)) as [->|?]; done.
Qed.

Lemma service_user_none object_types id objects :
  service_user object_types id objects = Ok None ↔
  ∀ obj, obj ∈ objects →
    ∃ meta, object_types !! SceneObject.type obj = Some meta
            ∧ (id ∉ ObjectTypeMeta.needs_services meta).
Proof.
  induction objects as [|o objects IH]; simpl.
  { split; [|done]. by intros _ ? ?%elem_of_nil. }
  unfold getitem. destruct (object_types !! SceneObject.type o) as [meta|] eqn:Hmeta; simpl.
  - case_decide as Hneeds.
    + split; [done|]. intros Hall. destruct (Hall o) as (meta' & ? & Hno); [left|].
      simplify_eq. by destruct Hno.
    + rewrite IH. split.
      * intros Hall obj [->|Hin]%elem_of_cons; eauto.
      * intros Hall obj Hin. apply Hall. by right.
  - split; [done|]. intros Hall. destruct (Hall o) as (meta' & ? & _); [left|]. simplify_eq.
Qed.

(** A removal that succeeds takes the id out of the registry that held it
    and out of the scene, and leaves every other instance where it was. *)
Theorem removed_id_is_gone id s s' :
  remove_from_scene_cb id s = (s', Ok (Success ())) →
  (∀ k, k ≠ id →
     odict.get (SCENE_OBJECT_INSTANCES s') k = odict.get (SCENE_OBJECT_INSTANCES s) k
     ∧ odict.get (SERVICES_INSTANCES s') k = odict.get (SERVICES_INSTANCES s) k)
  ∧ ∃ scene scene', SCENE s = Some scene ∧ SCENE s' = Some scene'
      ∧ Scene.id scene' = Scene.id scene
      ∧ if decide (id ∈ odict.keys (SCENE_OBJECT_INSTANCES s))
        then (id ∉ odict.keys (SCENE_OBJECT_INSTANCES s'))
             ∧ (id ∉ SceneObject.id <$> Scene.objects scene')
             ∧ SERVICES_INSTANCES s' = SERVICES_INSTANCES s
             ∧ Scene.services scene' = Scene.services scene
        else id ∈ odict.keys (SERVICES_INSTANCES s)
             ∧ (id ∉ odict.keys (SERVICES_INSTANCES s'))
             ∧ (id ∉ SceneService.type <$> Scene.services scene')
             ∧ SCENE_OBJECT_INSTANCES s' = SCENE_OBJECT_INSTANCES s
             ∧ Scene.objects scene' = Scene.objects scene
             ∧ ∀ obj, obj ∈ Scene.objects scene →
                 ∃ meta, OBJECT_TYPES s !! SceneObject.type obj = Some meta
                         ∧ (id ∉ ObjectTypeMeta.needs_services meta).
Proof.
  intros [(msg & [=] & _)|(scene & _ & Hscene & _ & Hbranch)]%remove_from_scene_cb_inv.
  destruct Hbranch as [[Hin [effs ->]]|(Hnotin & Hsrv & Huser & [effs ->])]; simpl.
  - split.
    { intros k Hk. split; [by apply odict_get_del_ne|done]. }
    eexists _, _. split_and!; [done..|]. rewrite decide_True by done. simpl.
    split_and!; try done.
    + rewrite odict_keys_del. intros [? _]%list_elem_of_filter. done.
    + rewrite filter_ids. intros [? _]%list_elem_of_filter. done.
  - split.
    { intros k Hk. split; [done|by apply odict_get_del_ne]. }
    eexists _, _. split_and!; [done..|]. rewrite decide_False by done. simpl.
    split_and!; try done.
    + rewrite odict_keys_del. intros [? _]%list_elem_of_filter. done.
    + rewrite filter_types. intros [? _]%list_elem_of_filter. done.
    + by apply service_user_none.
Qed.

(** A service that an object of the scene relies on is not removed. *)
Theorem service_in_use_is_kept id s scene obj meta s' r :
  SCENE s = Some scene →
  (id ∉ odict.keys (SCENE_OBJECT_INSTANCES s)) →
  obj ∈ Scene.objects scene →
  OBJECT_TYPES s !! SceneObject.type obj = Some meta →
  id ∈ ObjectTypeMeta.needs_services meta →
  remove_from_scene_cb id s = (s', r) →
  s' = s ∧ r ≠ Ok (Success ()).
Proof.
  intros Hscene Hnotin Hobj Hmeta Hneeds.
  unfold remove_from_scene_cb.
  intros [(_ & -> & msg & ->)|(_ & Hrun)]%guards_inv; [done|].
  revert Hrun. unfold mbind at 1, M_bind at 1, get_state at 1. rewrite Hscene.
  unfold mbind at 1, M_bind at 1.
  destruct (odict.get (SCENE_OBJECT_INSTANCES s) id) eqn:Hget.
  { destruct Hnotin. apply odict_get_mem. eauto. }
  destruct (odict.mem _ _); [|by intros [= <- <-]].
  unfold mbind at 1, M_bind at 1, lift at 1.
  destruct (service_user _ _ _) as [[msg|]|e] eqn:Huser.
  - by intros [= <- <-].
  - destruct (proj1 (service_user_none _ _ _) Huser obj Hobj) as (meta' & ? & Hno).
    simplify_eq. by destruct Hno.
  - by intros [= <- <-].
Qed.

(** Adding an object and removing it again gives back the scene and the
    registries. *)
Theorem add_then_remove_object_restores_the_scene obj s s1 s2 r :
  registry_matches s →
  add_object_to_scene_cb obj s = (s1, Ok (Success ())) →
  remove_from_scene_cb (SceneObject.id obj) s1 = (s2, Ok r) →
  r = Success () ∧ SCENE s2 = SCENE s
  ∧ SCENE_OBJECT_INSTANCES s2 = SCENE_OBJECT_INSTANCES s
  ∧ SERVICES_INSTANCES s2 = SERVICES_INSTANCES s.
Proof.
  intros (scene & Hscene & Hobjs & _).
  intros [[_ [? [=]]]|(_ & Hedit & Hnew & inst & [effs ->])]%add_object_to_scene_cb_inv.
  assert (SceneObject.id obj ∉ SceneObject.id <$> Scene.objects scene) as Hfresh.
  { intros Hin. apply Hnew. apply (elem_of_list_to_set (C := gset string)).
    rewrite Hobjs. by apply elem_of_list_to_set. }
  assert (with_object obj inst true s
          = set_SCENE (Some (Scene.mk (Scene.id scene) (Scene.objects scene ++ [obj])
                                      (Scene.services scene)))
              (set_SCENE_OBJECT_INSTANCES
                 (odict.set (SCENE_OBJECT_INSTANCES s) (SceneObject.id obj) inst) s)) as ->.
  { unfold with_object. by rewrite Hscene. }
  intros [(msg & _ & _ & Hno)|(scene1 & -> & Hscene1 & _ & Hbranch)]%remove_from_scene_cb_inv.
  { exfalso. apply Hno.
    - destruct Hedit as [(scene' & ? & ?) ?]. simplify_eq. split; [|done]. simpl. eauto.
    - simpl. rewrite odict_keys_set_new by (by apply odict_mem_false).
      apply elem_of_app. right. left. }
  split; [done|]. simpl in *. simplify_eq.
  destruct Hbranch as [[_ [effs2 ->]]|(Hnotin & _)]; simpl.
  - rewrite odict_del_set_new by (by apply odict_mem_false).
    split_and!; [|done..]. rewrite Hscene. f_equal. destruct scene as [sid objs srvs].
    simpl in *. f_equal. rewrite filter_app, filter_cons, filter_nil.
    rewrite decide_False by (by intros ?). rewrite app_nil_r.
    clear -Hfresh. induction objs as [|o objs IH]; [done|].
    rewrite fmap_cons in Hfresh. apply not_elem_of_cons in Hfresh as [? ?].
    rewrite filter_cons, decide_True by done. by rewrite IH.
  - destruct Hnotin. rewrite odict_keys_set_new by (by apply odict_mem_false).
    apply elem_of_app. right. left.
Qed.

Lemma for_extends_any {A : Type} (body : A → M ()) (l : list A) s s' r :
  (∀ x s s' r, body x s = (s', r) → extends s s') →
  for_ body l s = (s', r) → extends s s'.
Proof.
  intros Hbody. revert s. induction l as [|x l IH]; intros s; simpl.
  { intros [= <- <-]. apply extends_refl. }
  unfold mbind at 1, M_bind at 1.
  destruct (body x s) as [s1 [[]|e]] eqn:Hx.
  - intros Hrest. eapply extends_trans; eauto.
  - intros [= <- <-]. eauto.
Qed.

Lemma log_unless_ok_extends_any (call : M (bool * string)) s s' r :
  (∀ s1 r, call s = (s1, r) → extends s s1) →
  log_unless_ok call s = (s', r) → extends s s'.
Proof.
  intros Hcall. unfold log_unless_ok, mbind, M_bind.
  destruct (call s) as [s1 [[[] msg]|e]] eqn:Hc; simpl.
  - intros [= <- <-]. eauto.
  - unfold log, emit, modify. intros [= <- <-].
    eapply extends_trans; [eauto|]. apply only_effects_extends. by eexists.
  - intros [= <- <-]. eauto.
Qed.

Lemma add_object_to_scene_extends_any obj srv_obj_ok s s' r :
  add_object_to_scene obj false srv_obj_ok s = (s', r) → extends s s'.
Proof.
  intros Hadd%add_object_to_scene_inv.
  assert (∀ inst, odict.mem (SCENE_OBJECT_INSTANCES s) (SceneObject.id obj) = false →
                  only_effects (with_object obj inst false s) s' → extends s s') as Hreg.
  { intros inst Hmem [effs ->]. unfold extends, with_object. simpl. split_and!; try done.
    rewrite odict_keys_set_new by done. by apply sublist_subseteq, sublist_inserts_r. }
  destruct r as [[[] msg]|e].
  - destruct Hadd as (_ & _ & _ & _ & inst & _ & _ & _ & Hmem & _ & _ & _ & Heff). eauto.
  - by apply only_effects_extends.
  - destruct Hadd as [?|[Hmem [inst Heff]]]; [by apply only_effects_extends|eauto].
Qed.

(** Where [open_scene] leaves the globals, whatever its outcome. *)
Lemma open_scene_any scene_id s s' r :
  open_scene scene_id s = (s', r) →
  s' = s ∨ ∃ loaded, get_scene scene_id = Ok loaded ∧ extends (set_SCENE (Some loaded) s) s'.
Proof.
  unfold open_scene.
  unfold mbind at 1, M_bind at 1, lift at 1.
  destruct (get_scene scene_id) as [loaded|e] eqn:Hload; [|intros [= <- <-]; eauto].
  intros Hrun. right. exists loaded. split; [done|]. revert Hrun.
  unfold mbind at 1, M_bind at 1, modify at 1.
  set (s2 := set_SCENE (Some loaded) s).
  unfold mbind at 1, M_bind at 1.
  destruct (current_scene s2) as [s3 [scene3|e]] eqn:Hscene3; [|done].
  apply current_scene_inv in Hscene3 as [-> _].
  unfold mbind at 1, M_bind at 1.
  match goal with
  | |- context [for_ ?f ?l ?s] => destruct (for_ f l s) as [s4 r4] eqn:Hservices
  end.
  apply for_extends_any in Hservices.
  2:{ intros srv s0 s0' r0. apply log_unless_ok_extends_any. intros ? ?.
      apply add_service_to_scene_extends. }
  destruct r4 as [[]|e]; [|by intros [= <- <-]].
  unfold mbind at 1, M_bind at 1.
  destruct (current_scene s4) as [s5 [scene5|e]] eqn:Hscene5.
  2:{ unfold current_scene, mbind, M_bind, get_state, raise in Hscene5.
      destruct (SCENE s4); simplify_eq. by intros [= <- <-]. }
  apply current_scene_inv in Hscene5 as [-> _].
  unfold mbind at 1, M_bind at 1.
  match goal with
  | |- context [for_ ?f ?l ?s] => destruct (for_ f l s) as [s6 r6] eqn:Hobjects
  end.
  apply for_extends_any in Hobjects.
  2:{ intros obj s0 s0' r0. apply log_unless_ok_extends_any. intros ? ?.
      apply add_object_to_scene_extends_any. }
  assert (extends s2 s6) as Hext by (by eapply extends_trans).
  destruct r6 as [[]|e]; [|by intros [= <- <-]].
  unfold mbind at 1, M_bind at 1.
  destruct (current_scene s6) as [s7 [scene|e]] eqn:Hscene.
  2:{ unfold current_scene, mbind, M_bind, get_state, raise in Hscene.
      destruct (SCENE s6); simplify_eq. by intros [= <- <-]. }
  apply current_scene_inv in Hscene as [-> Hscene].
  unfold mbind at 1, M_bind at 1. unfold get_state.
  destruct (negb _); [by intros [= <- <-]|].
  destruct (negb _); [by intros [= <- <-]|].
  unfold emit, modify. intros [= <- <-].
  eapply extends_trans; [exact Hext|]. apply only_effects_extends. by eexists.
Qed.

End scene_edits.

Lemma refused_object_changes_nothing_witness :
  (@add_object_to_scene Samples.sample_externals
     (SceneObject.mk "gripper2" "Gripper" Samples.origin) true false Samples.cell_server).2
  = Ok (false, "Service(s)-based object.")
  ∧ SCENE (@add_object_to_scene Samples.sample_externals
             (SceneObject.mk "gripper2" "Gripper" Samples.origin) true false
             Samples.cell_server).1
    = Some Samples.cell_scene.
Proof.
  assert (@add_object_to_scene Samples.sample_externals
            (SceneObject.mk "gripper2" "Gripper" Samples.origin) true false
            Samples.cell_server
          = ((@add_object_to_scene Samples.sample_externals
                (SceneObject.mk "gripper2" "Gripper" Samples.origin) true false
                Samples.cell_server).1,
             Ok (false, "Service(s)-based object."))) as Hrun
    by (vm_compute; reflexivity).
  split; [vm_compute; reflexivity|].
  destruct (@refused_object_changes_nothing Samples.sample_externals _ _ _ _ _ _ Hrun)
    as (-> & _).
  vm_compute. reflexivity.
Defined.


Lemma same_service_type_is_added_once_witness :
  (@add_service_to_scene Samples.sample_externals Samples.robot_service
     Samples.box_only_server).2 = Ok (true, "ok")
  ∧ (@add_service_to_scene Samples.sample_externals
       (SceneService.mk "RobotSvc" "cfg2")
       (@add_service_to_scene Samples.sample_externals Samples.robot_service
          Samples.box_only_server).1).2
    = Ok (false, "Service already in scene.").
Proof.
  assert (@add_service_to_scene Samples.sample_externals Samples.robot_service
            Samples.box_only_server
          = ((@add_service_to_scene Samples.sample_externals Samples.robot_service
                Samples.box_only_server).1, Ok (true, "ok"))) as Hrun
    by (vm_compute; reflexivity).
  split; [vm_compute; reflexivity|].
  destruct (@same_service_type_is_added_once Samples.sample_externals
              Samples.robot_service (SceneService.mk "RobotSvc" "cfg2") _ _ _ Hrun)
    as (_ & _ & ->); reflexivity.
Defined.

Lemma at_most_one_robot_service_witness :
  (@add_service_to_scene Samples.two_robot_externals Samples.robot_service
     Samples.two_robot_server).2 = Ok (true, "ok")
  ∧ length (robot_services
              (@add_service_to_scene Samples.two_robot_externals Samples.robot_service
                 Samples.two_robot_server).1) = 1
  ∧ (@add_service_to_scene Samples.two_robot_externals
       (SceneService.mk "RobotSvc2" "cfg2")
       (@add_service_to_scene Samples.two_robot_externals Samples.robot_service
          Samples.two_robot_server).1).2
    = Ok (false, "Scene might contain only one robot service.")
  ∧ length (robot_services
              (@add_service_to_scene Samples.two_robot_externals
                 (SceneService.mk "RobotSvc2" "cfg2")
                 (@add_service_to_scene Samples.two_robot_externals Samples.robot_service
                    Samples.two_robot_server).1).1) ≤ 1.
Proof.
  assert (@constructors_coherent Samples.two_robot_externals) as Hcoherent.
  { intros cls cfg inst [= <-]. reflexivity. }
  assert (length (robot_services
                    (@add_service_to_scene Samples.two_robot_externals
                       Samples.robot_service Samples.two_robot_server).1) ≤ 1) as Hfirst.
  { apply (@at_most_one_robot_service Samples.two_robot_externals Samples.robot_service
             Samples.two_robot_server _
             (@add_service_to_scene Samples.two_robot_externals Samples.robot_service
                Samples.two_robot_server).2 Hcoherent).
    - vm_compute. lia.
    - apply surjective_pairing. }
  split_and!; [vm_compute; reflexivity..|].
  apply (@at_most_one_robot_service Samples.two_robot_externals
           (SceneService.mk "RobotSvc2" "cfg2")
           (@add_service_to_scene Samples.two_robot_externals Samples.robot_service
              Samples.two_robot_server).1 _
           (@add_service_to_scene Samples.two_robot_externals
              (SceneService.mk "RobotSvc2" "cfg2")
              (@add_service_to_scene Samples.two_robot_externals Samples.robot_service
                 Samples.two_robot_server).1).2 Hcoherent Hfirst).
  apply surjective_pairing.
Defined.

Lemma handlers_keep_the_registry_witness :
  registry_matches
    (@remove_from_scene_cb Samples.sample_externals "box1"
       (@add_object_to_scene_cb Samples.sample_externals Samples.box2
          Samples.cell_server).1).1.
Proof.
  apply (@handlers_keep_the_registry Samples.sample_externals Samples.cell_server).
  - eapply rtc_l; [|apply rtc_once].
    + apply (@handled_add_object Samples.sample_externals Samples.box2 _ _ (Success ())).
      vm_compute. reflexivity.
    + apply (@handled_remove Samples.sample_externals "box1" _ _ (Success ())).
      vm_compute. reflexivity.
  - exists Samples.cell_scene. split_and!; vm_compute; reflexivity.
Defined.

Lemma handlers_keep_the_sessions_witness :
  sessions_ok
    (@remove_from_scene_cb Samples.sample_externals "box1" Samples.point_1_server).1.
Proof.
  apply (@handlers_keep_the_sessions Samples.sample_externals Samples.cell_server).
  - eapply rtc_l; [|eapply rtc_l; [|apply rtc_once]].
    + apply (@handled_focus_start Samples.sample_externals "box1" Samples.arm _ _
               (Success ())).
      vm_compute. reflexivity.
    + apply (@handled_focus Samples.sample_externals "box1" 1%Z _ _ (Success [1%Z])).
      vm_compute. reflexivity.
    + apply (@handled_remove Samples.sample_externals "box1" _ _ (Success ())).
      vm_compute. reflexivity.
  - intros k Hk. vm_compute in Hk. discriminate.
Defined.

Lemma removed_id_is_gone_witness :
  (@remove_from_scene_cb Samples.sample_externals "box1" Samples.cell_server).2
  = Ok (Success ())
  ∧ odict.get (SCENE_OBJECT_INSTANCES
                 (@remove_from_scene_cb Samples.sample_externals "box1"
                    Samples.cell_server).1) "gripper1"
    = odict.get (SCENE_OBJECT_INSTANCES Samples.cell_server) "gripper1".
Proof.
  assert (@remove_from_scene_cb Samples.sample_externals "box1" Samples.cell_server
          = ((@remove_from_scene_cb Samples.sample_externals "box1"
                Samples.cell_server).1, Ok (Success ()))) as Hrun
    by (vm_compute; reflexivity).
  split; [vm_compute; reflexivity|].
  destruct (@removed_id_is_gone Samples.sample_externals _ _ _ Hrun) as [Hkept _].
  by apply (Hkept "gripper1").
Defined.

Lemma service_in_use_is_kept_witness :
  @remove_from_scene_cb Samples.sample_externals "RobotSvc" Samples.cell_server
  = (Samples.cell_server,
     Ok (Failure
           "Object gripper1 (Gripper) relies on the service to be removed: RobotSvc.")).
Proof.
  assert (@remove_from_scene_cb Samples.sample_externals "RobotSvc" Samples.cell_server
          = ((@remove_from_scene_cb Samples.sample_externals "RobotSvc"
                Samples.cell_server).1,
             Ok (Failure
                   "Object gripper1 (Gripper) relies on the service to be removed: RobotSvc.")))
    as Hrun by (vm_compute; reflexivity).
  assert (SCENE Samples.cell_server = Some Samples.cell_scene) as Hscene
    by (vm_compute; reflexivity).
  assert ("RobotSvc" ∉ odict.keys (SCENE_OBJECT_INSTANCES Samples.cell_server)) as Hnot.
  { intros Hin. vm_compute in Hin.
    apply elem_of_cons in Hin as [?|Hin]; [discriminate|].
    apply elem_of_cons in Hin as [?|Hin]; [discriminate|]. by apply elem_of_nil in Hin. }
  assert (SceneObject.mk "gripper1" "Gripper" Samples.origin
          ∈ Scene.objects Samples.cell_scene) as Hobj by (right; left).
  assert (OBJECT_TYPES Samples.cell_server !! "Gripper" = Some Samples.gripper_meta)
    as Hmeta by (vm_compute; reflexivity).
  assert ("RobotSvc" ∈ ObjectTypeMeta.needs_services Samples.gripper_meta) as Hneeds
    by (vm_compute; reflexivity).
  destruct (@service_in_use_is_kept Samples.sample_externals "RobotSvc"
              Samples.cell_server Samples.cell_scene
              (SceneObject.mk "gripper1" "Gripper" Samples.origin) Samples.gripper_meta
              _ _ Hscene Hnot Hobj Hmeta Hneeds Hrun) as [Hsame _].
  rewrite Hsame in Hrun. exact Hrun.
Defined.

Lemma add_then_remove_object_restores_the_scene_witness :
  SCENE (@remove_from_scene_cb Samples.sample_externals "box2"
           (@add_object_to_scene_cb Samples.sample_externals Samples.box2
              Samples.cell_server).1).1
  = SCENE Samples.cell_server.
Proof.
  destruct (@add_then_remove_object_restores_the_scene Samples.sample_externals
              Samples.box2 Samples.cell_server
              (@add_object_to_scene_cb Samples.sample_externals Samples.box2
                 Samples.cell_server).1
              (@remove_from_scene_cb Samples.sample_externals "box2"
                 (@add_object_to_scene_cb Samples.sample_externals Samples.box2
                    Samples.cell_server).1).1
              (Success ())) as (_ & Hscene & _).
  - exists Samples.cell_scene. split_and!; vm_compute; reflexivity.
  - vm_compute. reflexivity.
  - vm_compute. reflexivity.
  - exact Hscene.
Defined.

(** ** Focus sessions and robot queries *)

Section focus_and_robots.
Context `{Externals}.

Lemma focus_object_start_cb_editable object_id robot s s' :
  focus_object_start_cb object_id robot s = (s', Ok (Success ())) → editable s.
Proof.
  unfold focus_object_start_cb.
  by intros [(_ & _ & ? & [=])|[? _]]%guards_inv.
Qed.

(** A start that succeeds records the robot and an empty point dictionary
    for the object, and every further start for the object is refused
    without a change. *)
Theorem second_start_is_refused object_id robot robot' s s' :
  focus_object_start_cb object_id robot s = (s', Ok (Success ())) →
  FOCUS_OBJECT_ROBOT s' !! object_id = Some robot
  ∧ FOCUS_OBJECT s' !! object_id = Some []
  ∧ focus_object_start_cb object_id robot' s'
    = (s', Ok (Failure "Focusing already started.")).
Proof.
  intros Hstart. pose proof (focus_object_start_cb_editable _ _ _ _ Hstart) as Hedit.
  apply focus_object_start_cb_inv in Hstart as [[_ [? [=]]]|(_ & _ & _ & [effs ->])].
  set (s1 := set_effects effs _).
  assert (SCENE s1 = SCENE s) as Hscene1 by done.
  assert (PROJECT s1 = PROJECT s) as Hproject1 by done.
  assert (FOCUS_OBJECT_ROBOT s1 !! object_id = Some robot) as Hrobot1.
  { subst s1. cbn [FOCUS_OBJECT_ROBOT set_effects set_FOCUS_OBJECT set_FOCUS_OBJECT_ROBOT].
    apply lookup_insert_eq. }
  assert (FOCUS_OBJECT s1 !! object_id = Some []) as Hpoints1.
  { subst s1. cbn [FOCUS_OBJECT set_effects set_FOCUS_OBJECT]. apply lookup_insert_eq. }
  clearbody s1. split_and!; [done..|].
  destruct Hedit as [(scene & Hscene & Hid) Hproject].
  unfold focus_object_start_cb, scene_needed, no_project.
  unfold mbind, M_bind, get_state. rewrite Hscene1, Hscene.
  rewrite decide_False by done. rewrite Hproject1, Hproject.
  rewrite decide_True; [done|]. apply elem_of_dom. eauto.
Qed.

(** A capture succeeds only for an object with a recorded robot; it records
    no robot and touches no other session. *)
Theorem capture_needs_a_recorded_robot object_id point_idx s s' idxs :
  focus_object_cb object_id point_idx s = (s', Ok (Success idxs)) →
  object_id ∈ dom (FOCUS_OBJECT_ROBOT s)
  ∧ point_idx ∈ idxs
  ∧ (odict.keys <$> FOCUS_OBJECT s' !! object_id) = Some idxs
  ∧ FOCUS_OBJECT_ROBOT s' = FOCUS_OBJECT_ROBOT s
  ∧ (∀ k, k ≠ object_id → FOCUS_OBJECT s' !! k = FOCUS_OBJECT s !! k)
  ∧ SCENE s' = SCENE s
  ∧ SCENE_OBJECT_INSTANCES s' = SCENE_OBJECT_INSTANCES s
  ∧ SERVICES_INSTANCES s' = SERVICES_INSTANCES s.
Proof.
  intros [[_ [? [=]]]|(robot & points & pose & Hrobot & -> & [= ->] & [effs ->])]
    %focus_object_cb_inv.
  simpl. split_and!; try done.
  - apply elem_of_dom. eauto.
  - rewrite odict_keys_set. case_decide; [done|]. apply elem_of_app. right. left.
  - by rewrite lookup_insert_eq.
  - intros k Hk. by rewrite lookup_insert_ne.
Qed.

(** What [get_robot_instance] returns is a robot that was asked for: a
    registered [Robot] object under that id, or else the first robot service
    of the scene when it lists the id; a given end effector is one of those
    the driver lists. *)
Theorem get_robot_instance_returns_a_robot robot_id end_effector_id s s' inst :
  get_robot_instance robot_id end_effector_id s = (s', Ok inst) →
  match inst with
  | inl robot =>
      odict.get (SCENE_OBJECT_INSTANCES s) robot_id = Some robot
      ∧ Generic.is_robot robot = true
      ∧ ∀ ee, given end_effector_id = Some ee →
          ∃ ids, robot_end_effectors_ids robot = Ok ids ∧ ee ∈ ids
  | inr service =>
      odict.get (SCENE_OBJECT_INSTANCES s) robot_id = None
      ∧ find_robot_service s = Some service
      ∧ (∃ robots, service_robot_ids service = Ok robots ∧ robot_id ∈ robots)
      ∧ ∀ ee, given end_effector_id = Some ee →
          ∃ ids, service_end_effectors_ids service robot_id = Ok ids ∧ ee ∈ ids
  end.
Proof.
  unfold get_robot_instance.
  unfold mbind at 1, M_bind at 1, get_state at 1.
  destruct (odict.get _ _) as [robot_inst|] eqn:Hget.
  - destruct (Generic.is_robot robot_inst) eqn:Hrobot; simpl; [|done].
    destruct (given end_effector_id) as [ee|] eqn:Hee.
    + unfold mbind, M_bind, emit, modify, lift.
      destruct (robot_end_effectors_ids robot_inst) as [ids|e] eqn:Hids; [|done].
      case_decide; [|done]. intros [= <- <-]. split_and!; [done..|].
      intros ? [= <-]. eauto.
    + intros [= <- <-]. split_and!; [done..|]. by intros ? [=].
  - destruct (find_robot_service s) as [srv|] eqn:Hsrv; [|done].
    unfold mbind at 1, M_bind at 1, emit at 1, modify at 1.
    unfold mbind at 1, M_bind at 1, lift at 1.
    destruct (service_robot_ids srv) as [robots|e] eqn:Hrobots; [|done].
    case_decide; [|done].
    destruct (given end_effector_id) as [ee|] eqn:Hee.
    + unfold mbind, M_bind, emit, modify, lift.
      destruct (service_end_effectors_ids srv robot_id) as [ids|e] eqn:Hids; [|done].
      case_decide; [|done]. intros [= <- <-]. split_and!; eauto.
      intros ? [= <-]. eauto.
    + intros [= <- <-]. split_and!; eauto. by intros ? [=].
Qed.

Lemma get_scene_object_set_pose objects id pose o :
  head (filter (λ o, SceneObject.id o = id) objects) = Some o →
  head (filter (λ o, SceneObject.id o = id) (set_object_pose objects id pose))
  = Some (SceneObject.mk id (SceneObject.type o) pose).
Proof.
  induction objects as [|o' objects IH]; [done|]. simpl.
  rewrite filter_cons. case_decide as Hid.
  - simpl. intros [= ->]. rewrite filter_cons. simpl. rewrite decide_True by done.
    simpl. by rewrite Hid.
  - intros Hhead. rewrite filter_cons, decide_False by done. by apply IH.
Qed.

Lemma get_scene_object_set_pose_ne objects id pose k :
  k ≠ id →
  head (filter (λ o, SceneObject.id o = k) (set_object_pose objects id pose))
  = head (filter (λ o, SceneObject.id o = k) objects).
Proof.
  intros Hne. induction objects as [|o' objects IH]; [done|]. simpl.
  case_decide as Hid.
  - rewrite !filter_cons. simpl. rewrite !decide_False; [done|by rewrite Hid|].
    intros Hk. apply Hne. by rewrite <-Hk, Hid.
  - rewrite !filter_cons. case_decide; [done|]. apply IH.
Qed.

(** A pose update that succeeds leaves the measured pose on the object, and
    leaves every other object, the services and the registries as they
    were; a refusal changes no global. *)
Theorem measured_pose_is_stored id robot s s' r :
  update_action_object_cb id robot s = (s', Ok r) →
  match r with
  | Failure _ => only_effects s s'
  | Success _ =>
      ∃ scene scene' o pose s1,
        SCENE s = Some scene ∧ SCENE s' = Some scene'
        ∧ get_end_effector_pose (RobotArg.robot_id robot) (RobotArg.end_effector robot) s
          = (s1, Ok pose)
        ∧ get_scene_object scene id = Some o
        ∧ get_scene_object scene' id = Some (SceneObject.mk id (SceneObject.type o) pose)
        ∧ (∀ k, k ≠ id → get_scene_object scene' k = get_scene_object scene k)
        ∧ SceneObject.id <$> Scene.objects scene' = SceneObject.id <$> Scene.objects scene
        ∧ Scene.services scene' = Scene.services scene
        ∧ Scene.id scene' = Scene.id scene
        ∧ SCENE_OBJECT_INSTANCES s' = SCENE_OBJECT_INSTANCES s
        ∧ SERVICES_INSTANCES s' = SERVICES_INSTANCES s
  end.
Proof.
  intros [[Heff [msg ->]]|(-> & _ & scene & pose & s1 & Hscene & _ & Hin & Hpose & [effs ->])]
    %update_action_object_cb_inv; [done|].
  apply list_elem_of_fmap in Hin as (o0 & Hid0 & Hin0).
  destruct (get_scene_object scene id) as [o|] eqn:Hobj.
  2:{ unfold get_scene_object in Hobj. apply head_None in Hobj.
      assert (o0 ∈ filter (λ o, SceneObject.id o = id) (Scene.objects scene)) as Hf.
      { apply list_elem_of_filter. done. }
      rewrite Hobj in Hf. by apply elem_of_nil in Hf. }
  eexists scene, _, o, pose, s1. simpl. split_and!; try done.
  - unfold get_scene_object in *. simpl. by apply get_scene_object_set_pose.
  - intros k Hk. unfold get_scene_object. simpl. by apply get_scene_object_set_pose_ne.
  - apply set_object_pose_ids.
Qed.

End focus_and_robots.

Lemma second_start_is_refused_witness :
  (@focus_object_start_cb Samples.sample_externals "box1" Samples.arm
     Samples.cell_server).2 = Ok (Success ())
  ∧ @focus_object_start_cb Samples.sample_externals "box1"
      (RobotArg.mk "arm2" "tool0") Samples.focusing_server
    = (Samples.focusing_server, Ok (Failure "Focusing already started.")).
Proof.
  assert (@focus_object_start_cb Samples.sample_externals "box1" Samples.arm
            Samples.cell_server = (Samples.focusing_server, Ok (Success ()))) as Hrun
    by (vm_compute; reflexivity).
  split; [vm_compute; reflexivity|].
  by destruct (@second_start_is_refused Samples.sample_externals "box1" Samples.arm
                 (RobotArg.mk "arm2" "tool0") _ _ Hrun) as (_ & _ & ->).
Defined.

Lemma capture_needs_a_recorded_robot_witness :
  @focus_object_cb Samples.sample_externals "box1" 1 Samples.focusing_server
  = (Samples.point_1_server, Ok (Success [1%Z]))
  ∧ "box1" ∈ dom (FOCUS_OBJECT_ROBOT Samples.focusing_server)
  ∧ FOCUS_OBJECT_ROBOT Samples.point_1_server = FOCUS_OBJECT_ROBOT Samples.focusing_server.
Proof.
  assert (@focus_object_cb Samples.sample_externals "box1" 1 Samples.focusing_server
          = (Samples.point_1_server, Ok (Success [1%Z]))) as Hrun
    by (vm_compute; reflexivity).
  split; [exact Hrun|].
  destruct (@capture_needs_a_recorded_robot Samples.sample_externals _ _ _ _ _ Hrun)
    as (Hrobot & _ & _ & Hsame & _).
  split; [exact Hrobot|exact Hsame].
Defined.

Lemma get_robot_instance_returns_a_robot_witness :
  (@get_robot_instance Samples.sample_externals "arm1" (Some "tool0")
     Samples.cell_server).2
  = Ok (inr (Service.mk "RobotSvc" "cfg1" true))
  ∧ @find_robot_service Samples.cell_server = Some (Service.mk "RobotSvc" "cfg1" true).
Proof.
  assert (@get_robot_instance Samples.sample_externals "arm1" (Some "tool0")
            Samples.cell_server
          = ((@get_robot_instance Samples.sample_externals "arm1" (Some "tool0")
                Samples.cell_server).1,
             Ok (inr (Service.mk "RobotSvc" "cfg1" true)))) as Hrun
    by (vm_compute; reflexivity).
  split; [vm_compute; reflexivity|].
  by destruct (@get_robot_instance_returns_a_robot Samples.sample_externals
                 _ _ _ _ _ Hrun) as (_ & Hfound & _).
Defined.

Lemma measured_pose_is_stored_witness :
  (@update_action_object_cb Samples.sample_externals "box1" Samples.arm
     Samples.cell_server).2 = Ok (Success ())
  ∧ ∃ scene', SCENE (@update_action_object_cb Samples.sample_externals "box1" Samples.arm
                       Samples.cell_server).1 = Some scene'
      ∧ get_scene_object scene' "box1"
        = Some (SceneObject.mk "box1" "Box" Samples.tool_pose)
      ∧ get_scene_object scene' "gripper1"
        = Some (SceneObject.mk "gripper1" "Gripper" Samples.origin).
Proof.
  assert (@update_action_object_cb Samples.sample_externals "box1" Samples.arm
            Samples.cell_server
          = ((@update_action_object_cb Samples.sample_externals "box1" Samples.arm
                Samples.cell_server).1, Ok (Success ()))) as Hrun
    by (vm_compute; reflexivity).
  split; [vm_compute; reflexivity|].
  destruct (@measured_pose_is_stored Samples.sample_externals _ _ _ _ _ Hrun)
    as (scene & scene' & o & pose & s1 & Hscene & Hscene' & Hpose & Ho & Ho' & Hothers & _).
  exists scene'. split; [exact Hscene'|].
  vm_compute in Hscene. injection Hscene as <-.
  vm_compute in Hpose. injection Hpose as _ <-.
  vm_compute in Ho. injection Ho as <-.
  split; [exact Ho'|]. rewrite Hothers by done. vm_compute. reflexivity.
Defined.

(** ** Opening a project *)

Section project_facts.
Context `{Externals} `{Storage}.

Lemma open_project_any project_id s s' r :
  open_project project_id s = (s', r) →
  (s' = s ∧ ∃ e, get_project project_id = Raise e ∧ r = Raise e)
  ∨ (∃ project, get_project project_id = Ok project ∧ PROJECT s' = Some project
       ∧ FOCUS_OBJECT s' = FOCUS_OBJECT s ∧ FOCUS_OBJECT_ROBOT s' = FOCUS_OBJECT_ROBOT s
       ∧ (r = Ok () →
          ∃ loaded, get_scene (Project.scene_id project) = Ok loaded
                    ∧ SCENE s' = Some loaded ∧ registry_matches s')).
Proof.
  unfold open_project.
  unfold mbind at 1, M_bind at 1, lift at 1.
  destruct (get_project project_id) as [project|e] eqn:Hproject; [|intros [= <- <-]; eauto].
  unfold mbind at 1, M_bind at 1, modify at 1.
  unfold mbind at 1, M_bind at 1.
  destruct (open_scene _ _) as [s1 r1] eqn:Hopen.
  intros Hrest. right. exists project. split; [done|].
  pose proof (open_scene_any _ _ _ _ Hopen) as Hany.
  assert (PROJECT s1 = Some project ∧ FOCUS_OBJECT s1 = FOCUS_OBJECT s
          ∧ FOCUS_OBJECT_ROBOT s1 = FOCUS_OBJECT_ROBOT s) as (Hp & Hf & Hr).
  { destruct Hany as [->|(loaded & _ & (_ & -> & -> & -> & _))]; done. }
  destruct r1 as [[]|e]; revert Hrest.
  - unfold emit, modify. intros [= <- <-]. simpl. split_and!; [done..|]. intros _.
    apply open_scene_inv in Hopen as (loaded & Hload & (Hscene & _) & Hmatch).
    exists loaded. split_and!; [done|by rewrite Hscene|].
    eapply registry_matches_only_effects; [|exact Hmatch]. by eexists.
  - intros [= <- <-]. split_and!; [done..|]. by intros [=].
Qed.

(** When [open_project] fails after the project was fetched, the project
    stays open: the assignment to [PROJECT] is not undone, so the handlers
    of the scene refuse from then on. *)
Theorem failed_open_project_leaves_the_project_open project_id project s s' e obj :
  get_project project_id = Ok project →
  open_project_cb project_id s = (s', Raise e) →
  PROJECT s' = Some project
  ∧ ∃ msg, add_object_to_scene_cb obj s' = (s', Ok (Failure msg)).
Proof.
  intros Hget. unfold open_project_cb, mbind, M_bind.
  destruct (open_project project_id s) as [s1 [[]|e1]] eqn:Hopen; [done|].
  intros [= <- <-].
  apply open_project_any in Hopen as [(_ & ? & ? & _)|(p & Hget' & Hp & _)];
    [congruence|].
  rewrite Hget in Hget'. injection Hget' as <-.
  split; [done|].
  unfold add_object_to_scene_cb, scene_needed, no_project, mbind, M_bind, get_state.
  destruct (SCENE s1); [|eauto]. case_decide; [eauto|]. rewrite Hp. eauto.
Qed.

(** When [open_project_cb] returns, the project and its scene are open, the
    registries hold the instances of that scene, and the handlers that edit
    the scene refuse. *)
Theorem opened_project_locks_the_scene project_id s s' r :
  open_project_cb project_id s = (s', Ok r) →
  r = Success ()
  ∧ ∃ project loaded,
      get_project project_id = Ok project ∧ PROJECT s' = Some project
      ∧ get_scene (Project.scene_id project) = Ok loaded ∧ SCENE s' = Some loaded
      ∧ registry_matches s'
      ∧ (∀ obj, ∃ msg, add_object_to_scene_cb obj s' = (s', Ok (Failure msg)))
      ∧ (∀ srv, ∃ msg, add_service_to_scene_cb srv s' = (s', Ok (Failure msg)))
      ∧ (∀ id, ∃ msg, remove_from_scene_cb id s' = (s', Ok (Failure msg)))
      ∧ (∀ id robot, ∃ msg, update_action_object_cb id robot s' = (s', Ok (Failure msg)))
      ∧ (∀ scene_id, open_scene_cb scene_id s'
                     = (s', Ok (Failure "Not available during project editing."))).
Proof.
  unfold open_project_cb, mbind, M_bind.
  destruct (open_project project_id s) as [s1 [[]|e1]] eqn:Hopen; [|done].
  intros [= <- <-]. split; [done|].
  apply open_project_any in Hopen as [(_ & ? & _ & [=])|(p & Hget & Hp & _ & _ & Hok)].
  destruct (Hok eq_refl) as (loaded & Hload & Hscene & Hmatch).
  exists p, loaded. split_and!; try done.
  - intros obj.
    unfold add_object_to_scene_cb, scene_needed, no_project, mbind, M_bind, get_state.
    rewrite Hscene. case_decide; [eauto|]. rewrite Hp. eauto.
  - intros srv.
    unfold add_service_to_scene_cb, scene_needed, no_project, mbind, M_bind, get_state.
    rewrite Hscene. case_decide; [eauto|]. rewrite Hp. eauto.
  - intros id.
    unfold remove_from_scene_cb, scene_needed, no_project, mbind, M_bind, get_state.
    rewrite Hscene. case_decide; [eauto|]. rewrite Hp. eauto.
  - intros id robot.
    unfold update_action_object_cb, scene_needed, no_project, mbind, M_bind, get_state.
    rewrite Hscene. case_decide; [eauto|]. rewrite Hp. eauto.
  - intros scene_id. unfold open_scene_cb, no_project, mbind, M_bind, get_state.
    by rewrite Hp.
Qed.

End project_facts.

Lemma failed_open_project_leaves_the_project_open_witness :
  (@open_project_cb Samples.sample_externals Samples.sample_storage "project2"
     Samples.fresh_server).2
  = Raise (PersistentStorageException "Scene not found.")
  ∧ PROJECT (@open_project_cb Samples.sample_externals Samples.sample_storage "project2"
               Samples.fresh_server).1
    = Some Samples.lost_project.
Proof.
  assert (@open_project_cb Samples.sample_externals Samples.sample_storage "project2"
            Samples.fresh_server
          = ((@open_project_cb Samples.sample_externals Samples.sample_storage "project2"
                Samples.fresh_server).1,
             Raise (PersistentStorageException "Scene not found."))) as Hrun
    by (vm_compute; reflexivity).
  split; [vm_compute; reflexivity|].
  assert (@get_project Samples.sample_storage "project2" = Ok Samples.lost_project)
    as Hget by (vm_compute; reflexivity).
  by destruct (@failed_open_project_leaves_the_project_open Samples.sample_externals
                 Samples.sample_storage _ _ _ _ _ Samples.box2 Hget Hrun) as [-> _].
Defined.

Lemma opened_project_locks_the_scene_witness :
  (@open_project_cb Samples.sample_externals Samples.sample_storage "project1"
     Samples.fresh_server).2 = Ok (Success ())
  ∧ (@remove_from_scene_cb Samples.sample_externals "box1"
       (@open_project_cb Samples.sample_externals Samples.sample_storage "project1"
          Samples.fresh_server).1).2
    = Ok (Failure "Not available during project editing.").
Proof.
  assert (@open_project_cb Samples.sample_externals Samples.sample_storage "project1"
            Samples.fresh_server
          = ((@open_project_cb Samples.sample_externals Samples.sample_storage "project1"
                Samples.fresh_server).1, Ok (Success ()))) as Hrun
    by (vm_compute; reflexivity).
  split; [vm_compute; reflexivity|].
  destruct (@opened_project_locks_the_scene Samples.sample_externals
              Samples.sample_storage _ _ _ _ Hrun)
    as (_ & project & loaded & _ & _ & _ & _ & _ & _ & _ & Hremove & _).
  destruct (Hremove "box1") as [msg Hmsg]. rewrite Hmsg.
  vm_compute in Hmsg. by injection Hmsg as <-.
Defined.

(** ** Scene changes sent by a user interface *)

Section change_facts.
Context `{Externals}.

Lemma for_collision_remove_inv rs objs s s' r :
  for_ (λ obj_inst, collision obj_inst rs false true) objs s = (s', r) →
  only_effects s s'.
Proof.
  revert s. induction objs as [|o objs IH]; intros s; simpl.
  { intros [= <- <-]. apply only_effects_refl. }
  unfold mbind at 1, M_bind at 1.
  destruct (collision o rs false true s) as [s1 rc] eqn:Hc.
  apply collision_inv in Hc as [Heff _].
  destruct rc; [|by intros [= <- <-]].
  intros Hrest%IH. by eapply only_effects_trans.
Qed.

Lemma forallb_mem_objects (d : list (string * Generic.t)) objects :
  forallb (λ obj, odict.mem d (SceneObject.id obj)) objects = true ↔
  ∀ obj, obj ∈ objects → SceneObject.id obj ∈ odict.keys d.
Proof.
  rewrite forallb_forall. setoid_rewrite odict_mem_true.
  split; intros Hall obj Hin; apply Hall; by apply list_elem_of_In.
Qed.

Lemma forallb_mem_services (d : list (string * Service.t)) services :
  forallb (λ srv, odict.mem d (SceneService.type srv)) services = true ↔
  ∀ srv, srv ∈ services → SceneService.type srv ∈ odict.keys d.
Proof.
  rewrite forallb_forall. setoid_rewrite odict_mem_true.
  split; intros Hall srv Hin; apply Hall; by apply list_elem_of_In.
Qed.

(** What [scene_change] leaves behind, whatever its outcome. *)
Lemma scene_change_inv ui data s s' r :
  scene_change ui data s = (s', r) →
  (only_effects s s' ∧ r ≠ Ok [ToOthers ui data]
   ∧ (r = Ok [] ∧ is_Some (PROJECT s)
      ∨ (r = Ok [ToInterface ui (SCENE s)] ∧ PROJECT s = None
         ∧ ∃ scene, data = Some scene ∧ ¬ names_registered s scene)
      ∨ (∃ e, r = Raise e ∧ PROJECT s = None ∧ data = None)))
  ∨ (r = Ok [ToOthers ui data] ∧ PROJECT s = None
     ∧ match data with
       | Some scene =>
           only_effects (set_SCENE (Some scene) s) s' ∧ names_registered s scene
       | None =>
           only_effects (set_SCENE None (set_SERVICES_INSTANCES []
                           (set_SCENE_OBJECT_INSTANCES [] s))) s'
       end).
Proof.
  unfold scene_change.
  unfold mbind at 1, M_bind at 1, get_state at 1.
  destruct (PROJECT s) eqn:Hproject.
  { unfold mbind, M_bind, log, emit, modify. intros [= <- <-]. left.
    split_and!; [by eexists|done|]. left. eauto. }
  unfold mbind at 1, M_bind at 1.
  destruct data as [scene|].
  - destruct (forallb _ (Scene.services scene)) eqn:Hsrvs; simpl.
    2:{ unfold mbind, M_bind, log, emit, modify. intros [= <- <-]. left.
        split_and!; [by eexists|done|]. right. left. split_and!; [done..|].
        exists scene. split; [done|]. intros [_ Hall%forallb_mem_services]. congruence. }
    destruct (forallb _ (Scene.objects scene)) eqn:Hobjs; simpl.
    2:{ unfold mbind, M_bind, log, emit, modify. intros [= <- <-]. left.
        split_and!; [by eexists|done|]. right. left. split_and!; [done..|].
        exists scene. split; [done|]. intros [Hall%forallb_mem_objects _]. congruence. }
    unfold mbind, M_bind, modify. intros [= <- <-]. right.
    split_and!; [done..|by eexists|].
    split; [by apply forallb_mem_objects|by apply forallb_mem_services].
  - unfold mbind at 1, M_bind at 1, log at 1, emit at 1, modify at 1.
    unfold mbind at 1, M_bind at 1.
    set (s0 := set_effects _ s).
    match goal with
    | |- context [(?m s0)] =>
        match type of m with M () => destruct (m s0) as [s1 rc] eqn:Hcoll end
    end.
    assert (only_effects s s1) as [effs ->].
    { revert Hcoll. destruct (find_robot_service s).
      - intros [effs ->]%for_collision_remove_inv. by eexists.
      - intros [= <- <-]. by eexists. }
    destruct rc as [[]|e].
    + unfold mbind, M_bind, modify. simpl. intros [= <- <-]. right.
      split_and!; [done..|]. by eexists.
    + intros [= <- <-]. left. split_and!; [by eexists|done|]. right. right. eauto.
Qed.

(** [scene_change] creates no instance, and it keeps an instance for every
    object and service of the scene it leaves open. *)
Theorem scene_change_keeps_the_scene_within_the_registry ui data s s' r :
  scene_change ui data s = (s', r) →
  scene_within_registry s →
  scene_within_registry s'
  ∧ odict.keys (SCENE_OBJECT_INSTANCES s') ⊆ odict.keys (SCENE_OBJECT_INSTANCES s)
  ∧ odict.keys (SERVICES_INSTANCES s') ⊆ odict.keys (SERVICES_INSTANCES s).
Proof.
  intros [([effs ->] & _)|(_ & _ & Hdata)]%scene_change_inv Hwithin; [done|].
  destruct data as [scene|].
  - destruct Hdata as ([effs ->] & Hnamed). split; [|done].
    by intros scene' [= <-].
  - destruct Hdata as [effs ->]. simpl. split; [done|]. split; by intros ? ?%elem_of_nil.
Qed.

(** A change to a scene is accepted exactly when every object and service
    it names has an instance; it then becomes the scene as sent, whatever
    instances it leaves out, and otherwise the sender gets the scene of the
    server back.  No instance is made or dropped either way. *)
Theorem scene_change_accepts_registered_names_only ui scene s s' r :
  PROJECT s = None →
  scene_change ui (Some scene) s = (s', r) →
  (names_registered s scene → r = Ok [ToOthers ui (Some scene)] ∧ SCENE s' = Some scene)
  ∧ (¬ names_registered s scene → r = Ok [ToInterface ui (SCENE s)] ∧ SCENE s' = SCENE s)
  ∧ SCENE_OBJECT_INSTANCES s' = SCENE_OBJECT_INSTANCES s
  ∧ SERVICES_INSTANCES s' = SERVICES_INSTANCES s.
Proof.
  intros Hproject Hrun.
  apply scene_change_inv in Hrun
    as [([effs ->] & _ & [[_ [? Hp]]|[(-> & _ & sc & [= <-] & Hno)|(? & _ & _ & [=])]])
       |(-> & _ & ([effs ->] & Hnamed))].
  - congruence.
  - split_and!; done.
  - split_and!; done.
Qed.

End change_facts.

Lemma scene_change_keeps_the_scene_within_the_registry_witness :
  (@scene_change Samples.sample_externals 1 (Some Samples.box_scene)
     Samples.cell_server).2
  = Ok [ToOthers 1 (Some Samples.box_scene)]
  ∧ scene_within_registry
      (@scene_change Samples.sample_externals 1 (Some Samples.box_scene)
         Samples.cell_server).1
  ∧ odict.keys (SCENE_OBJECT_INSTANCES
                  (@scene_change Samples.sample_externals 1 (Some Samples.box_scene)
                     Samples.cell_server).1)
    = ["box1"; "gripper1"].
Proof.
  split; [vm_compute; reflexivity|].
  destruct (@scene_change_keeps_the_scene_within_the_registry Samples.sample_externals
              1 (Some Samples.box_scene) Samples.cell_server
              (@scene_change Samples.sample_externals 1 (Some Samples.box_scene)
                 Samples.cell_server).1
              (@scene_change Samples.sample_externals 1 (Some Samples.box_scene)
                 Samples.cell_server).2) as (Hwithin & _).
  - by destruct (@scene_change Samples.sample_externals _ _ _).
  - intros scene Hscene. vm_compute in Hscene. injection Hscene as <-.
    split.
    + intros obj Hobj. apply (odict_mem_true _ _). 
      apply elem_of_cons in Hobj as [->|Hobj]; [vm_compute; reflexivity|].
      apply elem_of_cons in Hobj as [->|Hobj]; [vm_compute; reflexivity|].
      by apply elem_of_nil in Hobj.
    + intros srv Hsrv. apply (odict_mem_true _ _).
      apply elem_of_cons in Hsrv as [->|Hsrv]; [vm_compute; reflexivity|].
      by apply elem_of_nil in Hsrv.
  - split; [exact Hwithin|]. vm_compute. reflexivity.
Defined.

Lemma scene_change_accepts_registered_names_only_witness :
  @scene_change Samples.sample_externals 1
    (Some (Scene.mk "scene1" [Samples.box2] [])) Samples.cell_server
  = ((@scene_change Samples.sample_externals 1
        (Some (Scene.mk "scene1" [Samples.box2] [])) Samples.cell_server).1,
     Ok [ToInterface 1 (Some Samples.cell_scene)])
  ∧ SCENE_OBJECT_INSTANCES
      (@scene_change Samples.sample_externals 1
         (Some (Scene.mk "scene1" [Samples.box2] [])) Samples.cell_server).1
    = SCENE_OBJECT_INSTANCES Samples.cell_server.
Proof.
  assert (@scene_change Samples.sample_externals 1
            (Some (Scene.mk "scene1" [Samples.box2] [])) Samples.cell_server
          = ((@scene_change Samples.sample_externals 1
                (Some (Scene.mk "scene1" [Samples.box2] [])) Samples.cell_server).1,
             Ok [ToInterface 1 (Some Samples.cell_scene)])) as Hrun
    by (vm_compute; reflexivity).
  split; [exact Hrun|].
  assert (PROJECT Samples.cell_server = None) as Hproject by (vm_compute; reflexivity).
  by destruct (@scene_change_accepts_registered_names_only Samples.sample_externals
                 _ _ _ _ _ Hproject Hrun) as (_ & _ & -> & _).
Defined.

(** ** Projects that use an object *)

Section usage_facts.
Context `{Storage} `{Parsers}.

Lemma yields_of_actions_inv project obj_id actions yielded :
  yields_of_actions project obj_id actions = Ok yielded →
  (∀ p, p ∈ yielded → p = project)
  ∧ (yielded ≠ [] ↔
     ∃ action name, action ∈ actions ∧ parse_type action = Ok (obj_id, name)).
Proof.
  revert yielded. induction actions as [|a actions IH]; intros yielded; simpl.
  { intros [= <-]. split; [by intros ? ?%elem_of_nil|].
    split; [done|]. by intros (? & ? & ?%elem_of_nil & _). }
  destruct (parse_type a) as [[target name]|e] eqn:Hparse; [|done]. simpl.
  case_decide as Htarget.
  - intros [= <-]. split; [by intros ? ->%list_elem_of_singleton|].
    split; [|done]. intros _. exists a, name. split; [left|by rewrite Hparse, Htarget].
  - intros [Hall Hiff]%IH. split; [done|]. rewrite Hiff. split.
    + intros (action & name' & Hin & Hp). exists action, name'. split; [by right|done].
    + intros (action & name' & [->|Hin]%elem_of_cons & Hp); [congruence|eauto].
Qed.

Lemma yields_of_action_points_inv project obj_id aps yielded :
  yields_of_action_points project obj_id aps = Ok yielded →
  (∀ p, p ∈ yielded → p = project)
  ∧ (yielded ≠ [] ↔
     ∃ ap action name, ap ∈ aps ∧ action ∈ ActionPoint.actions ap
                       ∧ parse_type action = Ok (obj_id, name)).
Proof.
  revert yielded. induction aps as [|ap aps IH]; intros yielded; simpl.
  { intros [= <-]. split; [by intros ? ?%elem_of_nil|].
    split; [done|]. by intros (? & ? & ? & ?%elem_of_nil & _). }
  destruct (yields_of_actions _ _ _) as [y1|e] eqn:Hy1; [|done]. simpl.
  destruct (yields_of_action_points _ _ _) as [y2|e] eqn:Hy2; [|done]. simpl.
  intros [= <-].
  apply yields_of_actions_inv in Hy1 as [Hall1 Hiff1].
  destruct (IH _ eq_refl) as [Hall2 Hiff2].
  split; [intros p [?|?]%elem_of_app; eauto|].
  split.
  - intros Hne. destruct y1 as [|p y1].
    + apply Hiff2 in Hne as (ap' & a & name & ? & ? & ?).
      exists ap', a, name. split; [by right|done].
    + destruct Hiff1 as [(a & name & ? & ?) _]; [done|].
      exists ap, a, name. split; [left|done].
  - intros (ap' & a & name & [->|Hin]%elem_of_cons & Ha & Hp).
    + destruct Hiff1 as [_ Hne]. intros [Hnil _]%app_eq_nil. apply Hne; eauto.
    + destruct Hiff2 as [_ Hne]. intros [_ Hnil]%app_eq_nil. apply Hne; eauto 10.
Qed.

Lemma yields_of_objects_inv project obj_id objects yielded :
  yields_of_objects project obj_id objects = Ok yielded →
  (∀ p, p ∈ yielded → p = project)
  ∧ (yielded ≠ [] ↔
     (∃ obj, obj ∈ objects ∧ ProjectObject.id obj = obj_id)
     ∨ (∃ obj ap action name,
          obj ∈ objects ∧ ap ∈ ProjectObject.action_points obj
          ∧ action ∈ ActionPoint.actions ap ∧ parse_type action = Ok (obj_id, name))).
Proof.
  revert yielded. induction objects as [|o objects IH]; intros yielded; simpl.
  { intros [= <-]. split; [by intros ? ?%elem_of_nil|].
    split; [done|]. by intros [(? & ?%elem_of_nil & _)|(? & ? & ? & ? & ?%elem_of_nil & _)]. }
  case_decide as Hid.
  { intros [= <-]. split; [by intros ? ->%list_elem_of_singleton|].
    split; [|done]. intros _. left. exists o. split; [left|done]. }
  destruct (yields_of_action_points _ _ _) as [y1|e] eqn:Hy1; [|done]. simpl.
  destruct (yields_of_objects _ _ _) as [y2|e] eqn:Hy2; [|done]. simpl.
  intros [= <-].
  apply yields_of_action_points_inv in Hy1 as [Hall1 Hiff1].
  destruct (IH _ eq_refl) as [Hall2 Hiff2].
  split; [intros p [?|?]%elem_of_app; eauto|].
  split.
  - intros Hne. destruct y1 as [|p y1].
    + apply Hiff2 in Hne as [(o' & ? & ?)|(o' & ap & a & name & ? & ? & ? & ?)].
      * left. exists o'. split; [by right|done].
      * right. exists o', ap, a, name. split; [by right|done].
    + destruct Hiff1 as [(ap & a & name & ? & ? & ?) _]; [done|].
      right. exists o, ap, a, name. split; [left|done].
  - intros [(o' & [->|Hin]%elem_of_cons & Ho)
           |(o' & ap & a & name & [->|Hin]%elem_of_cons & Hap & Ha & Hp)].
    + done.
    + destruct Hiff2 as [_ Hne]. intros [_ Hnil]%app_eq_nil. apply Hne; eauto.
    + destruct Hiff1 as [_ Hne]. intros [Hnil _]%app_eq_nil. apply Hne; eauto 10.
    + destruct Hiff2 as [_ Hne]. intros [_ Hnil]%app_eq_nil. apply Hne; eauto 10.
Qed.

Lemma yields_of_projects_inv scene_id obj_id ids yielded :
  yields_of_projects scene_id obj_id ids = Ok yielded →
  ∀ p, p ∈ yielded ↔
    ∃ project_id, project_id ∈ ids ∧ get_project project_id = Ok p
                  ∧ Project.scene_id p = scene_id ∧ uses p obj_id.
Proof.
  revert yielded. induction ids as [|project_id ids IH]; intros yielded; simpl.
  { intros [= <-] p. split; [by intros ?%elem_of_nil|]. by intros (? & ?%elem_of_nil & _). }
  destruct (get_project project_id) as [project|e] eqn:Hget; [|done]. simpl.
  match goal with
  | |- context [mbind _ ?m] => destruct m as [y1|e] eqn:Hy1; [|done]
  end.
  simpl. destruct (yields_of_projects _ _ _) as [y2|e] eqn:Hy2; [|done]. simpl.
  intros [= <-] p. rewrite elem_of_app, (IH _ eq_refl p).
  assert (p ∈ y1 ↔ p = project ∧ Project.scene_id project = scene_id ∧ uses project obj_id)
    as ->.
  { revert Hy1. case_decide as Hscene.
    - intros [= <-]. split; [by intros ?%elem_of_nil|]. by intros (_ & ? & _).
    - intros [Hall Hiff]%yields_of_objects_inv. unfold uses. rewrite <-Hiff. split.
      + intros Hin. split_and!; [by apply Hall|done|]. intros ->. by apply elem_of_nil in Hin.
      + intros (-> & _ & Hne). destruct y1 as [|p' y1]; [done|].
        rewrite (Hall p') by left. left. }
  split.
  - intros [(-> & ? & ?)|(k & ? & ?)].
    + exists project_id. split; [left|done].
    + exists k. split; [by right|done].
  - intros (k & [->|Hin]%elem_of_cons & Hk & ? & ?).
    + left. rewrite Hget in Hk. by injection Hk as ->.
    + right. eauto.
Qed.

(** The usage request answers with the ids of the stored projects on the
    open scene that have an object with the id or an action that targets
    it, and changes nothing. *)
Theorem usage_lists_the_projects_that_use_the_id id s s' ids :
  scene_object_usage_request_cb id s = (s', Ok (Success ids)) →
  s' = s
  ∧ ∃ scene listed,
      SCENE s = Some scene ∧ get_projects = Ok listed
      ∧ ((∃ obj, obj ∈ Scene.objects scene ∧ SceneObject.id obj = id)
         ∨ (∃ srv, srv ∈ Scene.services scene ∧ SceneService.type srv = id))
      ∧ ∀ pid, pid ∈ ids ↔
          ∃ project_id project,
            project_id ∈ listed ∧ get_project project_id = Ok project
            ∧ Project.id project = pid
            ∧ Project.scene_id project = Scene.id scene ∧ uses project id.
Proof.
  unfold scene_object_usage_request_cb, scene_needed.
  unfold mbind at 1, M_bind at 1, get_state at 1.
  destruct (SCENE s) as [scene|] eqn:Hscene; [|done].
  case_decide; [done|].
  unfold mbind at 1, M_bind at 1, get_state at 1. rewrite Hscene.
  destruct (existsb _ _ || existsb _ _) eqn:Hknown; simpl; [|done].
  unfold mbind, M_bind, lift, projects_using_object.
  destruct get_projects as [listed|e] eqn:Hlisted; [|done]. simpl.
  unfold mbind, result_bind.
  destruct (yields_of_projects _ _ _) as [yielded|e] eqn:Hy; [|done].
  intros [= <- <-]. split; [done|]. exists scene, listed. split_and!; [done..| |].
  - apply orb_true_iff in Hknown as [Hex|Hex]; apply existsb_exists in Hex
      as (x & Hin%list_elem_of_In & Hx%bool_decide_eq_true); eauto.
  - intros pid. rewrite elem_of_list_to_set, list_elem_of_fmap.
    pose proof (yields_of_projects_inv _ _ _ _ Hy) as Hiff. split.
    + intros (p & -> & (k & ? & ? & ? & ?)%Hiff). eauto 10.
    + intros (k & p & ? & ? & <- & ? & ?). exists p. split; [done|]. apply Hiff. eauto.
Qed.

End usage_facts.

Lemma usage_lists_the_projects_that_use_the_id_witness :
  @scene_object_usage_request_cb Samples.sample_storage Samples.sample_parsers "box1"
    Samples.cell_server
  = (Samples.cell_server, Ok (Success {[ "project1" ]}))
  ∧ ∃ project, @get_project Samples.sample_storage "project1" = Ok project
               ∧ @uses Samples.sample_parsers project "box1".
Proof.
  assert (@scene_object_usage_request_cb Samples.sample_storage Samples.sample_parsers
            "box1" Samples.cell_server
          = (Samples.cell_server, Ok (Success {[ "project1" ]}))) as Hrun
    by (vm_compute; reflexivity).
  split; [exact Hrun|].
  destruct (@usage_lists_the_projects_that_use_the_id Samples.sample_storage
              Samples.sample_parsers _ _ _ _ Hrun)
    as (_ & scene & listed & _ & Hlisted & _ & Hids).
  destruct (proj1 (Hids "project1")) as (k & project & Hk & Hget & _ & _ & Huses).
  { apply elem_of_singleton. reflexivity. }
  vm_compute in Hlisted. injection Hlisted as <-.
  apply elem_of_cons in Hk as [->|Hk].
  - exists project. split; [exact Hget|exact Huses].
  - apply elem_of_cons in Hk as [->|Hk]; [|by apply elem_of_nil in Hk].
    vm_compute in Hget. injection Hget as <-.
    exfalso. destruct Huses as [(obj & Hobj & _)|(obj & ? & ? & ? & Hobj & _)];
      by apply elem_of_nil in Hobj.
Defined.
